(** * CherryScript: the statement splitter and the tree-walking evaluator

    A shallow embedding of [cherryscript/parser.py] and
    [cherryscript/runtime/interpreter.py].  The interpreter works on
    source text: every stage receives a string, searches it for the
    construct of lowest precedence and recurses on substrings.  The
    embedding keeps that shape: expressions and statements are strings,
    the functions below are the Python functions of the same name.

    Conventions.
    - Text is ASCII; [is_space] is Python's [str.isspace] on that range.
    - Python integers are [Z].  The [Float] variant of values and the
      opaque collaborator handles (database, frame, model, endpoint) are
      outside the model: an operation that would produce or inspect one
      yields the outcome [Unmodelled].
    - Arrays and dicts are references into a heap, so that aliasing and
      in-place mutation are those of the Python objects.
    - Recursion of the interpreter is bounded by a [fuel] argument that
      decreases at every call; running out yields [OutOfFuel].  The
      recursion limit of the host is not modelled. *)

From Stdlib Require Import String Ascii ZArith Lia DecimalString.
From Stdlib Require DecimalZ DecimalPos.
From stdpp Require Import base option list gmap strings.

Local Open Scope Z_scope.

(** ** Python strings *)

Module PyStr.

Definition is_space (c : ascii) : bool :=
  let n := nat_of_ascii c in
  ((9 <=? n)%nat && (n <=? 13)%nat) || ((28 <=? n)%nat && (n <=? 31)%nat) || (n =? 32)%nat.

Definition is_digit (c : ascii) : bool :=
  let n := nat_of_ascii c in (48 <=? n)%nat && (n <=? 57)%nat.

Definition is_alpha_ (c : ascii) : bool :=
  let n := nat_of_ascii c in
  ((65 <=? n)%nat && (n <=? 90)%nat) || ((97 <=? n)%nat && (n <=? 122)%nat) || (n =? 95)%nat.

(** [[a-zA-Z0-9_]] *)
Definition is_word (c : ascii) : bool := is_alpha_ c || is_digit c.

(** [[a-zA-Z0-9_.]] *)
Definition is_word_dot (c : ascii) : bool := is_word c || Ascii.eqb c ".".

Definition is_quote (c : ascii) : bool :=
  Ascii.eqb c "034" || Ascii.eqb c "'" || Ascii.eqb c "`".

Definition is_open (c : ascii) : bool :=
  Ascii.eqb c "(" || Ascii.eqb c "[" || Ascii.eqb c "{".

Definition is_close (c : ascii) : bool :=
  Ascii.eqb c ")" || Ascii.eqb c "]" || Ascii.eqb c "}".

Definition len (s : string) : nat := String.length s.

Definition nonempty (s : string) : bool :=
  match s with EmptyString => false | _ => true end.

(** [s.lstrip()] *)
Fixpoint lstrip (s : string) : string :=
  match s with
  | String c s' => if is_space c then lstrip s' else s
  | EmptyString => EmptyString
  end.

(** [s.rstrip()] *)
Fixpoint rstrip (s : string) : string :=
  match s with
  | String c s' =>
      match rstrip s' with
      | EmptyString => if is_space c then EmptyString else String c EmptyString
      | r => String c r
      end
  | EmptyString => EmptyString
  end.

(** [s.strip()] *)
Definition strip (s : string) : string := rstrip (lstrip s).

(** [s[i:]] and [s[:i]] and [s[i:j]] for indices within [0, len]. *)
Fixpoint slice_from (i : nat) (s : string) : string :=
  match i, s with
  | O, _ => s
  | S i', String _ s' => slice_from i' s'
  | S _, EmptyString => EmptyString
  end.

Fixpoint slice_to (i : nat) (s : string) : string :=
  match i, s with
  | O, _ => EmptyString
  | S i', String c s' => String c (slice_to i' s')
  | S _, EmptyString => EmptyString
  end.

Definition slice (i j : nat) (s : string) : string :=
  slice_to (j - i) (slice_from i s).

(** [s[i]] when [i < len s]. *)
Definition get (i : nat) (s : string) : option ascii := String.get i s.

(** [s[-1]] *)
Fixpoint last (s : string) : option ascii :=
  match s with
  | EmptyString => None
  | String c EmptyString => Some c
  | String _ s' => last s'
  end.

(** [s[:-1]] *)
Fixpoint drop_last (s : string) : string :=
  match s with
  | EmptyString => EmptyString
  | String _ EmptyString => EmptyString
  | String c s' => String c (drop_last s')
  end.

Definition startswith (p s : string) : bool := String.prefix p s.

Definition endswith_char (c : ascii) (s : string) : bool :=
  match last s with Some d => Ascii.eqb c d | None => false end.

Definition startswith_char (c : ascii) (s : string) : bool :=
  match s with String d _ => Ascii.eqb c d | EmptyString => false end.

(** [c in s] *)
Fixpoint contains_char (c : ascii) (s : string) : bool :=
  match s with
  | EmptyString => false
  | String d s' => Ascii.eqb c d || contains_char c s'
  end.

(** [s.index(c)] for a single character, [None] when absent. *)
Fixpoint index_char (c : ascii) (s : string) : option nat :=
  match s with
  | EmptyString => None
  | String d s' => if Ascii.eqb c d then Some O else S <$> index_char c s'
  end.

(** longest prefix of characters satisfying [p], and the rest *)
Fixpoint span (p : ascii -> bool) (s : string) : string * string :=
  match s with
  | String c s' =>
      if p c then let '(a, b) := span p s' in (String c a, b) else (EmptyString, s)
  | EmptyString => (EmptyString, EmptyString)
  end.

(** [s.split(c)] for a single character separator *)
Fixpoint split_char (c : ascii) (s : string) : list string :=
  match s with
  | EmptyString => [EmptyString]
  | String d s' =>
      match split_char c s' with
      | hd :: tl => if Ascii.eqb c d then EmptyString :: hd :: tl else String d hd :: tl
      | [] => [String d EmptyString]
      end
  end.

(** [s.replace(a, b)] for a non-empty pattern [a] *)
Fixpoint replace_skip (a b : string) (s : string) (skip : nat) : string :=
  match s with
  | EmptyString => EmptyString
  | String c s' =>
      match skip with
      | S k => replace_skip a b s' k
      | O => if String.prefix a s
             then b +:+ replace_skip a b s' (String.length a - 1)
             else String c (replace_skip a b s' O)
      end
  end.

Definition replace (a b s : string) : string := replace_skip a b s O.

(** [sep.join(l)] *)
Fixpoint join (sep : string) (l : list string) : string :=
  match l with
  | [] => EmptyString
  | [x] => x
  | x :: tl => x +:+ sep +:+ join sep tl
  end.

(** [s * n] *)
Definition repeat_str (s : string) (n : Z) : string :=
  Nat.iter (Z.to_nat n) (fun acc => s +:+ acc) EmptyString.

End PyStr.
Import PyStr.

(** ** Values *)

Definition loc := nat.

(** The dynamic values of a script.  Arrays and dicts are Python
    objects with identity: the value is the reference. *)
Inductive value :=
| VNone
| VBool (b : bool)
| VInt (n : Z)
| VStr (s : string)
| VList (l : loc)
| VDict (l : loc).

#[global] Instance value_eq_dec : EqDecision value.
Proof. solve_decision. Defined.

(** A dict keeps its entries in insertion order. *)
Inductive obj :=
| OList (items : list value)
| ODict (entries : list (value * value)).

(** ** Outcomes *)

(** The exceptions the interpreter can meet.  The three signals are
    exception classes of the interpreter itself. *)
Inductive exn :=
| TypeError
| ZeroDivisionError
| ValueError
| IndexError
| ParseError (msg : string)
| CherryRuntimeError (msg : string)
| ReturnSignal (v : value)
| BreakSignal
| ContinueSignal.

(** [Ok]: normal completion.  [Raise]: a Python exception propagates.
    [OutOfFuel] and [Unmodelled] are the two ways the model declines to
    answer. *)
Inductive outcome (A : Type) :=
| Ok (a : A)
| Raise (e : exn)
| OutOfFuel
| Unmodelled.
Arguments Ok {A} a.
Arguments Raise {A} e.
Arguments OutOfFuel {A}.
Arguments Unmodelled {A}.

(** ** [cherryscript/parser.py] *)

Module Parser.

(** [re.match(r'^for\s+', cur_text)] *)
Definition starts_for_header (s : string) : bool :=
  startswith "for" s &&
  match slice_from 3 s with String c _ => is_space c | EmptyString => false end.

Definition flush (parts : list string) (cur : string) : list string :=
  let stmt := strip cur in
  if nonempty stmt then parts ++ [stmt] else parts.

Definition snoc (cur : string) (c : ascii) : string := cur +:+ String c EmptyString.

(** The [while i < len(text)] loop of [split_statements].  Every
    iteration advances [i]; [n] bounds the number of iterations. *)
Fixpoint split_loop (n : nat) (text : string) (i : nat) (parts : list string)
    (cur : string) (depth : Z) (in_q : bool) (qchar : option ascii)
    : outcome (list string) :=
  match n with
  | O => OutOfFuel
  | S n' =>
    match get i text with
    | None => Ok (flush parts cur)
    | Some c =>
      if is_quote c then
        if negb in_q then
          split_loop n' text (S i) parts (snoc cur c) depth true (Some c)
        else if bool_decide (qchar = Some c) then
          if (0 <? i)%nat && bool_decide (get (i - 1) text = Some "\"%char) then
            split_loop n' text (S i) parts (snoc cur c) depth in_q qchar
          else
            split_loop n' text (S i) parts (snoc cur c) depth false None
        else
          split_loop n' text (S i) parts (snoc cur c) depth in_q qchar
      else if negb in_q && is_open c then
        split_loop n' text (S i) parts (snoc cur c) (depth + 1) in_q qchar
      else if negb in_q && is_close c then
        split_loop n' text (S i) parts (snoc cur c) (Z.max 0 (depth - 1)) in_q qchar
      else if negb in_q && (depth =? 0) && Ascii.eqb c "/"
              && bool_decide (get (S i) text = Some "/"%char) then
        (* line comment: flush, skip to the end of the line and past it *)
        let i' := match String.index i (String "010" EmptyString) text with
                  | Some j => S j
                  | None => len text
                  end in
        split_loop n' text i' (flush parts cur) EmptyString depth in_q qchar
      else if negb in_q && (depth =? 0) && Ascii.eqb c "/"
              && bool_decide (get (S i) text = Some "*"%char) then
        (* block comment: the scan for the closing mark stops at len - 1 *)
        let i' := match String.index (i + 2) "*/" text with
                  | Some j => (j + 2)%nat
                  | None => if (i + 2 <? len text - 1)%nat
                            then (len text - 1)%nat else (i + 2)%nat
                  end in
        split_loop n' text i' parts cur depth in_q qchar
      else if negb in_q && (depth =? 0) && Ascii.eqb c ";" then
        let cur_text := strip cur in
        if starts_for_header cur_text then
          split_loop n' text (S i) parts (snoc cur c) depth in_q qchar
        else
          split_loop n' text (S i)
            (if nonempty cur_text then parts ++ [cur_text] else parts)
            EmptyString depth in_q qchar
      else if negb in_q && (depth =? 0) && Ascii.eqb c "010" then
        split_loop n' text (S i) (flush parts cur) EmptyString depth in_q qchar
      else
        split_loop n' text (S i) parts (snoc cur c) depth in_q qchar
    end
  end.

Definition split_statements (text : string) : outcome (list string) :=
  if negb (nonempty (strip text)) then Ok []
  else split_loop (S (len text)) text O [] EmptyString 0 false None.

(** The loop of [_split_by_comma]; one character per iteration. *)
Fixpoint comma_loop (s : string) (prev : option ascii) (parts : list string)
    (cur : string) (depth : Z) (in_q : bool) (qchar : option ascii) : list string :=
  match s with
  | EmptyString =>
      if nonempty cur then flush parts cur else parts
  | String c s' =>
      if is_quote c then
        if negb in_q then comma_loop s' (Some c) parts (snoc cur c) depth true (Some c)
        else if bool_decide (qchar = Some c) && negb (bool_decide (prev = Some "\"%char)) then
          comma_loop s' (Some c) parts (snoc cur c) depth false None
        else comma_loop s' (Some c) parts (snoc cur c) depth in_q qchar
      else if negb in_q && is_open c then
        comma_loop s' (Some c) parts (snoc cur c) (depth + 1) in_q qchar
      else if negb in_q && is_close c then
        comma_loop s' (Some c) parts (snoc cur c) (Z.max 0 (depth - 1)) in_q qchar
      else if negb in_q && (depth =? 0) && Ascii.eqb c "," then
        comma_loop s' (Some c) (flush parts cur) EmptyString depth in_q qchar
      else comma_loop s' (Some c) parts (snoc cur c) depth in_q qchar
  end.

Definition _split_by_comma (s : string) : list string :=
  comma_loop s None [] EmptyString 0 false None.

(** The [for i, c in enumerate(text)] loop of [parse_call]: the position
    of the last parenthesis opened at depth zero and the final depth, or
    the failure raised when the depth goes negative. *)
Fixpoint call_loop (s : string) (i : nat) (prev : option ascii) (paren_pos : option nat)
    (depth : Z) (in_q : bool) (qchar : option ascii) : option (option nat * Z) :=
  match s with
  | EmptyString => Some (paren_pos, depth)
  | String c s' =>
      if is_quote c then
        if negb in_q then call_loop s' (S i) (Some c) paren_pos depth true (Some c)
        else if bool_decide (qchar = Some c) && negb (bool_decide (prev = Some "\"%char)) then
          call_loop s' (S i) (Some c) paren_pos depth false None
        else call_loop s' (S i) (Some c) paren_pos depth in_q qchar
      else if negb in_q then
        if Ascii.eqb c "(" then
          call_loop s' (S i) (Some c) (if depth =? 0 then Some i else paren_pos)
            (depth + 1) in_q qchar
        else if Ascii.eqb c ")" then
          if depth - 1 <? 0 then None
          else call_loop s' (S i) (Some c) paren_pos (depth - 1) in_q qchar
        else call_loop s' (S i) (Some c) paren_pos depth in_q qchar
      else call_loop s' (S i) (Some c) paren_pos depth in_q qchar
  end.

Definition parse_call (text0 : string) : outcome (string * list string) :=
  let text := strip text0 in
  if negb (contains_char "(" text) then Raise (ParseError "Not a function call")
  else
    match call_loop text O None None 0 false None with
    | None => Raise (ParseError "Unbalanced parentheses")
    | Some (paren_pos, depth) =>
        if negb (depth =? 0) then Raise (ParseError "Unbalanced parentheses")
        else match paren_pos with
             | None => Raise (ParseError "Not a function call")
             | Some p =>
                 let name := strip (slice_to p text) in
                 let args_text := strip (drop_last (slice_from (S p) text)) in
                 if negb (nonempty args_text) then Ok (name, [])
                 else Ok (name, _split_by_comma args_text)
             end
    end.

End Parser.
Import Parser.

(** ** The Python operations the interpreter applies to values *)

Module Py.

Definition num_of (v : value) : option Z :=
  match v with
  | VInt n => Some n
  | VBool b => Some (if b then 1 else 0)
  | _ => None
  end.

(** [isinstance(v, int)], which holds of booleans too *)
Definition is_int (v : value) : bool :=
  match v with VInt _ | VBool _ => true | _ => false end.

Definition is_str (v : value) : bool :=
  match v with VStr _ => true | _ => false end.

Definition hashable (v : value) : bool :=
  match v with VList _ | VDict _ => false | _ => true end.

(** Equality of hashable values, the one dict keys are found by. *)
Definition key_eqb (a b : value) : bool :=
  match a, b with
  | VNone, VNone => true
  | VStr s, VStr t => String.eqb s t
  | (VInt _ | VBool _), (VInt _ | VBool _) => bool_decide (num_of a = num_of b)
  | _, _ => false
  end.

Fixpoint dict_get (es : list (value * value)) (k : value) : option value :=
  match es with
  | [] => None
  | (k', v) :: tl => if key_eqb k' k then Some v else dict_get tl k
  end.

Fixpoint dict_set (es : list (value * value)) (k v : value) : list (value * value) :=
  match es with
  | [] => [(k, v)]
  | (k', v') :: tl => if key_eqb k' k then (k', v) :: tl else (k', v') :: dict_set tl k v
  end.

Definition truthy (h : list obj) (v : value) : bool :=
  match v with
  | VNone => false
  | VBool b => b
  | VInt n => negb (n =? 0)
  | VStr s => nonempty s
  | VList l => match h !! l with Some (OList (_ :: _)) => true | _ => false end
  | VDict l => match h !! l with Some (ODict (_ :: _)) => true | _ => false end
  end.

(** Element-wise search for the first pair that is not equal, as
    [list.__eq__] does after it has compared the lengths. *)
Fixpoint all_eq (eq : value -> value -> option bool) (xs ys : list value) : option bool :=
  match xs, ys with
  | x :: xs', y :: ys' =>
      match eq x y with
      | Some true => all_eq eq xs' ys'
      | r => r
      end
  | _, _ => Some true
  end.

Fixpoint entries_eq (eq : value -> value -> option bool)
    (es fs : list (value * value)) : option bool :=
  match es with
  | [] => Some true
  | (k, v) :: tl =>
      match dict_get fs k with
      | None => Some false
      | Some w => match eq v w with
                  | Some true => entries_eq eq tl fs
                  | r => r
                  end
      end
  end.

(** [a == b].  [None] when the nesting is deeper than [d]. *)
Fixpoint py_eq (d : nat) (h : list obj) (a b : value) : option bool :=
  match a, b with
  | VNone, VNone => Some true
  | VStr s, VStr t => Some (String.eqb s t)
  | (VInt _ | VBool _), (VInt _ | VBool _) => Some (bool_decide (num_of a = num_of b))
  | VList l1, VList l2 =>
      if (l1 =? l2)%nat then Some true
      else match d with
           | O => None
           | S d' =>
               match h !! l1, h !! l2 with
               | Some (OList xs), Some (OList ys) =>
                   if (length xs =? length ys)%nat then all_eq (py_eq d' h) xs ys
                   else Some false
               | _, _ => Some false
               end
           end
  | VDict l1, VDict l2 =>
      if (l1 =? l2)%nat then Some true
      else match d with
           | O => None
           | S d' =>
               match h !! l1, h !! l2 with
               | Some (ODict es), Some (ODict fs) =>
                   if (length es =? length fs)%nat then entries_eq (py_eq d' h) es fs
                   else Some false
               | _, _ => Some false
               end
           end
  | _, _ => Some false
  end.

Inductive order_op := OpGt | OpLt | OpGe | OpLe.

Definition order_Z (op : order_op) (x y : Z) : bool :=
  match op with
  | OpGt => y <? x | OpLt => x <? y | OpGe => y <=? x | OpLe => x <=? y
  end.

Definition order_str (op : order_op) (s t : string) : bool :=
  match op, String.compare s t with
  | OpGt, Gt | OpLt, Lt => true
  | OpGe, (Gt | Eq) | OpLe, (Lt | Eq) => true
  | _, _ => false
  end.

(** First position at which two lists differ, with the two elements. *)
Fixpoint first_diff (eq : value -> value -> option bool) (xs ys : list value)
    : option (option (value * value)) :=
  match xs, ys with
  | x :: xs', y :: ys' =>
      match eq x y with
      | Some true => first_diff eq xs' ys'
      | Some false => Some (Some (x, y))
      | None => None
      end
  | _, _ => Some None
  end.

(** [a > b], [a < b], [a >= b], [a <= b]: [Raise TypeError] where Python
    has no ordering between the operands. *)
Fixpoint py_order (d : nat) (h : list obj) (op : order_op) (a b : value) : outcome bool :=
  match a, b with
  | VStr s, VStr t => Ok (order_str op s t)
  | (VInt _ | VBool _), (VInt _ | VBool _) =>
      match num_of a, num_of b with
      | Some x, Some y => Ok (order_Z op x y)
      | _, _ => Raise TypeError
      end
  | VList l1, VList l2 =>
      match d with
      | O => OutOfFuel
      | S d' =>
          match h !! l1, h !! l2 with
          | Some (OList xs), Some (OList ys) =>
              match first_diff (py_eq d' h) xs ys with
              | None => OutOfFuel
              | Some None => Ok (order_Z op (Z.of_nat (length xs)) (Z.of_nat (length ys)))
              | Some (Some (x, y)) => py_order d' h op x y
              end
          | _, _ => Raise TypeError
          end
      end
  | _, _ => Raise TypeError
  end.

(** *** [repr] and [str] *)

Definition hex_digit (n : nat) : ascii :=
  ascii_of_nat (if (n <? 10)%nat then 48 + n else 87 + n)%nat.

Definition repr_char (q : ascii) (c : ascii) : string :=
  let n := nat_of_ascii c in
  if Ascii.eqb c "\" then "\\"
  else if Ascii.eqb c q then String "\" (String c EmptyString)
  else if Ascii.eqb c "010" then "\n"
  else if Ascii.eqb c "013" then "\r"
  else if Ascii.eqb c "009" then "\t"
  else if (n <? 32)%nat || (n =? 127)%nat then
    "\x" +:+ String (hex_digit (n / 16)) (String (hex_digit (n mod 16)) EmptyString)
  else String c EmptyString.

Fixpoint concat_map (f : ascii -> string) (s : string) : string :=
  match s with
  | EmptyString => EmptyString
  | String c s' => f c +:+ concat_map f s'
  end.

Definition repr_str (s : string) : string :=
  let q : ascii :=
    if contains_char "'" s && negb (contains_char "034" s) then "034"%char else "'"%char in
  String q (concat_map (repr_char q) s) +:+ String q EmptyString.

Definition str_of_Z (n : Z) : string := NilZero.string_of_int (Z.to_int n).

Fixpoint map_opt {A B} (f : A -> option B) (l : list A) : option (list B) :=
  match l with
  | [] => Some []
  | x :: tl => match f x with
               | Some y => cons y <$> map_opt f tl
               | None => None
               end
  end.

(** [repr(v)]; [None] when the nesting is deeper than [d]. *)
Fixpoint py_repr (d : nat) (h : list obj) (v : value) : option string :=
  match v with
  | VNone => Some "None"
  | VBool b => Some (if b then "True" else "False")
  | VInt n => Some (str_of_Z n)
  | VStr s => Some (repr_str s)
  | VList l =>
      match d with
      | O => None
      | S d' =>
          match h !! l with
          | Some (OList xs) =>
              (fun rs => "[" +:+ join ", " rs +:+ "]") <$> map_opt (py_repr d' h) xs
          | _ => None
          end
      end
  | VDict l =>
      match d with
      | O => None
      | S d' =>
          match h !! l with
          | Some (ODict es) =>
              (fun rs => "{" +:+ join ", " rs +:+ "}") <$>
              map_opt (fun kv => match py_repr d' h kv.1, py_repr d' h kv.2 with
                                 | Some a, Some b => Some (a +:+ ": " +:+ b)
                                 | _, _ => None
                                 end) es
          | _ => None
          end
      end
  end.

(** [str(v)] *)
Definition py_str (d : nat) (h : list obj) (v : value) : option string :=
  match v with
  | VStr s => Some s
  | _ => py_repr d h v
  end.

(** [int(expr)] for text matching [-?[0-9]+] *)
Definition int_of_text (s : string) : option Z := Z.of_int <$> NilZero.int_of_string s.

End Py.
Import Py.

(** ** The runtime state and its monad *)

(** An entry of [Runtime._functions]. *)
Record fn_def := FnDef { params : list string; body : string }.

(** What a run writes to standard output: the lines printed by the
    script and by the interpreter's warnings, and the error reports of
    [Runtime.run], whose text depends on the host's messages. *)
Inductive event :=
| Printed (line : string)
| Reported (e : exn).

(** [Runtime]: [self.env], [self._functions], the Python heap that holds
    the arrays and dicts, and standard output. *)
Record state := State {
  env : gmap string value;
  functions : gmap string fn_def;
  heap : list obj;
  output : list event
}.

Definition with_env (e : gmap string value) (st : state) : state :=
  State e (functions st) (heap st) (output st).
Definition with_functions (f : gmap string fn_def) (st : state) : state :=
  State (env st) f (heap st) (output st).
Definition with_heap (h : list obj) (st : state) : state :=
  State (env st) (functions st) h (output st).
Definition with_output (o : list event) (st : state) : state :=
  State (env st) (functions st) (heap st) o.

Definition initial : state := State ∅ ∅ [] [].

Definition M (A : Type) : Type := state -> outcome A * state.

Definition ret {A} (a : A) : M A := fun st => (Ok a, st).

Definition bind {A B} (m : M A) (k : A -> M B) : M B :=
  fun st =>
    match m st with
    | (Ok a, st') => k a st'
    | (Raise e, st') => (Raise e, st')
    | (OutOfFuel, st') => (OutOfFuel, st')
    | (Unmodelled, st') => (Unmodelled, st')
    end.

Notation "x <- m ;; k" := (bind m (fun x => k))
  (at level 100, m at next level, right associativity).
Notation "m ;;; k" := (bind m (fun _ => k))
  (at level 100, right associativity).

Definition raise {A} (e : exn) : M A := fun st => (Raise e, st).
Definition out_of_fuel {A} : M A := fun st => (OutOfFuel, st).
Definition unmodelled {A} : M A := fun st => (Unmodelled, st).

Definition lift {A} (o : outcome A) : M A := fun st => (o, st).

(** A depth-bounded operation: [None] is exhaustion of the bound. *)
Definition lift_depth {A} (o : option A) : M A :=
  match o with Some a => ret a | None => out_of_fuel end.

Definition get_state : M state := fun st => (Ok st, st).
Definition get_env : M (gmap string value) := fun st => (Ok (env st), st).
Definition put_env (e : gmap string value) : M unit := fun st => (Ok tt, with_env e st).
Definition get_heap : M (list obj) := fun st => (Ok (heap st), st).

(** [self.env[name] = v] *)
Definition assign (name : string) (v : value) : M unit :=
  fun st => (Ok tt, with_env (<[name := v]> (env st)) st).

(** [print(line)] *)
Definition emit (line : string) : M unit :=
  fun st => (Ok tt, with_output (output st ++ [Printed line]) st).

(** A new Python object. *)
Definition alloc (o : obj) : M loc :=
  fun st => (Ok (length (heap st)), with_heap (heap st ++ [o]) st).

Definition new_list (xs : list value) : M value := l <- alloc (OList xs) ;; ret (VList l).
Definition new_dict (es : list (value * value)) : M value := l <- alloc (ODict es) ;; ret (VDict l).

(** In-place update of the object at [l]. *)
Definition store (l : loc) (o : obj) : M unit :=
  fun st => (Ok tt, with_heap (<[l := o]> (heap st)) st).

(** [try: m  except Exception: handler] *)
Definition catch {A} (m : M A) (handler : exn -> M A) : M A :=
  fun st =>
    match m st with
    | (Raise e, st') => handler e st'
    | r => r
    end.

(** [try: m  finally: self.env = saved] *)
Definition finally_env {A} (m : M A) (saved : gmap string value) : M A :=
  fun st => let '(r, st') := m st in (r, with_env saved st').

Fixpoint mapM {A B} (f : A -> M B) (l : list A) : M (list B) :=
  match l with
  | [] => ret []
  | x :: tl => y <- f x ;; ys <- mapM f tl ;; ret (y :: ys)
  end.

Fixpoint forM_ {A} (f : A -> M unit) (l : list A) : M unit :=
  match l with
  | [] => ret tt
  | x :: tl => f x ;;; forM_ f tl
  end.

(** ** Text scanners of [cherryscript/runtime/interpreter.py] *)

Module Scan.

Definition dq : ascii := "034".
Definition nl : string := String "010" EmptyString.
Definition tab : string := String "009" EmptyString.

Definition prev_is_backslash (i : nat) (s : string) : bool :=
  (0 <? i)%nat && bool_decide (get (i - 1) s = Some "\"%char).

(** The quote bookkeeping shared by the scanners: the new [(in_q, qchar)]
    after a quote character [c] at position [i]. *)
Definition quote_step (s : string) (i : nat) (c : ascii) (in_q : bool)
    (qchar : option ascii) : bool * option ascii :=
  if negb in_q then (true, Some c)
  else if bool_decide (qchar = Some c) && negb (prev_is_backslash i s) then (false, None)
  else (in_q, qchar).

(** The scan of [_is_str_literal] for an unescaped [q] in the content. *)
Fixpoint has_unescaped (q : ascii) (content : string) (skip : bool) : bool :=
  match content with
  | EmptyString => false
  | String c s' =>
      if skip then has_unescaped q s' false
      else if Ascii.eqb c "\" then has_unescaped q s' true
      else if Ascii.eqb c q then true
      else has_unescaped q s' false
  end.

Definition _unquote (s : string) : string := drop_last (slice_from 1 s).

Definition _is_str_literal (s : string) : bool :=
  match s with
  | String q _ =>
      is_quote q && endswith_char q s && (2 <=? len s)%nat
      && negb (has_unescaped q (_unquote s) false)
  | EmptyString => false
  end.

(** The matches of [\$\{([^}]+)\}] in the content of a literal, in the
    order [re.sub] finds them, with the text between them. *)
Inductive segment :=
| Lit (c : ascii)
| Key (k : string).

Fixpoint segments (s : string) (skip : nat) : list segment :=
  match s with
  | EmptyString => []
  | String c s' =>
      match skip with
      | S k => segments s' k
      | O =>
          match (if Ascii.eqb c "$" then
                   match s' with
                   | String "{" inner =>
                       match index_char "}" inner with
                       | Some (S j) => Some (slice_to (S j) inner)
                       | _ => None
                       end
                   | _ => None
                   end
                 else None) with
          | Some k => Key k :: segments s' (len k + 2)
          | None => Lit c :: segments s' O
          end
      end
  end.

Fixpoint all_chars (p : ascii -> bool) (s : string) : bool :=
  match s with
  | EmptyString => true
  | String c s' => p c && all_chars p s'
  end.

Definition strip_minus (s : string) : string :=
  match s with String "-" s' => s' | _ => s end.

(** [re.match(r'^-?[0-9]+$', expr)] on stripped text *)
Definition is_int_literal (s : string) : bool :=
  let d := strip_minus s in nonempty d && all_chars is_digit d.

(** [re.match(r'^-?[0-9]+\.[0-9]+$', expr)] on stripped text *)
Definition is_float_literal (s : string) : bool :=
  let '(a, r) := span is_digit (strip_minus s) in
  match r with
  | String "." b => nonempty a && nonempty b && all_chars is_digit b
  | _ => false
  end.

(** [re.match(r'^not\s+', expr)] *)
Definition starts_not (s : string) : bool :=
  startswith "not" s &&
  match slice_from 3 s with String c _ => is_space c | EmptyString => false end.

(** A name of the pattern [[a-zA-Z_][a-zA-Z0-9_]*] at the start of the
    text, and what follows it. *)
Definition ident (s : string) : option (string * string) :=
  match s with
  | String c _ => if is_alpha_ c then Some (span is_word s) else None
  | EmptyString => None
  end.

(** The call pattern of [_eval]: a dotted name ([a-zA-Z_] followed by
    any of [a-zA-Z0-9_.]), optional white space and an opening
    parenthesis; the result is the position of the parenthesis. *)
Definition call_head (s : string) : option nat :=
  match s with
  | String c _ =>
      if is_alpha_ c then
        let '(name, r) := span is_word_dot s in
        let '(ws, r') := span is_space r in
        if startswith_char "(" r' then Some (len name + len ws)%nat else None
      else None
  | EmptyString => None
  end.

(** The scan of [_eval] for the parenthesis that closes the one at
    [open_pos]. *)
Fixpoint first_close_loop (n : nat) (expr : string) (ci : nat) (depth : Z)
    (in_q : bool) (qchar : option ascii) : option nat :=
  match n with
  | O => None
  | S n' =>
      match get ci expr with
      | None => None
      | Some cc =>
          if is_quote cc then
            let '(q, qc) := quote_step expr ci cc in_q qchar in
            first_close_loop n' expr (S ci) depth q qc
          else if negb in_q then
            if Ascii.eqb cc "(" then first_close_loop n' expr (S ci) (depth + 1) in_q qchar
            else if Ascii.eqb cc ")" then
              if depth - 1 =? 0 then Some ci
              else first_close_loop n' expr (S ci) (depth - 1) in_q qchar
            else first_close_loop n' expr (S ci) depth in_q qchar
          else first_close_loop n' expr (S ci) depth in_q qchar
      end
  end.

Definition first_close (expr : string) (open_pos : nat) : option nat :=
  first_close_loop (len expr) expr open_pos 0 false None.

(** The characters after which [_find_binary_op] reads a minus as a sign. *)
Definition sign_context (c : ascii) : bool :=
  Ascii.eqb c "+" || Ascii.eqb c "-" || Ascii.eqb c "*" || Ascii.eqb c "/"
  || Ascii.eqb c "(" || Ascii.eqb c "," || Ascii.eqb c "=".

Definition is_sign_at (expr : string) (i : nat) : bool :=
  let left := strip (slice_to i expr) in
  match last left with
  | None => true
  | Some c => sign_context c
  end.

(** The [while i < len(expr)] loop of [_find_binary_op]; [None] is the
    source's [-1]. *)
Fixpoint find_op_loop (n : nat) (expr op : string) (i : nat) (depth : Z)
    (in_q : bool) (qchar : option ascii) (last : option nat) : option nat :=
  match n with
  | O => last
  | S n' =>
      match get i expr with
      | None => last
      | Some c =>
          if is_quote c then
            let '(q, qc) := quote_step expr i c in_q qchar in
            find_op_loop n' expr op (S i) depth q qc last
          else if negb in_q then
            if is_open c then find_op_loop n' expr op (S i) (depth + 1) in_q qchar last
            else if is_close c then find_op_loop n' expr op (S i) (depth - 1) in_q qchar last
            else if (depth =? 0) && String.eqb (slice i (i + len op) expr) op then
              if String.eqb op "-" && is_sign_at expr i then
                find_op_loop n' expr op (S i) depth in_q qchar last
              else if (1 <? len op)%nat then Some i
              else find_op_loop n' expr op (S i) depth in_q qchar (Some i)
            else find_op_loop n' expr op (S i) depth in_q qchar last
          else find_op_loop n' expr op (S i) depth in_q qchar last
      end
  end.

Definition _find_binary_op (expr op : string) : option nat :=
  find_op_loop (len expr) expr op O 0 false None None.

(** The top-level positions of [kw] (one of [" if "], [" else "]): the
    scan both loops of [_find_ternary] perform. *)
Fixpoint keyword_loop (n : nat) (expr kw : string) (i : nat) (depth : Z)
    (in_q : bool) (qchar : option ascii) : list nat :=
  match n with
  | O => []
  | S n' =>
      match get i expr with
      | None => []
      | Some c =>
          if is_quote c then
            let '(q, qc) := quote_step expr i c in_q qchar in
            keyword_loop n' expr kw (S i) depth q qc
          else if negb in_q then
            if is_open c then keyword_loop n' expr kw (S i) (depth + 1) in_q qchar
            else if is_close c then keyword_loop n' expr kw (S i) (depth - 1) in_q qchar
            else if (depth =? 0) && String.eqb (slice i (i + len kw) expr) kw then
              i :: keyword_loop n' expr kw (S i) depth in_q qchar
            else keyword_loop n' expr kw (S i) depth in_q qchar
          else keyword_loop n' expr kw (S i) depth in_q qchar
      end
  end.

Definition keyword_positions (expr kw : string) : list nat :=
  keyword_loop (len expr) expr kw O 0 false None.

(** The inner loop of [_find_ternary]: the first top-level [" else "] of
    [rest] that leaves three non-empty parts. *)
Fixpoint first_else (then_e rest : string) (js : list nat) : option (string * string * string) :=
  match js with
  | [] => None
  | j :: tl =>
      let cond_e := strip (slice_to j rest) in
      let else_e := strip (slice_from (j + 6) rest) in
      if nonempty then_e && nonempty cond_e && nonempty else_e
      then Some (then_e, cond_e, else_e)
      else first_else then_e rest tl
  end.

Fixpoint ternary_from (expr : string) (ifs : list nat) : option (string * string * string) :=
  match ifs with
  | [] => None
  | if_pos :: tl =>
      let then_e := strip (slice_to if_pos expr) in
      let rest := slice_from (if_pos + 4) expr in
      match first_else then_e rest (keyword_positions rest " else ") with
      | Some t => Some t
      | None => ternary_from expr tl
      end
  end.

Definition _find_ternary (expr : string) : option (string * string * string) :=
  ternary_from expr (rev (keyword_positions expr " if ")).

(** The backward scan of [_eval_subscript_chain] for the bracket that
    opens the trailing subscript; the next index to visit is [i - 1]. *)
Fixpoint bracket_loop (i : nat) (expr : string) (depth : Z) (in_q : bool) : option nat :=
  match i with
  | O => None
  | S j =>
      match get j expr with
      | None => None
      | Some c =>
          if is_quote c && negb (prev_is_backslash j expr) then
            bracket_loop j expr depth (negb in_q)
          else if negb in_q then
            if Ascii.eqb c "]" then bracket_loop j expr (depth + 1) in_q
            else if Ascii.eqb c "[" then
              if depth - 1 =? 0 then Some j else bracket_loop j expr (depth - 1) in_q
            else bracket_loop j expr depth in_q
          else bracket_loop j expr depth in_q
      end
  end.

Definition bracket_start (expr : string) : option nat :=
  bracket_loop (len expr) expr 0 false.

(** The loop of [_extract_block] over [text], which starts with a brace. *)
Fixpoint block_loop (n : nat) (text : string) (i : nat) (depth : Z)
    (in_q : bool) (qchar : option ascii) : option nat :=
  match n with
  | O => None
  | S n' =>
      match get i text with
      | None => None
      | Some c =>
          if is_quote c then
            let '(q, qc) := quote_step text i c in_q qchar in
            block_loop n' text (S i) depth q qc
          else if negb in_q then
            if Ascii.eqb c "{" then block_loop n' text (S i) (depth + 1) in_q qchar
            else if Ascii.eqb c "}" then
              if depth - 1 =? 0 then Some i
              else block_loop n' text (S i) (depth - 1) in_q qchar
            else block_loop n' text (S i) depth in_q qchar
          else block_loop n' text (S i) depth in_q qchar
      end
  end.

Definition _extract_block (text0 : string) : outcome (string * string) :=
  let text := lstrip text0 in
  if negb (startswith_char "{" text) then Raise (CherryRuntimeError "Expected {")
  else match block_loop (len text) text O 0 false None with
       | Some i => Ok (slice 1 i text, slice_from (S i) text)
       | None => Raise (CherryRuntimeError "Unterminated block")
       end.

(** The loop of [_extract_condition]; its quote test has no escape check. *)
Fixpoint cond_loop (n : nat) (text : string) (i : nat) (depth : Z)
    (in_q : bool) (qchar : option ascii) : option nat :=
  match n with
  | O => None
  | S n' =>
      match get i text with
      | None => None
      | Some c =>
          if is_quote c then
            if negb in_q then cond_loop n' text (S i) depth true (Some c)
            else if bool_decide (qchar = Some c) then cond_loop n' text (S i) depth false None
            else cond_loop n' text (S i) depth in_q qchar
          else if negb in_q then
            if Ascii.eqb c "(" then cond_loop n' text (S i) (depth + 1) in_q qchar
            else if Ascii.eqb c ")" then
              if depth - 1 =? 0 then Some i
              else cond_loop n' text (S i) (depth - 1) in_q qchar
            else cond_loop n' text (S i) depth in_q qchar
          else cond_loop n' text (S i) depth in_q qchar
      end
  end.

Definition _extract_condition (text0 : string) : outcome (string * string) :=
  let text := lstrip text0 in
  if startswith_char "(" text then
    match cond_loop (len text) text O 0 false None with
    | Some i => Ok (slice 1 i text, slice_from (S i) text)
    | None => Raise (CherryRuntimeError "Unterminated condition")
    end
  else
    match index_char "{" text with
    | Some b => Ok (strip (slice_to b text), slice_from b text)
    | None => Raise ValueError
    end.

End Scan.
Import Scan.

(** ** The statement patterns of [Runtime._run_stmt]

    The regular expressions are applied to stripped text, on which [$]
    is the end of the text.  Their character classes are disjoint from
    what follows them, so the greedy match below is the one [re]
    finds. *)

Module Pattern.

(** What [\s*(.+)$] captures from [r] under [re.S]. *)
Definition tail_group (r : string) : option string :=
  let t := lstrip r in
  if nonempty t then Some t
  else match last r with
       | Some c => Some (String c EmptyString)
       | None => None
       end.

(** [fn name(params) { body }]: name, the text between the
    parentheses, the text between the first brace and the final one. *)
Definition match_fn (s : string) : option (string * string * string) :=
  if startswith "fn" s then
      let '(ws, r1) := span is_space (slice_from 2 s) in
      if nonempty ws then
        match ident r1 with
        | Some (name, r2) =>
            match lstrip r2 with
            | String "(" r3 =>
                let '(ps, r4) := span (fun c => negb (Ascii.eqb c ")")) r3 in
                match r4 with
                | String ")" r5 =>
                    match lstrip r5 with
                    | String "{" r6 =>
                        if endswith_char "}" r6 then Some (name, ps, drop_last r6) else None
                    | _ => None
                    end
                | _ => None
                end
            | _ => None
            end
        | None => None
        end
      else None
  else None.

(** [[p.strip() for p in params_raw.split(',') if p.strip()]] *)
Definition param_names (params_raw : string) : list string :=
  filter (fun p => nonempty p = true) (map strip (split_char "," params_raw)).

(** [kw\s*[\(\s]] at the start, for [kw] one of [if], [while] *)
Definition starts_cond_keyword (kw s : string) : bool :=
  startswith kw s &&
  let r := slice_from (len kw) s in
  (startswith_char "(" (lstrip r)
   || match r with String c _ => is_space c | EmptyString => false end).

(** [^return\b] *)
Definition starts_return (s : string) : bool :=
  startswith "return" s &&
  match slice_from 6 s with String c _ => negb (is_word c) | EmptyString => true end.

(** [^(?:var|let)\s+] *)
Definition starts_decl (s : string) : bool :=
  (startswith "var" s || startswith "let" s) &&
  match slice_from 3 s with String c _ => is_space c | EmptyString => false end.

(** The declaration pattern: name and expression text. *)
Definition match_decl (s : string) : option (string * string) :=
  if starts_decl s then
    match ident (lstrip (slice_from 3 s)) with
    | Some (name, r) =>
        match lstrip r with
        | String "=" r' => pair name <$> tail_group r'
        | _ => None
        end
    | None => None
    end
  else None.

Definition compound_ops : list string := ["+="; "-="; "*="; "/="; "%="].

(** The compound assignment pattern: name, operator, right-hand text. *)
Definition match_compound (s : string) : option (string * string * string) :=
  match ident s with
  | Some (name, r) =>
      let r' := lstrip r in
      let op := slice_to 2 r' in
      if existsb (String.eqb op) compound_ops then
        (fun e => (name, op, e)) <$> tail_group (slice_from 2 r')
      else None
  | None => None
  end.

(** The assignment pattern: name and the text after the first [=]. *)
Definition match_assign (s : string) : option (string * string) :=
  match ident s with
  | Some (name, r) =>
      match lstrip r with
      | String "=" r' => pair name <$> tail_group r'
      | _ => None
      end
  | None => None
  end.

(** The shortest non-empty prefix of [String c u] that is followed by
    optional white space and a brace: the lazy group of the for-in
    pattern. *)
Fixpoint lazy_until_brace (u : string) : option string :=
  if startswith_char "{" (lstrip u) then Some EmptyString
  else match u with
       | EmptyString => None
       | String c u' => String c <$> lazy_until_brace u'
       end.

(** The for-in pattern on the text after [for]: variable and collection
    text. *)
Definition match_for_in (rest : string) : option (string * string) :=
  match ident rest with
  | Some (var, r) =>
      let '(ws1, r1) := span is_space r in
      match r1 with
      | String "i" (String "n" r2) =>
          let '(ws2, u) := span is_space r2 in
          if nonempty ws1 && nonempty ws2 then
            match u with
            | String c u' =>
                match lazy_until_brace u' with
                | Some g => Some (var, String c g)
                | None =>
                    if Ascii.eqb c "{" && (2 <=? len ws2)%nat
                    then Some (var, EmptyString) else None
                end
            | EmptyString => None
            end
          else None
      | _ => None
      end
  | None => None
  end.

(** The C-style pattern on the text after [for]: the texts before the
    first semicolon, between the first two, and from the second to the
    first brace after it. *)
Definition match_for_c (rest : string) : option (string * string * string) :=
  match index_char ";" rest with
  | Some a =>
      let r1 := slice_from (S a) rest in
      match index_char ";" r1 with
      | Some b =>
          let r2 := slice_from (S b) r1 in
          match index_char "{" r2 with
          | Some c => Some (slice_to a rest, slice_to b r1, slice_to c r2)
          | None => None
          end
      | None => None
      end
  | None => None
  end.

End Pattern.
Import Pattern.

(** ** [parse_assignment] *)

(** [parse_assignment] of [cherryscript/parser.py]; its two patterns are
    those [_run_stmt] uses for a declaration and for an assignment. *)
Definition parse_assignment (text0 : string) : outcome (string * string) :=
  let text := strip text0 in
  match match_decl text with
  | Some r => Ok r
  | None =>
      match match_assign text with
      | Some r => Ok r
      | None => Raise (ParseError "Invalid assignment")
      end
  end.

(** ** [_compare] and subscripts *)

Definition except_type_error (r : outcome bool) : outcome bool :=
  match r with
  | Raise TypeError => Ok false
  | r => r
  end.

Definition of_depth {A} (o : option A) : outcome A :=
  match o with Some a => Ok a | None => OutOfFuel end.

Definition outcome_map {A B} (f : A -> B) (r : outcome A) : outcome B :=
  match r with
  | Ok a => Ok (f a)
  | Raise e => Raise e
  | OutOfFuel => OutOfFuel
  | Unmodelled => Unmodelled
  end.

(** [_compare(lhs, rhs, op)] on the heap [h]; [d] bounds the nesting of
    the containers compared. *)
Definition _compare (d : nat) (h : list obj) (lhs rhs : value) (op : string) : outcome bool :=
  except_type_error
    (if String.eqb op "==" then of_depth (py_eq d h lhs rhs)
     else if String.eqb op "!=" then outcome_map negb (of_depth (py_eq d h lhs rhs))
     else if String.eqb op ">" then py_order d h OpGt lhs rhs
     else if String.eqb op "<" then py_order d h OpLt lhs rhs
     else if String.eqb op ">=" then py_order d h OpGe lhs rhs
     else if String.eqb op "<=" then py_order d h OpLe lhs rhs
     else Ok false).

(** [obj[key]] inside [try ... except (KeyError, IndexError, TypeError):
    return None] *)
Definition subscript (h : list obj) (o k : value) : value :=
  let at_index {A} (n : nat) (pick : nat -> option A) : option A :=
    match num_of k with
    | Some i =>
        let j := if i <? 0 then i + Z.of_nat n else i in
        if (0 <=? j) && (j <? Z.of_nat n) then pick (Z.to_nat j) else None
    | None => None
    end in
  match o with
  | VList l =>
      match h !! l with
      | Some (OList xs) => default VNone (at_index (length xs) (fun j => xs !! j))
      | _ => VNone
      end
  | VStr s =>
      default VNone
        (at_index (len s) (fun j => (fun c => VStr (String c EmptyString)) <$> get j s))
  | VDict l =>
      match h !! l with
      | Some (ODict es) => if hashable k then default VNone (dict_get es k) else VNone
      | _ => VNone
      end
  | _ => VNone
  end.

(** ** The bodies of [_eval], [_run_call] and [_run_stmt]

    The three methods call one another; each body below receives the
    three at the fuel of its callees. *)

Definition guard_limit : nat := Z.to_nat 1000000.

Definition while_warning : string := "[warn] while loop exceeded iteration limit".
Definition for_warning : string := "[warn] for loop exceeded iteration limit".

Section Bodies.

Variable depth : nat.
Variable eval : string -> M value.
Variable run_stmt : string -> M value.
Variable run_call : string -> list string -> M value.

Definition truth (v : value) : M bool := h <- get_heap ;; ret (truthy h v).

Definition to_str (v : value) : M string := h <- get_heap ;; lift_depth (py_str depth h v).

Definition items_of (l : loc) : M (list value) :=
  h <- get_heap ;;
  match h !! l with
  | Some (OList xs) => ret xs
  | _ => unmodelled
  end.

Definition entries_of (l : loc) : M (list (value * value)) :=
  h <- get_heap ;;
  match h !! l with
  | Some (ODict es) => ret es
  | _ => unmodelled
  end.

(** *** Python arithmetic *)

(** [a + b] *)
Definition py_add (a b : value) : M value :=
  match a, b with
  | VStr s, VStr t => ret (VStr (s +:+ t))
  | VList l1, VList l2 => xs <- items_of l1 ;; ys <- items_of l2 ;; new_list (xs ++ ys)
  | _, _ =>
      match num_of a, num_of b with
      | Some x, Some y => ret (VInt (x + y))
      | _, _ => raise TypeError
      end
  end.

(** [a - b] *)
Definition py_sub (a b : value) : M value :=
  match num_of a, num_of b with
  | Some x, Some y => ret (VInt (x - y))
  | _, _ => raise TypeError
  end.

(** [a * b] *)
Definition py_mul (a b : value) : M value :=
  match a, b with
  | VStr s, (VInt _ | VBool _) => ret (VStr (repeat_str s (default 0 (num_of b))))
  | (VInt _ | VBool _), VStr s => ret (VStr (repeat_str s (default 0 (num_of a))))
  | VList l, (VInt _ | VBool _) =>
      xs <- items_of l ;; new_list (concat (replicate (Z.to_nat (default 0 (num_of b))) xs))
  | (VInt _ | VBool _), VList l =>
      xs <- items_of l ;; new_list (concat (replicate (Z.to_nat (default 0 (num_of a))) xs))
  | _, _ =>
      match num_of a, num_of b with
      | Some x, Some y => ret (VInt (x * y))
      | _, _ => raise TypeError
      end
  end.

(** [a // b] *)
Definition py_floordiv (a b : value) : M value :=
  match num_of a, num_of b with
  | Some x, Some y => if y =? 0 then raise ZeroDivisionError else ret (VInt (x / y))
  | _, _ => raise TypeError
  end.

(** [a % b]; on a string it is the formatting operator *)
Definition py_mod (a b : value) : M value :=
  match a with
  | VStr _ => unmodelled
  | _ =>
      match num_of a, num_of b with
      | Some x, Some y => if y =? 0 then raise ZeroDivisionError else ret (VInt (x mod y))
      | _, _ => raise TypeError
      end
  end.

(** [a / b]: the quotient is a float *)
Definition py_truediv (a b : value) : M value :=
  match num_of a, num_of b with
  | Some x, Some y => if y =? 0 then raise ZeroDivisionError else unmodelled
  | _, _ => raise TypeError
  end.

(** [a ** b]: a float for a negative exponent *)
Definition py_pow (a b : value) : M value :=
  match num_of a, num_of b with
  | Some x, Some y =>
      if 0 <=? y then ret (VInt (x ^ y))
      else if x =? 0 then raise ZeroDivisionError else unmodelled
  | _, _ => raise TypeError
  end.

Definition compare (lhs rhs : value) (op : string) : M value :=
  h <- get_heap ;; b <- lift (_compare depth h lhs rhs op) ;; ret (VBool b).

(** *** Expressions *)

(** The replacement of the interpolation matches, left to right. *)
Fixpoint interpolate (segs : list segment) : M string :=
  match segs with
  | [] => ret EmptyString
  | Lit c :: tl => r <- interpolate tl ;; ret (String c r)
  | Key k :: tl =>
      v <- eval (strip k) ;; s <- to_str v ;; r <- interpolate tl ;; ret (s +:+ r)
  end.

Definition eval_str_literal (expr : string) : M value :=
  raw <- interpolate (segments (_unquote expr) O) ;;
  ret (VStr (replace "\t" tab (replace "\n" nl raw))).

Fixpoint dict_pairs (pairs : list string) (result : list (value * value))
    : M (list (value * value)) :=
  match pairs with
  | [] => ret result
  | item :: tl =>
      match index_char ":" item with
      | None => raise ValueError
      | Some colon =>
          k <- eval (strip (slice_to colon item)) ;;
          v <- eval (strip (slice_from (S colon) item)) ;;
          if hashable k then dict_pairs tl (dict_set result k v) else raise TypeError
      end
  end.

Definition _eval_dict (expr : string) : M value :=
  let inner := strip (_unquote expr) in
  if negb (nonempty inner) then new_dict []
  else es <- dict_pairs (_split_by_comma inner) [] ;; new_dict es.

(** [None] is the source's [_UNRESOLVED]. *)
Definition _eval_subscript_chain (expr : string) : M (option value) :=
  match bracket_start expr with
  | Some (S b) =>
      let base_expr := strip (slice_to (S b) expr) in
      let key_expr := strip (drop_last (slice_from (S (S b)) expr)) in
      obj <- eval base_expr ;;
      key <- eval key_expr ;;
      h <- get_heap ;;
      ret (Some (subscript h obj key))
  | _ => ret None
  end.

(** [cur] after one segment [p] of a dotted path.  Whether a Python
    object has an attribute of a given name is not modelled, except that
    [None] has none whose name does not start with an underscore. *)
Definition member (cur : value) (p : string) : M (option value) :=
  match cur with
  | VDict l =>
      es <- entries_of l ;;
      match dict_get es (VStr p) with
      | Some v => ret (Some v)
      | None => unmodelled
      end
  | VNone => if startswith_char "_" p then unmodelled else ret None
  | _ => unmodelled
  end.

(** The walk of [a.b.c] in [_eval]: it stops with [None] at the first
    segment that is absent. *)
Fixpoint walk_path (cur : value) (ps : list string) : M value :=
  match ps with
  | [] => ret cur
  | p :: tl =>
      r <- member cur p ;;
      match r with
      | Some v => walk_path v tl
      | None => ret VNone
      end
  end.

(** The first operator of [ops], in that order, that [_find_binary_op]
    finds in [expr], with its position. *)
Fixpoint first_op (expr : string) (ops : list string) : option (string * nat) :=
  match ops with
  | [] => None
  | op :: tl =>
      match _find_binary_op expr op with
      | Some idx => Some (op, idx)
      | None => first_op expr tl
      end
  end.

(** The additive loop skips an operator whose left operand is empty. *)
Fixpoint first_additive (expr : string) (ops : list string) : option (string * string * string) :=
  match ops with
  | [] => None
  | op :: tl =>
      match _find_binary_op expr op with
      | Some idx =>
          let lhs_s := strip (slice_to idx expr) in
          if nonempty lhs_s
          then Some (op, lhs_s, strip (slice_from (idx + len op) expr))
          else first_additive expr tl
      | None => first_additive expr tl
      end
  end.

Definition lhs_of (expr : string) (idx : nat) : string := strip (slice_to idx expr).
Definition rhs_of (expr op : string) (idx : nat) : string :=
  strip (slice_from (idx + len op) expr).

(** The call branch of [_eval]: [Some v] when the call returned [v],
    [None] when the text is not a clean call or the call raised. *)
Definition try_call (expr : string) : M (option value) :=
  match call_head expr with
  | Some open_pos =>
      if endswith_char ")" expr
         && bool_decide (first_close expr open_pos = Some (len expr - 1)%nat)
      then catch
             (c <- lift (parse_call expr) ;;
              v <- run_call c.1 c.2 ;; ret (Some v))
             (fun _ => ret None)
      else ret None
  | None => ret None
  end.

(** [_eval] from the ternary on: the operators by precedence, then
    subscripts, dotted access, variables, and the text itself. *)
Definition eval_operators (expr : string) : M value :=
  match _find_ternary expr with
  | Some (then_e, cond_e, else_e) =>
      c <- eval cond_e ;; t <- truth c ;;
      if t then eval then_e else eval else_e
  | None =>
  match _find_binary_op expr " and " with
  | Some idx =>
      lhs <- eval (lhs_of expr idx) ;; t <- truth lhs ;;
      if negb t then ret lhs else eval (rhs_of expr " and " idx)
  | None =>
  match _find_binary_op expr " or " with
  | Some idx =>
      lhs <- eval (lhs_of expr idx) ;; t <- truth lhs ;;
      if t then ret lhs else eval (rhs_of expr " or " idx)
  | None =>
  match first_op expr ["=="; "!="; ">="; "<="; ">"; "<"] with
  | Some (op, idx) =>
      lhs <- eval (lhs_of expr idx) ;;
      rhs <- eval (rhs_of expr op idx) ;;
      compare lhs rhs op
  | None =>
  match first_additive expr ["+"; "-"] with
  | Some (op, lhs_s, rhs_s) =>
      lhs <- eval lhs_s ;;
      rhs <- eval rhs_s ;;
      if String.eqb op "+" then
        if is_str lhs || is_str rhs then
          a <- to_str lhs ;; b <- to_str rhs ;; ret (VStr (a +:+ b))
        else py_add lhs rhs
      else py_sub lhs rhs
  | None =>
  match first_op expr ["*"; "//"; "/"; "%"] with
  | Some (op, idx) =>
      lhs <- eval (lhs_of expr idx) ;;
      rhs <- eval (rhs_of expr op idx) ;;
      if String.eqb op "*" then py_mul lhs rhs
      else if String.eqb op "//" then py_floordiv lhs rhs
      else if String.eqb op "/" then py_truediv lhs rhs
      else py_mod lhs rhs
  | None =>
  match first_op expr ["**"] with
  | Some (op, idx) =>
      lhs <- eval (lhs_of expr idx) ;;
      rhs <- eval (rhs_of expr op idx) ;;
      py_pow lhs rhs
  | None =>
      sub <- (if contains_char "[" expr && endswith_char "]" expr
              then _eval_subscript_chain expr else ret None) ;;
      match sub with
      | Some v => ret v
      | None =>
          e <- get_env ;;
          let parts := split_char "." expr in
          match (if contains_char "." expr then
                   match parts with
                   | p0 :: ps => (fun cur => (cur, ps)) <$> e !! p0
                   | [] => None
                   end
                 else None) with
          | Some (cur, ps) => walk_path cur ps
          | None =>
              match e !! expr with
              | Some v => ret v
              | None => ret (VStr expr)
              end
          end
      end
  end end end end end end end.

Definition _eval_body (expr0 : string) : M value :=
  let expr := strip expr0 in
  if negb (nonempty expr) then ret VNone
  else if _is_str_literal expr then eval_str_literal expr
  else if String.eqb expr "true" then ret (VBool true)
  else if String.eqb expr "false" then ret (VBool false)
  else if String.eqb expr "null" || String.eqb expr "None" then ret VNone
  else if is_float_literal expr then unmodelled
  else if is_int_literal expr then
    match int_of_text expr with Some n => ret (VInt n) | None => unmodelled end
  else if startswith_char "[" expr && endswith_char "]" expr then
    let inner := strip (_unquote expr) in
    if negb (nonempty inner) then new_list []
    else vs <- mapM eval (_split_by_comma inner) ;; new_list vs
  else if startswith_char "{" expr && endswith_char "}" expr then _eval_dict expr
  else if startswith_char "(" expr && endswith_char ")" expr then eval (_unquote expr)
  else if starts_not expr then
    v <- eval (strip (slice_from 4 expr)) ;; t <- truth v ;; ret (VBool (negb t))
  else
    r <- try_call expr ;;
    match r with
    | Some v => ret v
    | None => eval_operators expr
    end.

(** *** Calls *)

Definition arg0 (args : list string) : M value :=
  match args with
  | a :: _ => eval a
  | [] => raise IndexError
  end.

(** [self._eval(args[i]) if len(args) > i else dflt] *)
Definition opt_arg (i : nat) (args : list string) (dflt : value) : M value :=
  match args !! i with
  | Some a => eval a
  | None => ret dflt
  end.

(** [int(v)]; the conversion of text is not modelled *)
Definition to_int (v : value) : M Z :=
  match v with
  | VInt n => ret n
  | VBool b => ret (if b then 1 else 0)
  | VStr _ => unmodelled
  | _ => raise TypeError
  end.

Fixpoint range_list (n : nat) (start step : Z) : list value :=
  match n with
  | O => []
  | S n' => VInt start :: range_list n' (start + step) step
  end.

(** [list(range(a, b, step))] for a non-zero step *)
Definition py_range (a b step : Z) : list value :=
  let n := if 0 <? step then (b - a + step - 1) / step else (a - b - step - 1) / (- step) in
  range_list (Z.to_nat n) a step.

(** [sum] of the items: the first sum is [0 + x]. *)
Fixpoint sum_values (acc : Z) (xs : list value) : M value :=
  match xs with
  | [] => ret (VInt acc)
  | x :: tl =>
      match num_of x with
      | Some n => sum_values (acc + n) tl
      | None => raise TypeError
      end
  end.

Definition order (op : order_op) (a b : value) : M bool :=
  h <- get_heap ;; lift (py_order depth h op a b).

(** The loop of [min] ([OpLt]) and [max] ([OpGt]) over items. *)
Fixpoint extreme (op : order_op) (cur : value) (rest : list value) : M value :=
  match rest with
  | [] => ret cur
  | x :: tl => b <- order op x cur ;; extreme op (if b then x else cur) tl
  end.

(** The same loop over a generator of argument evaluations. *)
Fixpoint extreme_args (op : order_op) (cur : value) (args : list string) : M value :=
  match args with
  | [] => ret cur
  | a :: tl => x <- eval a ;; b <- order op x cur ;; extreme_args op (if b then x else cur) tl
  end.

Fixpoint chars_of (s : string) : list value :=
  match s with
  | EmptyString => []
  | String c s' => VStr (String c EmptyString) :: chars_of s'
  end.

(** The items a Python iteration over [v] yields. *)
Definition iterate (v : value) : M (list value) :=
  match v with
  | VList l => items_of l
  | VDict l => es <- entries_of l ;; ret (map fst es)
  | VStr s => ret (chars_of s)
  | _ => raise TypeError
  end.

Definition extreme_call (op : order_op) (args : list string) : M value :=
  match args with
  | [a] =>
      v <- eval a ;; xs <- iterate v ;;
      match xs with
      | [] => raise ValueError
      | x :: tl => extreme op x tl
      end
  | [] => raise ValueError
  | a :: tl => x <- eval a ;; extreme_args op x tl
  end.

(** [lst.append(item)] *)
Definition list_append (l : loc) (item : value) : M unit :=
  xs <- items_of l ;; store l (OList (xs ++ [item])).

(** The receiver of a dotted call: the walk over all segments but the
    last. *)
Fixpoint walk_receiver (obj : value) (attrs : list string) : M value :=
  match attrs with
  | [] => ret obj
  | attr :: tl =>
      match obj with
      | VNone => ret VNone
      | _ =>
          r <- member obj attr ;;
          walk_receiver (default VNone r) tl
      end
  end.

(** The dotted branch of [_run_call]; [None] when it falls through to
    the user-defined functions. *)
Definition dotted_call (name : string) (args : list string) : M (option value) :=
  e <- get_env ;;
  match split_char "." name with
  | [] => ret None
  | p0 :: ps =>
      obj <- walk_receiver (default VNone (e !! p0)) (removelast ps) ;;
      let method := List.last ps p0 in
      if String.eqb method "get" then
        key_val <- opt_arg 0 args VNone ;;
        dflt <- opt_arg 1 args VNone ;;
        match obj with
        | VDict l =>
            es <- entries_of l ;;
            if hashable key_val then ret (Some (default dflt (dict_get es key_val)))
            else raise TypeError
        | _ => ret (Some dflt)
        end
      else if String.eqb method "replace" && is_str obj then
        a <- opt_arg 0 args (VStr EmptyString) ;;
        b <- opt_arg 1 args (VStr EmptyString) ;;
        match obj, a, b with
        | VStr s, VStr x, VStr y =>
            if nonempty x then ret (Some (VStr (replace x y s))) else unmodelled
        | _, _, _ => raise TypeError
        end
      else
        match obj with
        | VList l =>
            if String.eqb method "append" then
              item <- opt_arg 0 args VNone ;; list_append l item ;;; ret (Some obj)
            else unmodelled
        | VDict l =>
            if String.eqb method "keys" then
              es <- entries_of l ;; v <- new_list (map fst es) ;; ret (Some v)
            else unmodelled
        | VNone => if startswith_char "_" method then unmodelled else ret None
        | _ => unmodelled
        end
  end.

(** [for p, v in zip(params, evaluated_args): self.env[p] = v] *)
Definition bind_params (ps : list string) (vs : list value) (e : gmap string value)
    : gmap string value :=
  foldl (fun acc pv => <[pv.1 := pv.2]> acc) e (zip ps vs).

Definition run_nonempty (st : string) : M unit :=
  let s := strip st in
  if nonempty s then run_stmt s ;;; ret tt else ret tt.

(** [for st in split_statements(body): ...] *)
Definition _run_block (body_text : string) : M unit :=
  stmts <- lift (split_statements body_text) ;; forM_ run_nonempty stmts.

(** The body of a user-defined function inside its [try]: the value of
    the [return] that ends it, or [None]. *)
Definition run_fn_body (body_text : string) : M value :=
  catch (_run_block body_text ;;; ret VNone)
        (fun e => match e with ReturnSignal v => ret v | _ => raise e end).

(** The user-defined branch of [_run_call]. *)
Definition call_user (fn : fn_def) (args : list string) : M value :=
  evaluated_args <- mapM eval args ;;
  saved_env <- get_env ;;
  put_env (bind_params (params fn) evaluated_args saved_env) ;;;
  finally_env (run_fn_body (body fn)) saved_env.

Definition unknown_call (name : string) : M value :=
  emit ("[warn] Unknown function: " +:+ name) ;;; ret VNone.

Definition user_or_unknown (name : string) (args : list string) : M value :=
  st <- get_state ;;
  match functions st !! name with
  | Some fn => call_user fn args
  | None => unknown_call name
  end.

Definition _run_call_body (name : string) (args : list string) : M value :=
  if String.eqb name "print" then
    parts <- mapM eval args ;;
    strs <- mapM to_str parts ;;
    emit (join " " strs) ;;; ret VNone
  else if String.eqb name "len" then
    v <- opt_arg 0 args VNone ;;
    match v with
    | VNone => ret (VInt 0)
    | VStr s => ret (VInt (Z.of_nat (len s)))
    | VList l => xs <- items_of l ;; ret (VInt (Z.of_nat (length xs)))
    | VDict l => es <- entries_of l ;; ret (VInt (Z.of_nat (length es)))
    | _ => raise TypeError
    end
  else if String.eqb name "range" then
    vals <- mapM (fun a => v <- eval a ;; to_int v) args ;;
    match vals with
    | [] => new_list []
    | [n] => new_list (py_range 0 n 1)
    | [a; b] => new_list (py_range a b 1)
    | a :: b :: step :: _ =>
        if step =? 0 then raise ValueError else new_list (py_range a b step)
    end
  else if String.eqb name "sum" then
    match args with
    | [] => ret (VInt 0)
    | a :: _ =>
        v <- eval a ;; t <- truth v ;;
        if negb t then ret (VInt 0) else xs <- iterate v ;; sum_values 0 xs
    end
  else if String.eqb name "min" then extreme_call OpLt args
  else if String.eqb name "max" then extreme_call OpGt args
  else if String.eqb name "format" then arg0 args ;;; unmodelled
  else if String.eqb name "time" then unmodelled
  else if String.eqb name "append" then
    lst <- arg0 args ;;
    item <- opt_arg 1 args VNone ;;
    match lst with
    | VList l => list_append l item ;;; ret lst
    | _ => ret lst
    end
  else if String.eqb name "keys" then
    match args with
    | [] => new_list []
    | a :: _ =>
        v <- eval a ;;
        match v with
        | VDict l => es <- entries_of l ;; new_list (map fst es)
        | _ => new_list []
        end
    end
  else if String.eqb name "connect" || String.eqb name "h2o.frame"
          || String.eqb name "h2o.automl" || String.eqb name "deploy"
          || String.eqb name "undeploy" then unmodelled
  else if String.eqb name "h2o.preprocess" then opt_arg 0 args VNone
  else
    r <- (if contains_char "." name then dotted_call name args else ret None) ;;
    match r with
    | Some v => ret v
    | None => user_or_unknown name args
    end.

(** *** Statements *)

Definition loop_signals (body : M unit) : M bool :=
  catch (body ;;; ret false)
        (fun e => match e with
                  | BreakSignal => ret true
                  | ContinueSignal => ret false
                  | _ => raise e
                  end).

(** The loop of [_run_while], started with [guard] at its limit.  The
    result counts the executions of the body. *)
Fixpoint while_loop (cond : M value) (body : M unit) (guard : nat) : M nat :=
  c <- cond ;; t <- truth c ;;
  if negb t then ret O
  else
    stop <- loop_signals body ;;
    if stop : bool then ret 1%nat
    else match guard with
         | S g =>
             match g with
             | S _ => n <- while_loop cond body g ;; ret (S n)
             | O => emit while_warning ;;; ret 1%nat
             end
         | O => emit while_warning ;;; ret 1%nat
         end.

(** The loop of the C-style [for]; [cond] is absent when its text is
    empty. *)
Fixpoint for_loop (cond : option (M value)) (body post : M unit) (guard : nat) : M nat :=
  go <- match cond with
        | Some c => v <- c ;; truth v
        | None => ret true
        end ;;
  if negb go then ret O
  else
    stop <- loop_signals body ;;
    if stop : bool then ret 1%nat
    else
      post ;;;
      match guard with
      | S g =>
          match g with
          | S _ => n <- for_loop cond body post g ;; ret (S n)
          | O => emit for_warning ;;; ret 1%nat
          end
      | O => emit for_warning ;;; ret 1%nat
      end.

(** [for item in collection] over a list: the list is read again at
    every step, so items appended by the body are visited; [n] bounds
    the number of steps. *)
Fixpoint for_in_list (n : nat) (var : string) (l : loc) (i : nat) (body : M unit) : M unit :=
  match n with
  | O => out_of_fuel
  | S n' =>
      xs <- items_of l ;;
      match xs !! i with
      | None => ret tt
      | Some item =>
          assign var item ;;;
          stop <- loop_signals body ;;
          if stop : bool then ret tt else for_in_list n' var l (S i) body
      end
  end.

Fixpoint for_in_items (var : string) (items : list value) (body : M unit) : M unit :=
  match items with
  | [] => ret tt
  | item :: tl =>
      assign var item ;;;
      stop <- loop_signals body ;;
      if stop : bool then ret tt else for_in_items var tl body
  end.

(** The [while remainder] loop of [_run_if]; every round consumes a
    condition and a block, [n] bounds the rounds. *)
Fixpoint if_loop (n : nat) (remainder0 : string) : M unit :=
  match n with
  | O => out_of_fuel
  | S n' =>
      let remainder := strip remainder0 in
      if startswith "if" remainder || startswith "else if" remainder then
        let body_start :=
          if startswith "else if" remainder then lstrip (slice_from 7 remainder)
          else lstrip (slice_from 2 remainder) in
        cr <- lift (_extract_condition body_start) ;;
        br <- lift (_extract_block (lstrip cr.2)) ;;
        c <- eval cr.1 ;; t <- truth c ;;
        if t then _run_block br.1 else if_loop n' (strip br.2)
      else if startswith "else" remainder then
        br <- lift (_extract_block (lstrip (slice_from 4 remainder))) ;;
        _run_block br.1
      else ret tt
  end.

Definition _run_if (s : string) : M unit := if_loop (S (len s)) s.

Definition _run_while_counted (s : string) : M nat :=
  cr <- lift (_extract_condition (lstrip (slice_from 5 s))) ;;
  br <- lift (_extract_block (lstrip cr.2)) ;;
  while_loop (eval cr.1) (_run_block br.1) guard_limit.

Definition _run_while (s : string) : M unit := _run_while_counted s ;;; ret tt.

Definition first_block (rest : string) : outcome string :=
  match index_char "{" rest with
  | Some brace_start => outcome_map fst (_extract_block (slice_from brace_start rest))
  | None => Raise ValueError
  end.

(** [if text: self._run_stmt(text)] *)
Definition opt_stmt (text : string) : M unit :=
  if nonempty text then run_stmt text ;;; ret tt else ret tt.

(** The condition of a C-style loop, absent when its text is empty. *)
Definition opt_cond (text : string) : option (M value) :=
  if nonempty text then Some (eval text) else None.

Definition for_c_loop (init_s cond_s post_s body : string) : M nat :=
  opt_stmt init_s ;;;
  for_loop (opt_cond cond_s) (_run_block body) (opt_stmt post_s) guard_limit.

(** The C-style branch of [_run_for], [None] when its pattern does not
    match. *)
Definition run_for_c (rest : string) : option (M nat) :=
  (fun m =>
     body <- lift (first_block rest) ;;
     for_c_loop (strip m.1.1) (strip m.1.2) (strip m.2) body) <$> match_for_c rest.

Definition _run_for (s : string) : M unit :=
  let rest := lstrip (slice_from 3 s) in
  match match_for_in rest with
  | Some (var, coll) =>
      body <- lift (first_block rest) ;;
      collection <- eval (strip coll) ;;
      match collection with
      | VNone => ret tt
      | VList l => for_in_list depth var l O (_run_block body)
      | _ => items <- iterate collection ;; for_in_items var items (_run_block body)
      end
  | None =>
      match run_for_c rest with
      | Some m => m ;;; ret tt
      | None => raise (CherryRuntimeError "Invalid for statement")
      end
  end.

(** [_run_undeploy]: the deployment collaborator is outside the model. *)
Definition _run_undeploy (s : string) : M value :=
  c <- lift (parse_call s) ;;
  match c.2 with
  | [] => emit "[error] undeploy: missing argument" ;;; ret (VBool false)
  | _ => unmodelled
  end.

Definition compound (op : string) (cur rval : value) : M value :=
  if String.eqb op "+=" then py_add cur rval
  else if String.eqb op "-=" then py_sub cur rval
  else if String.eqb op "*=" then py_mul cur rval
  else if String.eqb op "/=" then py_truediv cur rval
  else py_mod cur rval.

Definition define_fn (name : string) (fn : fn_def) : M unit :=
  fun st => (Ok tt, with_functions (<[name := fn]> (functions st)) st).

Definition _run_stmt_body (stmt : string) : M value :=
  let s := strip stmt in
  match match_fn s with
  | Some (fname, params_raw, body_raw) =>
      define_fn fname (FnDef (param_names (strip params_raw)) (strip body_raw)) ;;; ret VNone
  | None =>
  if starts_cond_keyword "if" s then _run_if s ;;; ret VNone
  else if starts_cond_keyword "while" s then _run_while s ;;; ret VNone
  else if starts_for_header s then _run_for s ;;; ret VNone
  else if starts_return s then
    let expr := strip (slice_from 6 s) in
    value <- (if nonempty expr then eval expr else ret VNone) ;;
    raise (ReturnSignal value)
  else if starts_decl s then
    match match_decl s with
    | None => raise (CherryRuntimeError "Invalid declaration")
    | Some (name, expr) =>
        val <- eval (strip expr) ;; assign name val ;;; ret val
    end
  else if startswith "undeploy" s then _run_undeploy s
  else
  match match_compound s with
  | Some (name, op, rhs) =>
      e <- get_env ;;
      let cur := default (VInt 0) (e !! name) in
      rval <- eval (strip rhs) ;;
      new <- compound op cur rval ;;
      assign name new ;;; ret new
  | None =>
  match (match match_assign s with
         | Some (name, expr) =>
             if negb (startswith (name +:+ "==") (lstrip s)) then Some (name, expr) else None
         | None => None
         end) with
  | Some (name, expr) =>
      val <- eval (strip expr) ;; assign name val ;;; ret val
  | None => eval s
  end end end.

End Bodies.

(** ** The interpreter *)

Fixpoint _eval (fuel : nat) (expr : string) (st : state) {struct fuel}
    : outcome value * state :=
  match fuel with
  | O => out_of_fuel st
  | S f => _eval_body f (_eval f) (_run_call f) expr st
  end
with _run_call (fuel : nat) (name : string) (args : list string) (st : state) {struct fuel}
    : outcome value * state :=
  match fuel with
  | O => out_of_fuel st
  | S f => _run_call_body f (_eval f) (_run_stmt f) name args st
  end
with _run_stmt (fuel : nat) (stmt : string) (st : state) {struct fuel}
    : outcome value * state :=
  match fuel with
  | O => out_of_fuel st
  | S f => _run_stmt_body f (_eval f) (_run_stmt f) stmt st
  end.

Definition report (e : exn) : M unit :=
  fun st => (Ok tt, with_output (output st ++ [Reported e]) st).

(** [Runtime.run]: every top-level statement inside its own [try]. *)
Definition run_top (fuel : nat) (s0 : string) : M unit :=
  let s := strip s0 in
  if nonempty s then
    catch (_run_stmt fuel s ;;; ret tt)
          (fun e => match e with
                    | ReturnSignal _ => ret tt
                    | _ => report e
                    end)
  else ret tt.

Definition run (fuel : nat) (text : string) : M unit :=
  stmts <- lift (split_statements text) ;; forM_ (run_top fuel) stmts.

(** The state a fresh [Runtime] is in after [run(text)]. *)
Definition run_fresh (fuel : nat) (text : string) : outcome unit * state :=
  run fuel text initial.

(** * The repository's tests, run through the model *)

Example split_newline :
  split_statements ("var x = 1" +:+ String "010" "var y = 2") = Ok ["var x = 1"; "var y = 2"].
Proof. reflexivity. Qed.

Example split_semicolons :
  split_statements "var x = 1; var y = 2" = Ok ["var x = 1"; "var y = 2"].
Proof. reflexivity. Qed.

Example split_comment :
  split_statements ("var x = 1 // this is x" +:+ String "010" "var y = 2")
  = Ok ["var x = 1"; "var y = 2"].
Proof. reflexivity. Qed.

Example split_block_comment :
  split_statements ("/* comment */" +:+ String "010" "var x = 1") = Ok ["var x = 1"].
Proof. reflexivity. Qed.

Example split_for_header :
  split_statements ("for var i = 0; i < 4; i += 1 { s = s + i }" +:+ String "010" "x = 1; y = 2")
  = Ok ["for var i = 0; i < 4; i += 1 { s = s + i }"; "x = 1"; "y = 2"].
Proof. reflexivity. Qed.

Example parse_call_nested :
  parse_call "h2o.automl(h2o.frame(data), 'target')"
  = Ok ("h2o.automl", ["h2o.frame(data)"; "'target'"]).
Proof. reflexivity. Qed.

Example find_op_rightmost_single : _find_binary_op "10 - 3 - 2" "-" = Some 7%nat.
Proof. reflexivity. Qed.

Example find_op_first_multi : _find_binary_op "100 // 10 // 2" "//" = Some 4%nat.
Proof. reflexivity. Qed.

Example find_op_sign : _find_binary_op "n * -1" "-" = None.
Proof. reflexivity. Qed.

Example find_ternary_ex :
  _find_ternary "1 if x > 0 else 2" = Some ("1", "x > 0", "2").
Proof. reflexivity. Qed.

Definition lines (l : list string) : string := join nl l.

(** [test_compound_add], [test_compound_sub] *)
Example test_compound :
  env (run_fresh 6 (lines ["var x = 10"; "x += 5"; "x -= 3"])).2 !! "x" = Some (VInt 12).
Proof. reflexivity. Qed.

(** [test_string_concat], [test_string_repeat] *)
Example test_strings :
  let st := (run_fresh 8 "var s = 'hello' + ' ' + 'world'; var t = 'ab' * 3").2 in
  env st !! "s" = Some (VStr "hello world") /\ env st !! "t" = Some (VStr "ababab").
Proof. split; reflexivity. Qed.

(** [test_if_false_else] *)
Example test_if_else :
  output (run_fresh 10
            (lines ["var x = 1"; "if (x > 3) {"; "print('yes')"; "} else {"; "print('no')"; "}"])).2
  = [Printed "no"].
Proof. reflexivity. Qed.

(** [test_while] *)
Example test_while :
  env (run_fresh 10 (lines ["var i = 0"; "while (i < 5) {"; "i += 1"; "}"])).2 !! "i"
  = Some (VInt 5).
Proof. vm_compute. reflexivity. Qed.

(** [test_for_in] *)
Example test_for_in :
  env (run_fresh 10 (lines ["var total = 0"; "for x in [1, 2, 3] {"; "total = total + x"; "}"])).2
    !! "total"
  = Some (VInt 6).
Proof. vm_compute. reflexivity. Qed.

(** [test_c_for] *)
Example test_c_for :
  env (run_fresh 10 (lines ["var s = 0"; "for var i = 0; i < 4; i += 1 {"; "s = s + i"; "}"])).2
    !! "s"
  = Some (VInt 6).
Proof. vm_compute. reflexivity. Qed.

(** [test_range_start_stop], [test_sum], [test_min], [test_max] *)
Example test_builtins :
  let st := (run_fresh 8 "var r = range(2, 5); var s = sum([1, 2, 3, 4]); var m = min([3, 1, 4, 1, 5]); var n = len('hello')").2 in
  (exists l, env st !! "r" = Some (VList l) /\ heap st !! l = Some (OList [VInt 2; VInt 3; VInt 4]))
  /\ env st !! "s" = Some (VInt 10) /\ env st !! "m" = Some (VInt 1)
  /\ env st !! "n" = Some (VInt 5).
Proof. split; [exists 0%nat; split; reflexivity | repeat split; reflexivity]. Qed.

(** [test_backtick_interpolation] *)
Example test_interpolation :
  output (run_fresh 8 (lines ["var name = 'World'"; "print(`Hello ${name}!`)"])).2
  = [Printed "Hello World!"].
Proof. reflexivity. Qed.

(** [test_fn_with_if] *)
Example test_fn_with_if :
  env (run_fresh 12
         (lines ["fn abs_val(n) {"; "if (n < 0) {"; "return n * -1"; "} else {"; "return n";
                 "}"; "}"; "var r = abs_val(-5)"])).2 !! "r"
  = Some (VInt 5).
Proof. reflexivity. Qed.

(** * Properties *)

(** ** Shared lemmas *)

Lemma app_nil (s : string) : EmptyString +:+ s = s.
Proof. reflexivity. Qed.

Lemma app_cons (c : ascii) (s t : string) : String c s +:+ t = String c (s +:+ t).
Proof. reflexivity. Qed.

(** The names [_run_call] answers before it looks at the function table. *)
Definition builtin_names : list string :=
  ["print"; "len"; "range"; "sum"; "min"; "max"; "format"; "time"; "append"; "keys";
   "connect"; "h2o.frame"; "h2o.automl"; "deploy"; "undeploy"; "h2o.preprocess"].

(** [name] reaches the user-defined branch of [_run_call] and finds [fn]. *)
Definition user_function (name : string) (fn : fn_def) (st : state) : Prop :=
  (name ∉ builtin_names) /\ contains_char "." name = false /\ functions st !! name = Some fn.

Lemma eqb_not_builtin (name k : string) :
  name ∉ builtin_names -> k ∈ builtin_names -> String.eqb name k = false.
Proof.
  intros Hn Hk. apply String.eqb_neq. intros ->. exact (Hn Hk).
Qed.

(** A closed decidable proposition, by evaluation. *)
Ltac by_decision := refine (bool_decide_unpack _ _); vm_compute; exact I.

Ltac not_builtin H :=
  repeat match goal with
         | |- context [String.eqb ?n ?k] =>
             rewrite (eqb_not_builtin n k H) by by_decision
         end.

Lemma run_call_user (fuel : nat) (name : string) (fn : fn_def) (args : list string) (st : state) :
  user_function name fn st ->
  _run_call (S fuel) name args st = call_user (_eval fuel) (_run_stmt fuel) fn args st.
Proof.
  intros (Hn & Hdot & Hfn). cbn [_run_call]. unfold _run_call_body.
  not_builtin Hn. cbn [orb]. rewrite Hdot.
  unfold bind at 1. cbn [ret]. unfold user_or_unknown, bind at 1, get_state.
  now rewrite Hfn.
Qed.

Lemma call_user_unfold (eval : string -> M value) (run_stmt : string -> M value)
    (fn : fn_def) (args : list string) (st st1 : state) (vs : list value) :
  mapM eval args st = (Ok vs, st1) ->
  call_user eval run_stmt fn args st
  = finally_env (run_fn_body run_stmt (body fn)) (env st1)
      (with_env (bind_params (params fn) vs (env st1)) st1).
Proof.
  intros H. unfold call_user, bind at 1. rewrite H.
  reflexivity.
Qed.

(** ** Operator precedence and associativity *)

(** C1: the evaluator searches for [" and "] before [" or "], so [and]
    is the operator that binds looser: [false and false or true] is
    split at [and] and evaluates to [false], while the grouping
    [(false and false) or true] the claim names evaluates to [true]. *)
Theorem C1_and_is_split_before_or (fuel : nat) (st : state) :
  _eval (3 + fuel) "false and false or true" st = (Ok (VBool false), st)
  /\ _eval (4 + fuel) "(false and false) or true" st = (Ok (VBool true), st)
  /\ _eval (3 + fuel) "true or false and false" st = (Ok (VBool false), st).
Proof. repeat split; reflexivity. Qed.

(** C2: [_find_binary_op] returns the first occurrence of an operator
    of more than one character, and the multiplicative operators are
    searched one after the other, so [100 // 10 // 2] is
    [100 // (10 // 2) = 20] and [10 * 3 % 4] is [10 * (3 % 4) = 30];
    the search for ["*"] splits inside ["**"], so [2 ** 3] multiplies by an
    empty operand and raises. *)
Theorem C2_equal_precedence_chains (fuel : nat) (st : state) :
  _find_binary_op "100 // 10 // 2" "//" = Some 4%nat
  /\ _eval (3 + fuel) "100 // 10 // 2" st = (Ok (VInt 20), st)
  /\ _eval (3 + fuel) "10 * 3 % 4" st = (Ok (VInt 30), st)
  /\ _eval (3 + fuel) "2 ** 3" st = (Raise TypeError, st)
  /\ _eval (3 + fuel) "10 - 3 - 2" st = (Ok (VInt 5), st).
Proof. repeat split; reflexivity. Qed.

(** ** Calls of user-defined functions *)








(** ** Comparisons *)

(** The types between which Python orders and equates by content;
    booleans are integers. *)
Inductive kind := KNone | KNum | KStr | KList | KDict.

Definition kind_of (v : value) : kind :=
  match v with
  | VNone => KNone
  | VBool _ | VInt _ => KNum
  | VStr _ => KStr
  | VList _ => KList
  | VDict _ => KDict
  end.

(** Every key of the entries finds its own value, as in a dict built by
    [dict_set]. *)
Definition dict_ok (es : list (value * value)) : Prop :=
  Forall (fun kv => dict_get es kv.1 = Some kv.2) es.

Definition ordering_ops : list string := [">"; "<"; ">="; "<="].

Lemma py_eq_refl (d : nat) (h : list obj) (x : value) : py_eq d h x x = Some true.
Proof.
  destruct d, x; cbn; rewrite ?String.eqb_refl, ?Nat.eqb_refl, ?bool_decide_eq_true_2;
    reflexivity.
Qed.

Lemma py_eq_kinds (d : nat) (h : list obj) (a b : value) :
  kind_of a <> kind_of b -> py_eq d h a b = Some false.
Proof.
  destruct d, a, b; cbn; intros H; try reflexivity; congruence.
Qed.

Lemma py_order_kinds (d : nat) (h : list obj) (op : order_op) (a b : value) :
  kind_of a <> kind_of b -> py_order d h op a b = Raise TypeError.
Proof.
  destruct d, a, b; cbn; intros H; try reflexivity; congruence.
Qed.

Lemma py_order_raises (d : nat) (h : list obj) (op : order_op) (a b : value) (e : exn) :
  py_order d h op a b = Raise e -> e = TypeError.
Proof.
  revert a b. induction d as [|d IH]; intros a b;
    destruct a, b; cbn; try congruence.
  destruct (h !! l) as [[xs|]|], (h !! l0) as [[ys|]|]; try congruence.
  destruct (first_diff (py_eq d h) xs ys) as [[[x y]|]|]; try congruence.
  apply IH.
Qed.

Lemma all_eq_refl (d : nat) (h : list obj) (xs : list value) :
  all_eq (py_eq d h) xs xs = Some true.
Proof.
  induction xs as [|x xs IH]; [reflexivity|]. cbn. now rewrite py_eq_refl.
Qed.

Lemma entries_eq_sub (d : nat) (h : list obj) (es fs : list (value * value)) :
  Forall (fun kv => dict_get fs kv.1 = Some kv.2) es ->
  entries_eq (py_eq d h) es fs = Some true.
Proof.
  induction 1 as [|[k v] es Hkv _ IH]; [reflexivity|].
  cbn in *. rewrite Hkv, py_eq_refl. exact IH.
Qed.

Lemma compare_never_raises (d : nat) (h : list obj) (a b : value) (op : string) (e : exn) :
  _compare d h a b op <> Raise e.
Proof.
  unfold _compare.
  repeat match goal with
         | |- context [if ?c then _ else _] => destruct c
         end;
    try (destruct (py_eq d h a b); cbn; congruence);
    try (cbn; congruence);
    match goal with
    | |- except_type_error ?r <> _ =>
        destruct r as [x|e'| |] eqn:E; cbn; try congruence;
        apply py_order_raises in E; subst e'; congruence
    end.
Qed.

(** Structural equality, as Python defines it: a value equals itself;
    numbers (booleans are the integers 0 and 1) are equal by value and
    strings by their characters; two arrays are equal when they have as
    many items and the items are equal one by one; two dicts are equal
    when they have as many entries and every key of the first is a key
    of the second with an equal value. *)
#[warnings="-register-all"]
Inductive same (h : list obj) : value -> value -> Prop :=
| same_refl v : same h v v
| same_num a b n : num_of a = Some n -> num_of b = Some n -> same h a b
| same_list l1 l2 xs ys :
    h !! l1 = Some (OList xs) -> h !! l2 = Some (OList ys) ->
    Forall2 (same h) xs ys -> same h (VList l1) (VList l2)
| same_dict l1 l2 es fs :
    h !! l1 = Some (ODict es) -> h !! l2 = Some (ODict fs) ->
    length es = length fs ->
    Forall (fun kv => exists w, dict_get fs kv.1 = Some w /\ same h kv.2 w) es ->
    same h (VDict l1) (VDict l2).

(** The containers of [v] are nested less than [d] deep. *)
Fixpoint fits (h : list obj) (d : nat) (v : value) : Prop :=
  match v, d with
  | (VList _ | VDict _), O => False
  | VList l, S d' =>
      match h !! l with
      | Some (OList xs) => Forall (fits h d') xs
      | _ => True
      end
  | VDict l, S d' =>
      match h !! l with
      | Some (ODict es) => Forall (fun kv => fits h d' kv.2) es
      | _ => True
      end
  | _, _ => True
  end.

Lemma all_eq_true (eq : value -> value -> option bool) (R : value -> value -> Prop)
    (xs ys : list value) :
  (forall x y, eq x y = Some true -> R x y) ->
  length xs = length ys -> all_eq eq xs ys = Some true -> Forall2 R xs ys.
Proof.
  intros Heq. revert ys. induction xs as [|x xs IH]; intros [|y ys] Hl H;
    try discriminate; [constructor|].
  cbn in H. destruct (eq x y) as [[|]|] eqn:E; try discriminate.
  constructor; [now apply Heq | apply IH; [now injection Hl | exact H]].
Qed.

Lemma all_eq_false (eq : value -> value -> option bool) (R : value -> value -> Prop)
    (xs ys : list value) :
  (forall x y, eq x y = Some false -> ~ R x y) ->
  all_eq eq xs ys = Some false -> ~ Forall2 R xs ys.
Proof.
  intros Heq. revert ys. induction xs as [|x xs IH]; intros [|y ys] H F;
    try discriminate.
  apply Forall2_cons in F as [Hxy F]. cbn in H.
  destruct (eq x y) as [[|]|] eqn:E; try discriminate.
  - exact (IH ys H F).
  - exact (Heq x y E Hxy).
Qed.

Lemma entries_eq_true (eq : value -> value -> option bool) (R : value -> value -> Prop)
    (es fs : list (value * value)) :
  (forall x y, eq x y = Some true -> R x y) ->
  entries_eq eq es fs = Some true ->
  Forall (fun kv => exists w, dict_get fs kv.1 = Some w /\ R kv.2 w) es.
Proof.
  intros Heq. induction es as [|[k v] es IH]; intros H; [constructor|].
  cbn in H. destruct (dict_get fs k) as [w|] eqn:Ek; [|discriminate].
  destruct (eq v w) as [[|]|] eqn:E; try discriminate.
  constructor; [exists w; split; [exact Ek | now apply Heq] | now apply IH].
Qed.

Lemma entries_eq_false (eq : value -> value -> option bool) (R : value -> value -> Prop)
    (es fs : list (value * value)) :
  (forall x y, eq x y = Some false -> ~ R x y) ->
  entries_eq eq es fs = Some false ->
  ~ Forall (fun kv => exists w, dict_get fs kv.1 = Some w /\ R kv.2 w) es.
Proof.
  intros Heq. induction es as [|[k v] es IH]; intros H F; [discriminate|].
  apply Forall_cons in F as [(w' & Ek' & Hw') F]. cbn in H, Ek', Hw'.
  rewrite Ek' in H.
  destruct (eq v w') as [[|]|] eqn:E; try discriminate.
  - exact (IH H F).
  - exact (Heq v w' E Hw').
Qed.

Lemma py_eq_same (d : nat) (h : list obj) (a b : value) :
  py_eq d h a b = Some true -> same h a b.
Proof.
  revert a b. induction d as [|d IH]; intros a b; destruct a, b; cbn;
    try discriminate; try (intros _; apply same_refl).
  all: try match goal with
           | |- Some (bool_decide (_ = _)) = Some true -> same _ _ _ =>
               intros H; injection H as H; apply bool_decide_eq_true_1 in H;
               eapply same_num; [reflexivity | cbn; symmetry; exact H]
           | |- Some (String.eqb ?s ?t) = Some true -> _ =>
               intros H; injection H as H; apply String.eqb_eq in H; subst;
               apply same_refl
           end.
  all: match goal with
       | |- context [(?l1 =? ?l2)%nat] =>
           destruct (l1 =? l2)%nat eqn:El;
           [apply Nat.eqb_eq in El; subst; intros _; apply same_refl|];
           try discriminate
       | _ => idtac
       end.
  - destruct (h !! l) as [[xs|]|] eqn:E1; try discriminate.
    destruct (h !! l0) as [[ys|]|] eqn:E2; try discriminate.
    destruct (length xs =? length ys)%nat eqn:Hl; [|discriminate].
    apply Nat.eqb_eq in Hl. intros H.
    exact (same_list h l l0 xs ys E1 E2 (all_eq_true _ _ xs ys IH Hl H)).
  - destruct (h !! l) as [[|es]|] eqn:E1; try discriminate.
    destruct (h !! l0) as [[|fs]|] eqn:E2; try discriminate.
    destruct (length es =? length fs)%nat eqn:Hl; [|discriminate].
    apply Nat.eqb_eq in Hl. intros H.
    exact (same_dict h l l0 es fs E1 E2 Hl (entries_eq_true _ _ es fs IH H)).
Qed.

Lemma py_eq_differ (d : nat) (h : list obj) (a b : value) :
  py_eq d h a b = Some false -> ~ same h a b.
Proof.
  revert a b. induction d as [|d IH]; intros a b; destruct a, b; cbn; intros H S;
    try discriminate.
  all: try match type of H with
           | context [(?l1 =? ?l2)%nat] =>
               destruct (l1 =? l2)%nat eqn:El; [discriminate|]; apply Nat.eqb_neq in El
           end.
  all: inversion S; subst; cbn in *; try discriminate; try congruence.
  all: try (injection H as H; apply bool_decide_eq_false_1 in H; congruence).
  all: try (rewrite String.eqb_refl in H; discriminate).
  - match goal with
    | H1 : h !! l = Some _, H2 : h !! l0 = Some _, F : Forall2 _ ?xs ?ys |- _ =>
        rewrite H1, H2 in H;
        destruct (length xs =? length ys)%nat eqn:Hl;
        [exact (all_eq_false _ _ xs ys IH H F)
        |apply Nat.eqb_neq in Hl; apply Forall2_length in F; contradiction]
    end.
  - match goal with
    | H1 : h !! l = Some _, H2 : h !! l0 = Some _, Hn : length ?es = length ?fs,
      F : Forall _ ?es |- _ =>
        rewrite H1, H2 in H;
        destruct (length es =? length fs)%nat eqn:Hl;
        [exact (entries_eq_false _ _ es fs IH H F)
        |apply Nat.eqb_neq in Hl; contradiction]
    end.
Qed.

(** Within the bound on the nesting, equality is decided. *)
Lemma all_eq_decided (eq : value -> value -> option bool) (xs ys : list value) :
  Forall (fun x => forall y, eq x y <> None) xs -> all_eq eq xs ys <> None.
Proof.
  intros F. revert ys. induction F as [|x xs Hx _ IH]; intros [|y ys]; cbn;
    try discriminate.
  specialize (Hx y). destruct (eq x y) as [[|]|]; [apply IH | discriminate | contradiction].
Qed.

Lemma entries_eq_decided (eq : value -> value -> option bool) (es fs : list (value * value)) :
  Forall (fun kv => forall y, eq kv.2 y <> None) es -> entries_eq eq es fs <> None.
Proof.
  induction 1 as [|[k v] es Hv _ IH]; cbn; [discriminate|].
  destruct (dict_get fs k) as [w|]; [|discriminate].
  specialize (Hv w). cbn in Hv.
  destruct (eq v w) as [[|]|]; [apply IH | discriminate | contradiction].
Qed.

Lemma first_diff_decided (eq : value -> value -> option bool) (xs ys : list value) :
  Forall (fun x => forall y, eq x y <> None) xs -> first_diff eq xs ys <> None.
Proof.
  intros F. revert ys. induction F as [|x xs Hx _ IH]; intros [|y ys]; cbn;
    try discriminate.
  specialize (Hx y). destruct (eq x y) as [[|]|]; [apply IH | discriminate | contradiction].
Qed.

Lemma first_diff_elem (eq : value -> value -> option bool) (xs ys : list value) (x y : value) :
  first_diff eq xs ys = Some (Some (x, y)) -> x ∈ xs.
Proof.
  revert ys. induction xs as [|x0 xs IH]; intros [|y0 ys]; cbn; try discriminate.
  destruct (eq x0 y0) as [[|]|]; try discriminate.
  - intros H. apply elem_of_cons. right. exact (IH ys H).
  - intros H. injection H as <- _. apply elem_of_cons. now left.
Qed.

Lemma py_eq_decided (d : nat) (h : list obj) (a b : value) :
  fits h d a -> py_eq d h a b <> None.
Proof.
  revert a b. induction d as [|d IH]; intros a b; destruct a, b; cbn [py_eq fits];
    try discriminate; try contradiction.
  - intros F. destruct (l =? l0)%nat; [discriminate|].
    destruct (h !! l) as [[xs|]|]; try discriminate.
    destruct (h !! l0) as [[ys|]|]; try discriminate.
    destruct (length xs =? length ys)%nat; [|discriminate].
    apply all_eq_decided. eapply Forall_impl; [exact F|]. intros x Hx y. now apply IH.
  - intros F. destruct (l =? l0)%nat; [discriminate|].
    destruct (h !! l) as [[|es]|]; try discriminate.
    destruct (h !! l0) as [[|fs]|]; try discriminate.
    destruct (length es =? length fs)%nat; [|discriminate].
    apply entries_eq_decided. eapply Forall_impl; [exact F|]. intros x Hx y. now apply IH.
Qed.

Lemma py_order_decided (d : nat) (h : list obj) (op : order_op) (a b : value) :
  fits h d a ->
  (exists r, py_order d h op a b = Ok r) \/ py_order d h op a b = Raise TypeError.
Proof.
  revert a b. induction d as [|d IH]; intros a b; destruct a, b; cbn [py_order fits num_of];
    try contradiction; try (intros _; now right);
    try solve [intros _; left; eexists; reflexivity].
  intros F.
  destruct (h !! l) as [[xs|]|]; try now right.
  destruct (h !! l0) as [[ys|]|]; try now right.
  pose proof (first_diff_decided (py_eq d h) xs ys) as Hd.
  destruct (first_diff (py_eq d h) xs ys) as [[[x y]|]|] eqn:E.
  - apply IH. apply first_diff_elem in E. rewrite Forall_forall in F. now apply F.
  - left. eauto.
  - exfalso. apply Hd; [|reflexivity].
    eapply Forall_impl; [exact F|]. intros x Hx y. now apply py_eq_decided.
Qed.

Lemma compare_decided (d : nat) (h : list obj) (a b : value) (op : string) :
  fits h d a -> exists r, _compare d h a b op = Ok r.
Proof.
  intros F. unfold _compare.
  pose proof (py_eq_decided d h a b F) as He.
  repeat match goal with
         | |- context [if ?c then _ else _] => destruct c
         end;
    try (destruct (py_eq d h a b); [cbn; eauto | contradiction]);
    try (cbn; eauto; fail);
    match goal with
    | |- exists r, except_type_error (py_order d h ?o a b) = _ =>
        destruct (py_order_decided d h o a b F) as [[r ->]| ->]; cbn; eauto
    end.
Qed.

Lemma compare_ne (d : nat) (h : list obj) (a b : value) :
  _compare d h a b "!=" = outcome_map negb (_compare d h a b "==").
Proof.
  unfold _compare. cbn [String.eqb Ascii.eqb Bool.eqb].
  now destruct (py_eq d h a b).
Qed.

Lemma compare_eq_same (d : nat) (h : list obj) (a b : value) :
  (_compare d h a b "==" = Ok true -> same h a b)
  /\ (_compare d h a b "==" = Ok false -> ~ same h a b).
Proof.
  unfold _compare. cbn [String.eqb Ascii.eqb Bool.eqb].
  destruct (py_eq d h a b) as [[|]|] eqn:E; cbn; split; intros H; try discriminate.
  - now apply py_eq_same in E.
  - now apply py_eq_differ in E.
Qed.

(** C4, as the code has it: no [TypeError] leaves [_compare], and on
    operands whose containers are nested less than [d] deep (the bound
    [d] stands for the recursion limit of the host) every comparison
    gives a boolean; between operands of different types [==] is false,
    [!=] is true, and the four orderings are false; [==] is structural
    equality, on arrays and dicts as on the other values: it is true
    only of operands that are [same] and false only of operands that
    are not, and [!=] is its negation; in particular two arrays with
    the same items are equal and two of different lengths are not, and
    two dicts with the same entries are equal. *)
Theorem C4_comparisons_across_types (d : nat) (h : list obj) :
  (forall a b op e, _compare d h a b op <> Raise e)
  /\ (forall a b op, fits h d a -> exists r, _compare d h a b op = Ok r)
  /\ (forall a b, kind_of a <> kind_of b ->
        _compare d h a b "==" = Ok false
        /\ _compare d h a b "!=" = Ok true
        /\ forall op, op ∈ ordering_ops -> _compare d h a b op = Ok false)
  /\ (forall a b,
        (_compare d h a b "==" = Ok true -> same h a b)
        /\ (_compare d h a b "==" = Ok false -> ~ same h a b)
        /\ _compare d h a b "!=" = outcome_map negb (_compare d h a b "=="))
  /\ (forall l1 l2 xs ys, h !! l1 = Some (OList xs) -> h !! l2 = Some (OList ys) ->
        (xs = ys ->
           _compare (S d) h (VList l1) (VList l2) "==" = Ok true
           /\ _compare (S d) h (VList l1) (VList l2) "!=" = Ok false)
        /\ (length xs <> length ys ->
           _compare (S d) h (VList l1) (VList l2) "==" = Ok false
           /\ _compare (S d) h (VList l1) (VList l2) "!=" = Ok true))
  /\ (forall l1 l2 es, dict_ok es ->
        h !! l1 = Some (ODict es) -> h !! l2 = Some (ODict es) ->
        _compare (S d) h (VDict l1) (VDict l2) "==" = Ok true
        /\ _compare (S d) h (VDict l1) (VDict l2) "!=" = Ok false).
Proof.
  split; [|split; [|split; [|split; [|split]]]].
  - intros a b op e. apply compare_never_raises.
  - intros a b op. apply compare_decided.
  - intros a b Hk. unfold _compare. cbn [String.eqb Ascii.eqb Bool.eqb].
    rewrite (py_eq_kinds d h a b Hk). repeat split.
    intros op Hop. unfold ordering_ops in Hop.
    repeat (apply elem_of_cons in Hop as [->|Hop]);
      [ | | | | now apply elem_of_nil in Hop];
      cbn [String.eqb Ascii.eqb Bool.eqb]; now rewrite py_order_kinds.
  - intros a b. destruct (compare_eq_same d h a b) as [Ht Hf].
    split; [exact Ht | split; [exact Hf | apply compare_ne]].
  - intros l1 l2 xs ys H1 H2. split.
    + intros <-. unfold _compare. cbn [String.eqb Ascii.eqb Bool.eqb py_eq].
      destruct (l1 =? l2)%nat; [now split|].
      rewrite H1, H2, Nat.eqb_refl, all_eq_refl. now split.
    + intros Hlen. unfold _compare. cbn [String.eqb Ascii.eqb Bool.eqb py_eq].
      destruct (l1 =? l2)%nat eqn:E.
      * apply Nat.eqb_eq in E. subst l2. congruence.
      * rewrite H1, H2. apply Nat.eqb_neq in Hlen. rewrite Hlen. now split.
  - intros l1 l2 es Hok H1 H2. unfold _compare. cbn [String.eqb Ascii.eqb Bool.eqb py_eq].
    destruct (l1 =? l2)%nat; [now split|].
    rewrite H1, H2, Nat.eqb_refl, (entries_eq_sub d h es es Hok). now split.
Qed.

Definition two_arrays : list obj := [OList [VInt 1; VStr "x"]; OList [VInt 1; VStr "x"]].

(** The arrays [[1, 2]] and [[1, 3]], and an array around each. *)
Definition nested_arrays : list obj :=
  [OList [VInt 1; VInt 2]; OList [VInt 1; VInt 3]; OList [VList 0%nat]; OList [VList 1%nat]].

Lemma C4_comparisons_witness :
  (_compare 1 two_arrays (VInt 1) (VStr "a") "==" = Ok false
   /\ _compare 1 two_arrays (VInt 1) (VStr "a") "!=" = Ok true
   /\ forall op, op ∈ ordering_ops -> _compare 1 two_arrays (VInt 1) (VStr "a") op = Ok false)
  /\ (_compare 2 two_arrays (VList 0%nat) (VList 1%nat) "==" = Ok true
      /\ _compare 2 two_arrays (VList 0%nat) (VList 1%nat) "!=" = Ok false)
  /\ (exists r, _compare 2 nested_arrays (VList 2%nat) (VList 3%nat) "<" = Ok r)
  /\ ~ same nested_arrays (VList 0%nat) (VList 1%nat)
  /\ ~ same nested_arrays (VList 2%nat) (VList 3%nat).
Proof.
  pose proof (C4_comparisons_across_types 1 two_arrays) as (_ & _ & Hk & _ & Hl & _).
  pose proof (C4_comparisons_across_types 2 nested_arrays) as (_ & Hd & _ & Hs & _).
  split; [|split; [|split; [|split]]].
  - apply Hk. discriminate.
  - apply (Hl 0%nat 1%nat [VInt 1; VStr "x"] [VInt 1; VStr "x"]); reflexivity.
  - apply Hd. cbn. repeat constructor.
  - apply (Hs (VList 0%nat) (VList 1%nat)). reflexivity.
  - apply (Hs (VList 2%nat) (VList 3%nat)). reflexivity.
Defined.

(** Arrays and dicts compared by [==] and [!=] in a script. *)
Example compare_containers :
  let st := (run_fresh 8 (lines ["a = [1, 2]"; "b = [1, 3]"; "c = [[1, 2]]"; "d = [[1, 3]]";
                                 "e = {'k': 1}"; "f = {'k': 2}"; "g = {'j': 1}";
                                 "r1 = (a == b)"; "r2 = (a != b)"; "r3 = (c == d)";
                                 "r4 = (c == c)"; "r5 = (e == f)"; "r6 = (e == g)";
                                 "r7 = (a == [1, 2])"])).2 in
  env st !! "r1" = Some (VBool false) /\ env st !! "r2" = Some (VBool true)
  /\ env st !! "r3" = Some (VBool false) /\ env st !! "r4" = Some (VBool true)
  /\ env st !! "r5" = Some (VBool false) /\ env st !! "r6" = Some (VBool false)
  /\ env st !! "r7" = Some (VBool true).
Proof. vm_compute. repeat split. Qed.

(** C4 as stated fails: [1 != 'a'] evaluates to true. *)
Lemma C4_unequal_types_are_unequal :
  _compare 0 [] (VInt 1) (VStr "a") "!=" = Ok true
  /\ _eval 3 "1 != 'a'" initial = (Ok (VBool true), initial).
Proof. split; reflexivity. Qed.

(** ** Statement splitting *)

Lemma get_some_lt (s : string) (i : nat) (c : ascii) :
  get i s = Some c -> (i < len s)%nat.
Proof.
  revert i. unfold get, len.
  induction s as [|d s IH]; intros [|i] H; cbn in *; try discriminate; try lia.
  apply IH in H. lia.
Qed.

Lemma index_ge (n : nat) (s1 s2 : string) (j : nat) :
  String.index n s1 s2 = Some j -> (n <= j)%nat.
Proof.
  revert n j. induction s2 as [|d s2 IH]; intros [|n] j H; cbn in H; try lia;
    try discriminate.
  destruct (String.index n s1 s2) as [k|] eqn:E; [|discriminate].
  injection H as <-. apply IH in E. lia.
Qed.

(** The loop of [split_statements] advances at every iteration, so
    [len text - i + 1] iterations are enough. *)
Lemma split_loop_total (n : nat) (text : string) :
  forall (i : nat) parts cur depth in_q qchar,
    (len text - i < n)%nat ->
    exists ps, split_loop n text i parts cur depth in_q qchar = Ok ps.
Proof.
  induction n as [|n IH]; intros i parts cur depth in_q qchar Hn; [lia|].
  cbn [split_loop].
  destruct (get i text) as [c|] eqn:Hc; [|eauto].
  apply get_some_lt in Hc.
  assert (Hline : (i < match String.index i (String "010" EmptyString) text with
                       | Some j => S j
                       | None => len text
                       end)%nat).
  { destruct (String.index i _ text) as [j|] eqn:E; [apply index_ge in E|]; lia. }
  assert (Hblock : (i < match String.index (i + 2) "*/" text with
                        | Some j => (j + 2)%nat
                        | None => if (i + 2 <? len text - 1)%nat
                                  then (len text - 1)%nat else (i + 2)%nat
                        end)%nat).
  { destruct (String.index (i + 2) _ text) as [j|] eqn:E; [apply index_ge in E; lia|].
    destruct (i + 2 <? len text - 1)%nat eqn:E'; [apply Nat.ltb_lt in E'|]; lia. }
  repeat match goal with
         | |- context [if ?c then _ else _] => destruct c
         end;
    apply IH; lia.
Qed.

(** C6, as the code has it: [split_statements] returns a list of
    statements for every text.  A closing delimiter without an opener
    leaves the depth at zero and stays in the statement; a string or a
    block comment that is still open at the end of the input ends the
    scan without an error. *)
Theorem C6_split_statements_never_fails (text : string) :
  exists parts, split_statements text = Ok parts.
Proof.
  unfold split_statements.
  destruct (negb (nonempty (strip text))); [eauto|].
  apply split_loop_total. lia.
Qed.

(** C6 as stated fails: none of the three malformed inputs is refused. *)
Lemma C6_malformed_input_is_accepted :
  split_statements "x = 1 )" = Ok ["x = 1 )"]
  /\ split_statements "print(1) } ]" = Ok ["print(1) } ]"]
  /\ split_statements "var s = 'abc; x = 1" = Ok ["var s = 'abc; x = 1"]
  /\ split_statements "x = 1 /* abc" = Ok ["x = 1 c"].
Proof. repeat split; reflexivity. Qed.

(** ** String literals *)

(** The literal with content [content] between two quotes [q]. *)
Definition quoted (q : ascii) (content : string) : string :=
  String q (content +:+ String q EmptyString).

Lemma quote_not_space (q : ascii) : is_quote q = true -> is_space q = false.
Proof.
  unfold is_quote. intros H.
  apply orb_true_iff in H as [H|H]; [apply orb_true_iff in H as [H|H]|];
    apply Ascii.eqb_eq in H; subst q; reflexivity.
Qed.

Lemma rstrip_snoc (s : string) (c : ascii) :
  is_space c = false -> rstrip (s +:+ String c EmptyString) = s +:+ String c EmptyString.
Proof.
  intros Hc. induction s as [|d s IH]; rewrite ?app_nil, ?app_cons; cbn [rstrip].
  - now rewrite Hc.
  - rewrite IH. now destruct s.
Qed.

Lemma last_snoc (s : string) (c : ascii) : last (s +:+ String c EmptyString) = Some c.
Proof.
  induction s as [|d s IH]; [reflexivity|].
  rewrite app_cons. cbn [last]. rewrite IH. now destruct s.
Qed.

Lemma drop_last_snoc (s : string) (c : ascii) : drop_last (s +:+ String c EmptyString) = s.
Proof.
  induction s as [|d s IH]; [reflexivity|].
  rewrite app_cons. cbn [drop_last]. rewrite IH. now destruct s.
Qed.

Lemma len_snoc (s : string) (c : ascii) : len (s +:+ String c EmptyString) = S (len s).
Proof.
  unfold len. induction s as [|d s IH]; [reflexivity|].
  rewrite app_cons. cbn [String.length]. now rewrite IH.
Qed.

Lemma strip_quoted (q : ascii) (content : string) :
  is_quote q = true -> strip (quoted q content) = quoted q content.
Proof.
  intros Hq. apply quote_not_space in Hq as Hs.
  unfold strip, quoted. cbn [lstrip]. rewrite Hs, <- app_cons.
  now apply rstrip_snoc.
Qed.

Lemma unquote_quoted (q : ascii) (content : string) : _unquote (quoted q content) = content.
Proof. unfold _unquote, quoted. cbn [slice_from]. apply drop_last_snoc. Qed.

Lemma is_str_literal_quoted (q : ascii) (content : string) :
  is_quote q = true -> has_unescaped q content false = false ->
  _is_str_literal (quoted q content) = true.
Proof.
  intros Hq Hu. unfold _is_str_literal, quoted. cbv beta iota.
  change (String q (content +:+ String q EmptyString)) with (quoted q content).
  rewrite unquote_quoted, Hu, Hq. unfold quoted, endswith_char.
  rewrite <- app_cons, last_snoc, len_snoc, Ascii.eqb_refl. reflexivity.
Qed.

(** What [_eval] does with the content of a string literal: the
    interpolation, then the two escapes. *)
Definition literal_value (fuel : nat) (content : string) : M value :=
  raw <- interpolate fuel (_eval fuel) (segments content O) ;;
  ret (VStr (replace "\t" tab (replace "\n" nl raw))).

(** A literal in any of the three quotes is evaluated the same way, by
    replacing every [${expr}] of its content with the text of the value
    of [expr] and then substituting the escapes; the quote character
    plays no part in the result. *)
Lemma eval_quoted_literal (fuel : nat) (q : ascii) (content : string) (st : state) :
  is_quote q = true ->
  has_unescaped q content false = false ->
  _eval (S fuel) (quoted q content) st = literal_value fuel content st.
Proof.
  intros Hq Hu. cbn [_eval]. unfold _eval_body.
  rewrite (strip_quoted q content Hq), (is_str_literal_quoted q content Hq Hu).
  unfold quoted at 1. cbn [nonempty negb].
  unfold eval_str_literal. now rewrite unquote_quoted.
Qed.

Definition st_name : state := with_env (<["name" := VStr "World"]> ∅) initial.

(** C8: the interpolation is not kept to backtick literals, as the
    claim and the docstring of the module have it.  With [name] bound
    to [World], the literal [Hello ${name}!] evaluates to
    [Hello World!] in single quotes and in double quotes as it does in
    backticks, and not to its content with [${name}] left verbatim. *)
Lemma C8_plain_quotes_interpolate :
  _eval 4 "'Hello ${name}!'" st_name = (Ok (VStr "Hello World!"), st_name)
  /\ _eval 4 (quoted dq "Hello ${name}!") st_name = (Ok (VStr "Hello World!"), st_name)
  /\ _eval 4 "`Hello ${name}!`" st_name = (Ok (VStr "Hello World!"), st_name)
  /\ VStr "Hello World!" <> VStr "Hello ${name}!".
Proof. repeat split; try reflexivity. discriminate. Qed.

(** ** The frame across expressions and calls *)

(** A computation that leaves [self.env] as it found it, whatever its
    outcome. *)
Definition keeps_env {A} (m : M A) : Prop := forall st, env (m st).2 = env st.

Lemma keeps_ret {A} (a : A) : keeps_env (ret a).
Proof. now intros st. Qed.

Lemma keeps_raise {A} (e : exn) : keeps_env (@raise A e).
Proof. now intros st. Qed.

Lemma keeps_out_of_fuel {A} : keeps_env (@out_of_fuel A).
Proof. now intros st. Qed.

Lemma keeps_unmodelled {A} : keeps_env (@unmodelled A).
Proof. now intros st. Qed.

Lemma keeps_lift {A} (o : outcome A) : keeps_env (lift o).
Proof. now intros st. Qed.

Lemma keeps_lift_depth {A} (o : option A) : keeps_env (lift_depth o).
Proof. now destruct o; intros st. Qed.

Lemma keeps_bind {A B} (m : M A) (k : A -> M B) :
  keeps_env m -> (forall a, keeps_env (k a)) -> keeps_env (bind m k).
Proof.
  intros Hm Hk st. unfold bind. specialize (Hm st).
  destruct (m st) as [[a|e| |] st']; cbn in *; try exact Hm.
  now rewrite Hk.
Qed.

Lemma keeps_catch {A} (m : M A) (handler : exn -> M A) :
  keeps_env m -> (forall e, keeps_env (handler e)) -> keeps_env (catch m handler).
Proof.
  intros Hm Hh st. unfold catch. specialize (Hm st).
  destruct (m st) as [[a|e| |] st']; cbn in *; try exact Hm.
  now rewrite Hh.
Qed.

Lemma keeps_mapM {A B} (f : A -> M B) (l : list A) :
  (forall a, keeps_env (f a)) -> keeps_env (mapM f l).
Proof.
  intros Hf. induction l as [|x l IH]; cbn [mapM].
  - apply keeps_ret.
  - apply keeps_bind; [apply Hf|]. intros y.
    apply keeps_bind; [apply IH|]. intros ys. apply keeps_ret.
Qed.


Lemma keeps_get_state : keeps_env get_state.
Proof. now intros st. Qed.

Lemma keeps_get_env : keeps_env get_env.
Proof. now intros st. Qed.

Lemma keeps_get_heap : keeps_env get_heap.
Proof. now intros st. Qed.

Lemma keeps_emit (line : string) : keeps_env (emit line).
Proof. now intros st. Qed.

Lemma keeps_alloc (o : obj) : keeps_env (alloc o).
Proof. now intros st. Qed.

Lemma keeps_store (l : loc) (o : obj) : keeps_env (store l o).
Proof. now intros st. Qed.

(** [finally] puts the saved frame back. *)
Lemma finally_env_restores {A} (m : M A) (saved : gmap string value) (st : state) :
  env (finally_env m saved st).2 = saved.
Proof. unfold finally_env. now destruct (m st). Qed.

Create HintDb keeps.

#[local] Hint Resolve keeps_ret keeps_raise keeps_out_of_fuel keeps_unmodelled keeps_lift
  keeps_lift_depth keeps_get_state keeps_get_env keeps_get_heap keeps_emit keeps_alloc
  keeps_store : keeps.

(** One step of a proof of [keeps_env]: through a bind, a handler, a
    traversal, or a case distinction of the code. *)
Ltac keeps_step :=
  match goal with
  | |- keeps_env (bind _ _) => apply keeps_bind; [|intros]
  | |- keeps_env (catch _ _) => apply keeps_catch; [|intros]
  | |- keeps_env (mapM _ _) => apply keeps_mapM; intros
  | |- keeps_env (match ?x with _ => _ end) => destruct x
  | |- keeps_env _ => solve [auto with keeps]
  end.

Ltac keeps := repeat keeps_step.

Section KeepsBodies.

Variable depth : nat.
Variable eval : string -> M value.
Variable run_stmt : string -> M value.
Variable run_call : string -> list string -> M value.
Hypothesis eval_keeps : forall expr, keeps_env (eval expr).
Hypothesis run_call_keeps : forall name args, keeps_env (run_call name args).

#[local] Hint Resolve eval_keeps run_call_keeps : keeps.

Lemma keeps_truth (v : value) : keeps_env (truth v).
Proof. unfold truth. keeps. Qed.

Lemma keeps_to_str (v : value) : keeps_env (to_str depth v).
Proof. unfold to_str. keeps. Qed.

Lemma keeps_items_of (l : loc) : keeps_env (items_of l).
Proof. unfold items_of. keeps. Qed.

Lemma keeps_entries_of (l : loc) : keeps_env (entries_of l).
Proof. unfold entries_of. keeps. Qed.

Lemma keeps_new_list (xs : list value) : keeps_env (new_list xs).
Proof. unfold new_list. keeps. Qed.

Lemma keeps_new_dict (es : list (value * value)) : keeps_env (new_dict es).
Proof. unfold new_dict. keeps. Qed.

#[local] Hint Resolve keeps_truth keeps_to_str keeps_items_of keeps_entries_of
  keeps_new_list keeps_new_dict : keeps.

Lemma keeps_py_add (a b : value) : keeps_env (py_add a b).
Proof. unfold py_add. keeps. Qed.

Lemma keeps_py_sub (a b : value) : keeps_env (py_sub a b).
Proof. unfold py_sub. keeps. Qed.

Lemma keeps_py_mul (a b : value) : keeps_env (py_mul a b).
Proof. unfold py_mul. keeps. Qed.

Lemma keeps_py_floordiv (a b : value) : keeps_env (py_floordiv a b).
Proof. unfold py_floordiv. keeps. Qed.

Lemma keeps_py_mod (a b : value) : keeps_env (py_mod a b).
Proof. unfold py_mod. keeps. Qed.

Lemma keeps_py_truediv (a b : value) : keeps_env (py_truediv a b).
Proof. unfold py_truediv. keeps. Qed.

Lemma keeps_py_pow (a b : value) : keeps_env (py_pow a b).
Proof. unfold py_pow. keeps. Qed.

Lemma keeps_compare (a b : value) (op : string) : keeps_env (compare depth a b op).
Proof. unfold compare. keeps. Qed.

#[local] Hint Resolve keeps_py_add keeps_py_sub keeps_py_mul keeps_py_floordiv keeps_py_mod
  keeps_py_truediv keeps_py_pow keeps_compare : keeps.

Lemma keeps_interpolate (segs : list segment) : keeps_env (interpolate depth eval segs).
Proof. induction segs as [|[c|k] segs IH]; cbn [interpolate]; keeps. Qed.

Lemma keeps_dict_pairs (pairs : list string) (result : list (value * value)) :
  keeps_env (dict_pairs eval pairs result).
Proof.
  revert result. induction pairs as [|p pairs IH]; intros result; cbn [dict_pairs]; keeps.
Qed.

Lemma keeps_member (cur : value) (p : string) : keeps_env (member cur p).
Proof. unfold member. keeps. Qed.

#[local] Hint Resolve keeps_interpolate keeps_dict_pairs keeps_member : keeps.

Lemma keeps_walk_path (ps : list string) (cur : value) : keeps_env (walk_path cur ps).
Proof.
  revert cur. induction ps as [|p ps IH]; intros cur; cbn [walk_path]; keeps.
Qed.

Lemma keeps_walk_receiver (attrs : list string) (obj : value) :
  keeps_env (walk_receiver obj attrs).
Proof.
  revert obj. induction attrs as [|a attrs IH]; intros obj; cbn [walk_receiver]; keeps.
Qed.

Lemma keeps_eval_subscript_chain (expr : string) :
  keeps_env (_eval_subscript_chain eval expr).
Proof. unfold _eval_subscript_chain. keeps. Qed.

Lemma keeps_eval_dict (expr : string) : keeps_env (_eval_dict eval expr).
Proof. unfold _eval_dict. keeps. Qed.

Lemma keeps_try_call (expr : string) : keeps_env (try_call run_call expr).
Proof. unfold try_call. keeps. Qed.

#[local] Hint Resolve keeps_walk_path keeps_walk_receiver keeps_eval_subscript_chain
  keeps_eval_dict keeps_try_call : keeps.

Lemma keeps_eval_operators (expr : string) : keeps_env (eval_operators depth eval expr).
Proof. unfold eval_operators. keeps. Qed.

Lemma keeps_eval_body (expr : string) : keeps_env (_eval_body depth eval run_call expr).
Proof.
  unfold _eval_body, eval_str_literal. pose proof keeps_eval_operators. keeps.
Qed.

Lemma keeps_opt_arg (i : nat) (args : list string) (dflt : value) :
  keeps_env (opt_arg eval i args dflt).
Proof. unfold opt_arg. keeps. Qed.

Lemma keeps_arg0 (args : list string) : keeps_env (arg0 eval args).
Proof. unfold arg0. keeps. Qed.

Lemma keeps_to_int (v : value) : keeps_env (to_int v).
Proof. unfold to_int. keeps. Qed.

Lemma keeps_order (op : order_op) (a b : value) : keeps_env (order depth op a b).
Proof. unfold order. keeps. Qed.

Lemma keeps_iterate (v : value) : keeps_env (iterate v).
Proof. unfold iterate. keeps. Qed.

Lemma keeps_list_append (l : loc) (item : value) : keeps_env (list_append l item).
Proof. unfold list_append. keeps. Qed.

#[local] Hint Resolve keeps_opt_arg keeps_arg0 keeps_to_int keeps_order keeps_iterate
  keeps_list_append : keeps.

Lemma keeps_sum_values (xs : list value) (acc : Z) : keeps_env (sum_values acc xs).
Proof.
  revert acc. induction xs as [|x xs IH]; intros acc; cbn [sum_values]; keeps.
Qed.

Lemma keeps_extreme (op : order_op) (rest : list value) (cur : value) :
  keeps_env (extreme depth op cur rest).
Proof.
  revert cur. induction rest as [|x rest IH]; intros cur; cbn [extreme]; keeps.
Qed.

Lemma keeps_extreme_args (op : order_op) (args : list string) (cur : value) :
  keeps_env (extreme_args depth eval op cur args).
Proof.
  revert cur. induction args as [|a args IH]; intros cur; cbn [extreme_args]; keeps.
Qed.

#[local] Hint Resolve keeps_sum_values keeps_extreme keeps_extreme_args : keeps.

Lemma keeps_extreme_call (op : order_op) (args : list string) :
  keeps_env (extreme_call depth eval op args).
Proof. unfold extreme_call. keeps. Qed.

Lemma keeps_dotted_call (name : string) (args : list string) :
  keeps_env (dotted_call eval name args).
Proof. unfold dotted_call. keeps. Qed.

(** The body of a function may rebind anything: the frame is the
    caller's again because [finally] restores it. *)
Lemma keeps_call_user (fn : fn_def) (args : list string) :
  keeps_env (call_user eval run_stmt fn args).
Proof.
  intros st. unfold call_user, bind at 1.
  pose proof (keeps_mapM eval args eval_keeps st) as Hargs.
  destruct (mapM eval args st) as [[vs|e| |] st1]; cbn in Hargs; try exact Hargs.
  unfold bind, get_env, put_env. now rewrite finally_env_restores.
Qed.

Lemma keeps_user_or_unknown (name : string) (args : list string) :
  keeps_env (user_or_unknown eval run_stmt name args).
Proof.
  unfold user_or_unknown, unknown_call. pose proof keeps_call_user. keeps.
Qed.

#[local] Hint Resolve keeps_extreme_call keeps_dotted_call keeps_user_or_unknown : keeps.

Lemma keeps_run_call_body (name : string) (args : list string) :
  keeps_env (_run_call_body depth eval run_stmt name args).
Proof. unfold _run_call_body. keeps. Qed.

End KeepsBodies.

Lemma eval_and_call_keep_env (fuel : nat) :
  (forall expr, keeps_env (_eval fuel expr))
  /\ (forall name args, keeps_env (_run_call fuel name args)).
Proof.
  induction fuel as [|f [IHe IHc]].
  - split; intros; apply keeps_out_of_fuel.
  - split; intros.
    + exact (keeps_eval_body f (_eval f) (_run_call f) IHe IHc expr).
    + exact (keeps_run_call_body f (_eval f) (_run_stmt f) IHe name args).
Qed.

(** The script of [test_fn_scope_isolation]. *)
Definition shadowing_script : string :=
  lines ["var x = 100"; "fn foo(x) {"; "return x + 1"; "}"; "var r = foo(3)"].

(** C5: a call returns the frame it was given.  Whatever the outcome of
    [_run_call] (a value, an exception, a [return] inside the body), the
    bindings of [self.env] after it are those before it, and the same
    holds of every expression; with [x] bound to 100, [foo(3)] for
    [fn foo(x) { return x + 1 }] is 4 and [x] is still 100. *)
Theorem C5_call_restores_frame :
  (forall fuel name args st, env (_run_call fuel name args st).2 = env st)
  /\ (forall fuel expr st, env (_eval fuel expr st).2 = env st)
  /\ (let st := (run_fresh 8 shadowing_script).2 in
      env st !! "x" = Some (VInt 100) /\ env st !! "r" = Some (VInt 4)).
Proof.
  split; [|split].
  - intros fuel name args. apply (eval_and_call_keep_env fuel).
  - intros fuel expr. apply (eval_and_call_keep_env fuel).
  - split; reflexivity.
Qed.

(** ** In-place mutation across a call *)

(** Evaluation of the text-directed part of the interpreter on a
    concrete statement in an arbitrary state: everything is computed
    except the accesses to the state and the recursive calls. *)
Ltac run_text :=
  lazy -[lookup gmap_lookup list_lookup env heap functions output _eval _run_call _run_stmt
         insert list_insert map_insert partial_alter gmap_partial_alter app
         with_heap with_env with_output String.countable String.eq_dec].

Ltac run_text_lists :=
  lazy -[lookup gmap_lookup list_lookup env heap functions output _eval _run_call _run_stmt
         insert list_insert map_insert partial_alter gmap_partial_alter
         with_heap with_env with_output String.countable String.eq_dec].

Lemma list_append_in_place (st : state) (l : loc) (xs : list value) (v : value) :
  heap st !! l = Some (OList xs) ->
  list_append l v st = (Ok tt, with_heap (<[l := OList (xs ++ [v])]> (heap st)) st).
Proof.
  intros H. unfold list_append, items_of, bind, get_heap, store. now rewrite H.
Qed.

Lemma eval_literal_2 (fuel : nat) (st : state) : _eval (S fuel) "2" st = (Ok (VInt 2), st).
Proof. reflexivity. Qed.

Lemma eval_name_p (fuel : nat) (st : state) (v : value) :
  env st !! "p" = Some v -> _eval (S fuel) "p" st = (Ok v, st).
Proof. intros H. cbn [_eval]. run_text. now rewrite H. Qed.

Lemma eval_name_lst (fuel : nat) (st : state) (v : value) :
  env st !! "lst" = Some v -> _eval (S fuel) "lst" st = (Ok v, st).
Proof. intros H. cbn [_eval]. run_text. now rewrite H. Qed.

Section AppendThroughParameter.

Variables (st : state) (l : nat) (xs : list value).
Hypothesis p_bound : env st !! "p" = Some (VList l).
Hypothesis l_holds : heap st !! l = Some (OList xs).

Let st' : state := with_heap (<[l := OList (xs ++ [VInt 2])]> (heap st)) st.

Lemma builtin_append_call (fuel : nat) :
  _run_call (2 + fuel) "append" ["p"; "2"] st = (Ok (VList l), st').
Proof.
  cbn [_run_call Nat.add]. run_text.
  rewrite (eval_name_p _ _ _ p_bound). cbn [lookup list_lookup].
  rewrite eval_literal_2. cbv beta iota. now rewrite l_holds.
Qed.

Lemma builtin_append_expr (fuel : nat) :
  _eval (3 + fuel) "append(p, 2)" st = (Ok (VList l), st').
Proof.
  cbn [_eval Nat.add]. run_text.
  change (S (S fuel)) with (2 + fuel)%nat. now rewrite builtin_append_call.
Qed.

Lemma builtin_append_stmt (fuel : nat) :
  _run_stmt (4 + fuel) "append(p, 2)" st = (Ok (VList l), st').
Proof.
  cbn [_run_stmt Nat.add]. run_text.
  change (S (S (S fuel))) with (3 + fuel)%nat. now rewrite builtin_append_expr.
Qed.

End AppendThroughParameter.

Section AppendThroughGlobal.

Variables (st : state) (l : nat) (xs : list value).
Hypothesis lst_bound : env st !! "lst" = Some (VList l).
Hypothesis l_holds : heap st !! l = Some (OList xs).

Let st' : state := with_heap (<[l := OList (xs ++ [VInt 2])]> (heap st)) st.

Lemma method_append_dotted (fuel : nat) :
  dotted_call (_eval (S fuel)) "lst.append" ["2"] st = (Ok (Some (VList l)), st').
Proof.
  unfold dotted_call, bind at 1, get_env.
  change (split_char "." "lst.append") with ["lst"; "append"].
  cbv beta iota. rewrite lst_bound.
  run_text. cbn [lookup list_lookup].
  rewrite eval_literal_2. cbv beta iota. now rewrite l_holds.
Qed.

Lemma method_append_call (fuel : nat) :
  _run_call (2 + fuel) "lst.append" ["2"] st = (Ok (VList l), st').
Proof.
  cbn [_run_call Nat.add]. unfold _run_call_body.
  cbn [String.eqb Ascii.eqb Bool.eqb orb contains_char].
  unfold bind at 1. now rewrite method_append_dotted.
Qed.

Lemma method_append_expr (fuel : nat) :
  _eval (3 + fuel) "lst.append(2)" st = (Ok (VList l), st').
Proof.
  cbn [_eval Nat.add]. run_text.
  change (S (S fuel)) with (2 + fuel)%nat. now rewrite method_append_call.
Qed.

Lemma method_append_stmt (fuel : nat) :
  _run_stmt (4 + fuel) "lst.append(2)" st = (Ok (VList l), st').
Proof.
  cbn [_run_stmt Nat.add]. run_text.
  change (S (S (S fuel))) with (3 + fuel)%nat. now rewrite method_append_expr.
Qed.

End AppendThroughGlobal.

(** A function that appends to its parameter, and one that appends to a
    global through a method call. *)
Definition grow_param : fn_def := FnDef ["p"] "append(p, 2)".
Definition grow_global : fn_def := FnDef [] "lst.append(2)".

(** The state after the mutation: the same frame, functions and output,
    and one more item in the array at [l]. *)
Definition appended (l : nat) (xs : list value) (st : state) : state :=
  with_heap (<[l := OList (xs ++ [VInt 2])]> (heap st)) st.

Lemma appended_visible (l : nat) (xs : list value) (st : state) :
  heap st !! l = Some (OList xs) ->
  env (appended l xs st) = env st
  /\ heap (appended l xs st) !! l = Some (OList (xs ++ [VInt 2])).
Proof.
  intros H. split; [reflexivity|].
  unfold appended, with_heap. cbn [heap].
  apply list_lookup_insert_eq. now apply lookup_lt_Some in H.
Qed.

Lemma call_user_result (fuel : nat) (name : string) (fn : fn_def) (args : list string)
    (st st1 stb : state) (vs : list value) (rb : outcome value) :
  user_function name fn st ->
  mapM (_eval fuel) args st = (Ok vs, st1) ->
  run_fn_body (_run_stmt fuel) (body fn)
    (with_env (bind_params (params fn) vs (env st1)) st1) = (rb, stb) ->
  _run_call (S fuel) name args st = (rb, with_env (env st) stb).
Proof.
  intros Hu Hargs Hbody.
  rewrite (run_call_user _ _ _ _ _ Hu), (call_user_unfold _ _ _ _ _ _ _ Hargs).
  unfold finally_env. rewrite Hbody.
  pose proof (keeps_mapM (_eval fuel) args
                (fun a => proj1 (eval_and_call_keep_env fuel) a) st) as Hk.
  rewrite Hargs in Hk. cbn in Hk. now rewrite Hk.
Qed.

Lemma grow_param_call (fuel : nat) (st : state) (l : nat) (xs : list value) :
  env st !! "lst" = Some (VList l) ->
  heap st !! l = Some (OList xs) ->
  functions st !! "grow" = Some grow_param ->
  _run_call (6 + fuel) "grow" ["lst"] st = (Ok VNone, appended l xs st).
Proof.
  intros H1 H2 H3. cbn [Nat.add].
  apply (call_user_result _ "grow" grow_param ["lst"] st st
           (appended l xs (with_env (<["p" := VList l]> (env st)) st)) [VList l]).
  - split; [by_decision | split; [reflexivity | exact H3]].
  - cbn [mapM]. unfold bind. now rewrite (eval_name_lst _ _ _ H1).
  - unfold run_fn_body, _run_block. run_text_lists.
    change (S (S (S (S (S fuel))))) with (4 + S fuel)%nat.
    rewrite (builtin_append_stmt _ l xs).
    + reflexivity.
    + unfold with_env. cbn [env]. apply lookup_insert_eq.
    + exact H2.
Qed.

Lemma grow_global_call (fuel : nat) (st : state) (l : nat) (xs : list value) :
  env st !! "lst" = Some (VList l) ->
  heap st !! l = Some (OList xs) ->
  functions st !! "grow" = Some grow_global ->
  _run_call (6 + fuel) "grow" [] st = (Ok VNone, appended l xs st).
Proof.
  intros H1 H2 H3. cbn [Nat.add].
  apply (call_user_result _ "grow" grow_global [] st st (appended l xs st) []).
  - split; [by_decision | split; [reflexivity | exact H3]].
  - reflexivity.
  - unfold run_fn_body, _run_block. run_text_lists.
    change (S (S (S (S (S fuel))))) with (4 + S fuel)%nat.
    rewrite (method_append_stmt _ l xs).
    + destruct st; reflexivity.
    + exact H1.
    + exact H2.
Qed.

(** C9: the end of a call puts the frame back and nothing else.  The
    state after a call of a user-defined function is the state in which
    its body ended, with [self.env] reset: the heap is the one the body
    left.  So when [lst] names the array at [l], a call of
    [fn grow(p) { append(p, 2) }] on [lst], or of
    [fn grow() { lst.append(2) }], returns to the same bindings with the
    array at [l] one item longer. *)
Theorem C9_in_place_mutation_survives_call (fuel : nat) (st : state) :
  (forall name fn args st1 stb vs rb,
      user_function name fn st ->
      mapM (_eval fuel) args st = (Ok vs, st1) ->
      run_fn_body (_run_stmt fuel) (body fn)
        (with_env (bind_params (params fn) vs (env st1)) st1) = (rb, stb) ->
      _run_call (S fuel) name args st = (rb, with_env (env st) stb)
      /\ heap (with_env (env st) stb) = heap stb)
  /\ (forall l xs,
        env st !! "lst" = Some (VList l) ->
        heap st !! l = Some (OList xs) ->
        (functions st !! "grow" = Some grow_param ->
         _run_call (6 + fuel) "grow" ["lst"] st = (Ok VNone, appended l xs st))
        /\ (functions st !! "grow" = Some grow_global ->
            _run_call (6 + fuel) "grow" [] st = (Ok VNone, appended l xs st))
        /\ env (appended l xs st) = env st
        /\ heap (appended l xs st) !! l = Some (OList (xs ++ [VInt 2]))).
Proof.
  split.
  - intros name fn args st1 stb vs rb Hu Hargs Hbody.
    split; [now apply (call_user_result fuel name fn args st st1 stb vs rb) | reflexivity].
  - intros l xs H1 H2. split; [|split].
    + now apply grow_param_call.
    + now apply grow_global_call.
    + now apply appended_visible.
Qed.

Definition st_one_array : state :=
  State (<["lst" := VList 0%nat]> ∅) (<["grow" := grow_param]> ∅) [OList [VInt 1]] [].

Lemma C9_in_place_mutation_witness :
  _run_call 6 "grow" ["lst"] st_one_array = (Ok VNone, appended 0 [VInt 1] st_one_array)
  /\ env (appended 0 [VInt 1] st_one_array) = env st_one_array
  /\ heap (appended 0 [VInt 1] st_one_array) !! 0%nat = Some (OList ([VInt 1] ++ [VInt 2])).
Proof.
  pose proof (C9_in_place_mutation_survives_call 0 st_one_array) as [_ H].
  destruct (H 0%nat [VInt 1] eq_refl eq_refl) as (Hp & _ & He & Hh).
  split; [exact (Hp eq_refl) | split; [exact He | exact Hh]].
Defined.

(** ** The iteration guard *)

Lemma bind_ok {A B} (m : M A) (k : A -> M B) (st st1 : state) (a : A) :
  m st = (Ok a, st1) -> bind m k st = k a st1.
Proof. intros H. unfold bind. now rewrite H. Qed.

Lemma bind_ok_inv {A B} (m : M A) (k : A -> M B) (st st' : state) (b : B) :
  bind m k st = (Ok b, st') ->
  exists a st1, m st = (Ok a, st1) /\ k a st1 = (Ok b, st').
Proof.
  unfold bind. destruct (m st) as [[a|e| |] st1]; intros H; try discriminate. eauto.
Qed.

(** The state after the interpreter has printed [w]. *)
Definition warned (w : string) (st : state) : state :=
  with_output (output st ++ [Printed w]) st.

Lemma while_loop_eq (cond : M value) (body : M unit) (guard : nat) :
  while_loop cond body guard
  = (c <- cond ;; t <- truth c ;;
     if negb t then ret O
     else stop <- loop_signals body ;;
          if stop : bool then ret 1%nat
          else match guard with
               | S (S _ as g) => n <- while_loop cond body g ;; ret (S n)
               | _ => emit while_warning ;;; ret 1%nat
               end).
Proof. destruct guard as [|[|g]]; reflexivity. Qed.

Lemma for_loop_eq (cond : option (M value)) (body post : M unit) (guard : nat) :
  for_loop cond body post guard
  = (go <- match cond with
           | Some c => v <- c ;; truth v
           | None => ret true
           end ;;
     if negb go then ret O
     else stop <- loop_signals body ;;
          if stop : bool then ret 1%nat
          else post ;;;
               match guard with
               | S (S _ as g) => n <- for_loop cond body post g ;; ret (S n)
               | _ => emit for_warning ;;; ret 1%nat
               end).
Proof. destruct guard as [|[|g]]; reflexivity. Qed.

Lemma truth_ok (v : value) (st : state) : truth v st = (Ok (truthy (heap st) v), st).
Proof. reflexivity. Qed.

Lemma loop_signals_ok (body : M unit) (st st' : state) :
  body st = (Ok tt, st') -> loop_signals body st = (Ok false, st').
Proof. intros H. unfold loop_signals, catch, bind. now rewrite H. Qed.

(** *** The rounds of a loop *)

(** The test before a round: the condition, when the loop has one, is
    evaluated from [s] and leaves [s1], and its value is truthy or not
    as [b] says; a loop without a condition goes on. *)
Definition cond_is (cond : option (M value)) (b : bool) (s s1 : state) : Prop :=
  match cond with
  | Some c => exists v, c s = (Ok v, s1) /\ truthy (heap s1) v = b
  | None => s1 = s /\ b = true
  end.

(** The body of a round ends normally or by [continue]. *)
Definition body_ends (body : M unit) (s1 s2 : state) : Prop :=
  body s1 = (Ok tt, s2) \/ body s1 = (Raise ContinueSignal, s2).

(** [rounds cond body post k s s'] : from [s], [k] rounds in a row lead
    to [s']; in each the condition is found truthy, the body is run to
    its end, and the statement after the body is run. *)
Inductive rounds (cond : option (M value)) (body post : M unit) : nat -> state -> state -> Prop :=
| rounds_O s : rounds cond body post O s s
| rounds_S k s s1 s2 s3 s4 :
    cond_is cond true s s1 -> body_ends body s1 s2 -> post s2 = (Ok tt, s3) ->
    rounds cond body post k s3 s4 ->
    rounds cond body post (S k) s s4.

(** How a loop that has made [k] rounds and stands in [sk] comes to its
    end in [st']: the condition is found falsy, or the body breaks out,
    both before the limit is reached; or the [limit]-th round has just
    ended and the warning [w] is printed. *)
Definition loop_end (cond : option (M value)) (body : M unit) (w : string) (limit k : nat)
    (sk st' : state) : Prop :=
  ((k < limit)%nat /\ cond_is cond false sk st')
  \/ ((k < limit)%nat
      /\ exists s1, cond_is cond true sk s1 /\ body s1 = (Raise BreakSignal, st'))
  \/ (k = limit /\ st' = warned w sk).

Lemma loop_signals_inv (body : M unit) (s s' : state) (stop : bool) :
  loop_signals body s = (Ok stop, s') ->
  if stop then body s = (Raise BreakSignal, s') else body_ends body s s'.
Proof.
  unfold loop_signals, catch, bind, body_ends.
  destruct (body s) as [[[]|e| |] s1]; cbn; try discriminate.
  - intros H. injection H as <- <-. now left.
  - destruct e; cbn; try discriminate; intros H; injection H as <- <-; auto.
Qed.

Lemma loop_signals_ends (body : M unit) (s s' : state) :
  body_ends body s s' -> loop_signals body s = (Ok false, s').
Proof. unfold loop_signals, catch, bind. now intros [-> | ->]. Qed.

(** The test of the loop in terms of [cond_is]. *)
Definition loop_test (cond : option (M value)) : M bool :=
  match cond with
  | Some c => v <- c ;; truth v
  | None => ret true
  end.

Lemma loop_test_inv (cond : option (M value)) (s s1 : state) (b : bool) :
  loop_test cond s = (Ok b, s1) -> cond_is cond b s s1.
Proof.
  destruct cond as [c|]; cbn.
  - intros H. apply bind_ok_inv in H as (v & s2 & Hc & Ht).
    rewrite truth_ok in Ht. injection Ht as <- <-. eauto.
  - intros H. injection H as <- <-. now split.
Qed.

Lemma loop_test_ok (cond : option (M value)) (s s1 : state) (b : bool) :
  cond_is cond b s s1 -> loop_test cond s = (Ok b, s1).
Proof.
  destruct cond as [c|]; cbn.
  - intros (v & Hc & Ht). now rewrite (bind_ok _ _ _ _ _ Hc), truth_ok, Ht.
  - now intros [-> ->].
Qed.

Lemma while_loop_test (cond : M value) (body : M unit) (guard : nat) (st : state) :
  while_loop cond body guard st
  = (go <- loop_test (Some cond) ;;
     if negb go then ret O
     else stop <- loop_signals body ;;
          if stop : bool then ret 1%nat
          else match guard with
               | S (S _ as g) => n <- while_loop cond body g ;; ret (S n)
               | _ => emit while_warning ;;; ret 1%nat
               end) st.
Proof.
  rewrite while_loop_eq. unfold loop_test, bind.
  destruct (cond st) as [[v|e| |] s1]; reflexivity.
Qed.

Lemma ret_tt_inv (s s' : state) : ret tt s = (Ok tt, s') -> s' = s.
Proof. intros H. now injection H. Qed.

(** A loop that returns has made at most [guard] rounds, and ended in
    one of the three ways. *)
Lemma while_loop_trace (cond : M value) (body : M unit) (guard : nat) :
  forall st n st', while_loop cond body guard st = (Ok n, st') ->
    exists k sk, rounds (Some cond) body (ret tt) k st sk
                 /\ loop_end (Some cond) body while_warning (Nat.max 1 guard) k sk st'.
Proof.
  induction guard as [|g IH]; intros st n st' H; rewrite while_loop_test in H;
    apply bind_ok_inv in H as (go & s1 & Hgo & H); apply loop_test_inv in Hgo;
    (destruct go; cbn [negb] in H;
     [|injection H as _ <-; exists O, st; split; [constructor | left; split; [lia | exact Hgo]]]);
    apply bind_ok_inv in H as (stop & s2 & Hb & H); apply loop_signals_inv in Hb;
    (destruct stop;
     [injection H as _ <-; exists O, st; split;
      [constructor | right; left; split; [lia | eauto]]|]).
  - injection H as _ <-. exists 1%nat, s2. split.
    + econstructor; [exact Hgo | exact Hb | reflexivity | constructor].
    + right. right. now split.
  - destruct g as [|g'].
    + injection H as _ <-. exists 1%nat, s2. split.
      * econstructor; [exact Hgo | exact Hb | reflexivity | constructor].
      * right. right. now split.
    + apply bind_ok_inv in H as (n' & s3 & H & Hn). injection Hn as _ <-.
      apply IH in H as (k & sk & Hr & He). exists (S k), sk. split.
      * econstructor; [exact Hgo | exact Hb | reflexivity | exact Hr].
      * destruct He as [[Hk He] | [[Hk He] | [Hk He]]].
        -- left. split; [lia | exact He].
        -- right. left. split; [lia | exact He].
        -- right. right. split; [lia | exact He].
Qed.

Lemma for_loop_test (cond : option (M value)) (body post : M unit) (guard : nat) :
  for_loop cond body post guard
  = (go <- loop_test cond ;;
     if negb go then ret O
     else stop <- loop_signals body ;;
          if stop : bool then ret 1%nat
          else post ;;;
               match guard with
               | S (S _ as g) => n <- for_loop cond body post g ;; ret (S n)
               | _ => emit for_warning ;;; ret 1%nat
               end).
Proof. apply for_loop_eq. Qed.

Lemma for_loop_trace (cond : option (M value)) (body post : M unit) (guard : nat) :
  forall st n st', for_loop cond body post guard st = (Ok n, st') ->
    exists k sk, rounds cond body post k st sk
                 /\ loop_end cond body for_warning (Nat.max 1 guard) k sk st'.
Proof.
  induction guard as [|g IH]; intros st n st' H; rewrite for_loop_test in H;
    apply bind_ok_inv in H as (go & s1 & Hgo & H); apply loop_test_inv in Hgo;
    (destruct go; cbn [negb] in H;
     [|injection H as _ <-; exists O, st; split; [constructor | left; split; [lia | exact Hgo]]]);
    apply bind_ok_inv in H as (stop & s2 & Hb & H); apply loop_signals_inv in Hb;
    (destruct stop;
     [injection H as _ <-; exists O, st; split;
      [constructor | right; left; split; [lia | eauto]]|]);
    apply bind_ok_inv in H as ([] & s3 & Hp & H).
  - injection H as _ <-. exists 1%nat, s3. split.
    + econstructor; [exact Hgo | exact Hb | exact Hp | constructor].
    + right. right. now split.
  - destruct g as [|g'].
    + injection H as _ <-. exists 1%nat, s3. split.
      * econstructor; [exact Hgo | exact Hb | exact Hp | constructor].
      * right. right. now split.
    + apply bind_ok_inv in H as (n' & s4 & H & Hn). injection Hn as _ <-.
      apply IH in H as (k & sk & Hr & He). exists (S k), sk. split.
      * econstructor; [exact Hgo | exact Hb | exact Hp | exact Hr].
      * destruct He as [[Hk He] | [[Hk He] | [Hk He]]].
        -- left. split; [lia | exact He].
        -- right. left. split; [lia | exact He].
        -- right. right. split; [lia | exact He].
Qed.

(** A loop whose first [guard] rounds all go through prints its warning
    after the last of them and returns. *)
Lemma while_loop_exhausts (cond : M value) (body : M unit) (g : nat) :
  forall st sk, rounds (Some cond) body (ret tt) (S g) st sk ->
    while_loop cond body (S g) st = (Ok (S g), warned while_warning sk).
Proof.
  induction g as [|g IH]; intros st sk H; inversion H as [|k s s1 s2 s3 s4 Hc Hb Hp Hr];
    subst; rewrite while_loop_test;
    rewrite (bind_ok _ _ _ _ _ (loop_test_ok _ _ _ _ Hc)); cbn [negb];
    rewrite (bind_ok _ _ _ _ _ (loop_signals_ends _ _ _ Hb));
    apply ret_tt_inv in Hp; subst s3.
  - inversion Hr; subst. reflexivity.
  - now rewrite (bind_ok _ _ _ _ _ (IH _ _ Hr)).
Qed.

Lemma for_loop_exhausts (cond : option (M value)) (body post : M unit) (g : nat) :
  forall st sk, rounds cond body post (S g) st sk ->
    for_loop cond body post (S g) st = (Ok (S g), warned for_warning sk).
Proof.
  induction g as [|g IH]; intros st sk H; inversion H as [|k s s1 s2 s3 s4 Hc Hb Hp Hr];
    subst; rewrite for_loop_test;
    rewrite (bind_ok _ _ _ _ _ (loop_test_ok _ _ _ _ Hc)); cbn [negb];
    rewrite (bind_ok _ _ _ _ _ (loop_signals_ends _ _ _ Hb));
    rewrite (bind_ok _ _ _ _ _ Hp).
  - inversion Hr; subst. reflexivity.
  - now rewrite (bind_ok _ _ _ _ _ (IH _ _ Hr)).
Qed.

(** A loop whose condition is found falsy after [k] rounds, [k] below
    the limit, returns there, without the warning. *)
Lemma while_loop_stops (cond : M value) (body : M unit) (k : nat) :
  forall g st sk st', rounds (Some cond) body (ret tt) k st sk -> (k < S g)%nat ->
    cond_is (Some cond) false sk st' ->
    while_loop cond body (S g) st = (Ok k, st').
Proof.
  induction k as [|k IH]; intros g st sk st' H Hk Hc;
    inversion H as [|k' s s1 s2 s3 s4 Hc1 Hb Hp Hr]; subst; rewrite while_loop_test.
  - now rewrite (bind_ok _ _ _ _ _ (loop_test_ok _ _ _ _ Hc)).
  - rewrite (bind_ok _ _ _ _ _ (loop_test_ok _ _ _ _ Hc1)); cbn [negb].
    rewrite (bind_ok _ _ _ _ _ (loop_signals_ends _ _ _ Hb)).
    apply ret_tt_inv in Hp; subst s3.
    destruct g as [|g]; [lia|].
    now rewrite (bind_ok _ _ _ _ _ (IH g _ _ _ Hr ltac:(lia) Hc)).
Qed.

(** Rounds that keep an invariant, indexed by the number of the round,
    can be made as often as one likes. *)
Lemma rounds_invariant (Inv : nat -> state -> Prop) (cond : option (M value))
    (body post : M unit) :
  (forall k s, Inv k s ->
     exists s1 s2 s3, cond_is cond true s s1 /\ body s1 = (Ok tt, s2)
                      /\ post s2 = (Ok tt, s3) /\ Inv (S k) s3) ->
  forall n k s, Inv k s -> exists s', rounds cond body post n s s' /\ Inv (n + k)%nat s'.
Proof.
  intros Hround. induction n as [|n IH]; intros k s Hs.
  - exists s. split; [constructor | exact Hs].
  - destruct (Hround k s Hs) as (s1 & s2 & s3 & Hc & Hb & Hp & Hi).
    destruct (IH (S k) s3 Hi) as (s' & Hr & Hi').
    exists s'. split.
    + econstructor; [exact Hc | left; exact Hb | exact Hp | exact Hr].
    + now replace (S n + k)%nat with (n + S k)%nat by lia.
Qed.

Lemma guard_limit_value : Z.of_nat guard_limit = 1000000.
Proof. unfold guard_limit. now rewrite Z2Nat.id. Qed.

Lemma guard_limit_succ : guard_limit = S (Nat.pred guard_limit).
Proof.
  pose proof guard_limit_value as H. destruct guard_limit; [discriminate | reflexivity].
Qed.

(** The statements that [_run_stmt] hands to [_run_while] and to
    [_run_for]. *)
Definition is_while_stmt (s : string) : Prop :=
  strip s = s /\ match_fn s = None /\ starts_cond_keyword "if" s = false
  /\ starts_cond_keyword "while" s = true.

Definition is_for_stmt (s : string) : Prop :=
  strip s = s /\ match_fn s = None /\ starts_cond_keyword "if" s = false
  /\ starts_cond_keyword "while" s = false /\ starts_for_header s = true.

Lemma run_stmt_while (fuel : nat) (s : string) (st : state) :
  is_while_stmt s ->
  _run_stmt (S fuel) s st
  = (_run_while (_eval fuel) (_run_stmt fuel) s ;;; ret VNone) st.
Proof.
  intros (Hs & Hfn & Hif & Hw). cbn [_run_stmt]. unfold _run_stmt_body.
  now rewrite Hs, Hfn, Hif, Hw.
Qed.

Lemma run_stmt_for (fuel : nat) (s : string) (st : state) :
  is_for_stmt s ->
  _run_stmt (S fuel) s st
  = (_run_for fuel (_eval fuel) (_run_stmt fuel) s ;;; ret VNone) st.
Proof.
  intros (Hs & Hfn & Hif & Hw & Hfor). cbn [_run_stmt]. unfold _run_stmt_body.
  now rewrite Hs, Hfn, Hif, Hw, Hfor.
Qed.

Lemma lift_ok_inv {A} (o : outcome A) (st st' : state) (a : A) :
  lift o st = (Ok a, st') -> o = Ok a /\ st' = st.
Proof. unfold lift. intros H. now injection H as -> <-. Qed.

Lemma guard_limit_max : Nat.max 1 guard_limit = guard_limit.
Proof. rewrite guard_limit_succ. reflexivity. Qed.

Lemma loop_end_bound (cond : option (M value)) (body : M unit) (w : string) (k : nat)
    (sk st' : state) :
  loop_end cond body w guard_limit k sk st' -> Z.of_nat k <= 1000000.
Proof.
  pose proof guard_limit_value as Hg. intros [[Hk _] | [[Hk _] | [-> _]]]; lia.
Qed.

(** A [while] statement that returns: its rounds and its end. *)
Lemma run_while_trace (fuel : nat) (s : string) (st st' : state) (r : value) :
  is_while_stmt s ->
  _run_stmt (S fuel) s st = (Ok r, st') ->
  r = VNone
  /\ exists cond_text rest body_text rest',
      _extract_condition (lstrip (slice_from 5 s)) = Ok (cond_text, rest)
      /\ _extract_block (lstrip rest) = Ok (body_text, rest')
      /\ exists k sk,
          rounds (Some (_eval fuel cond_text)) (_run_block (_run_stmt fuel) body_text)
            (ret tt) k st sk
          /\ Z.of_nat k <= 1000000
          /\ loop_end (Some (_eval fuel cond_text)) (_run_block (_run_stmt fuel) body_text)
               while_warning guard_limit k sk st'.
Proof.
  intros Hs H. rewrite (run_stmt_while _ _ _ Hs) in H.
  apply bind_ok_inv in H as ([] & s1 & H & Hr). injection Hr as <- <-.
  split; [reflexivity|]. unfold _run_while in H.
  apply bind_ok_inv in H as (n & s2 & H & Hr). injection Hr as <-.
  unfold _run_while_counted in H.
  apply bind_ok_inv in H as ([cond_text rest] & s3 & Hc & H).
  apply lift_ok_inv in Hc as [Hc ->].
  apply bind_ok_inv in H as ([body_text rest'] & s4 & Hb & H).
  apply lift_ok_inv in Hb as [Hb ->]. cbn [fst snd] in *.
  exists cond_text, rest, body_text, rest'. split; [exact Hc | split; [exact Hb|]].
  apply while_loop_trace in H as (k & sk & Hr & He). rewrite guard_limit_max in He.
  exists k, sk. split; [exact Hr | split; [exact (loop_end_bound _ _ _ _ _ _ He) | exact He]].
Qed.

(** A C-style [for] statement that returns: its rounds and its end. *)
Lemma run_for_trace (fuel : nat) (s : string) (st st' : state) (r : value) :
  is_for_stmt s ->
  match_for_in (lstrip (slice_from 3 s)) = None ->
  _run_stmt (S fuel) s st = (Ok r, st') ->
  r = VNone
  /\ exists init_s cond_s post_s body_text st0,
      match_for_c (lstrip (slice_from 3 s)) = Some (init_s, cond_s, post_s)
      /\ first_block (lstrip (slice_from 3 s)) = Ok body_text
      /\ opt_stmt (_run_stmt fuel) (strip init_s) st = (Ok tt, st0)
      /\ exists k sk,
          rounds (opt_cond (_eval fuel) (strip cond_s)) (_run_block (_run_stmt fuel) body_text)
            (opt_stmt (_run_stmt fuel) (strip post_s)) k st0 sk
          /\ Z.of_nat k <= 1000000
          /\ loop_end (opt_cond (_eval fuel) (strip cond_s))
               (_run_block (_run_stmt fuel) body_text) for_warning guard_limit k sk st'.
Proof.
  intros Hs Hin H. rewrite (run_stmt_for _ _ _ Hs) in H.
  apply bind_ok_inv in H as ([] & s1 & H & Hr). injection Hr as <- <-.
  split; [reflexivity|]. unfold _run_for in H. rewrite Hin in H. unfold run_for_c in H.
  destruct (match_for_c (lstrip (slice_from 3 s))) as [[[init_s cond_s] post_s]|];
    cbn [fmap option_fmap option_map fst snd] in H; [|discriminate].
  apply bind_ok_inv in H as (n & s2 & H & Hr). injection Hr as <-.
  apply bind_ok_inv in H as (body_text & s3 & Hb & H).
  apply lift_ok_inv in Hb as [Hb ->]. unfold for_c_loop in H.
  apply bind_ok_inv in H as ([] & st0 & Hi & H).
  exists init_s, cond_s, post_s, body_text, st0.
  split; [reflexivity | split; [exact Hb | split; [exact Hi|]]].
  apply for_loop_trace in H as (k & sk & Hr & He). rewrite guard_limit_max in He.
  exists k, sk. split; [exact Hr | split; [exact (loop_end_bound _ _ _ _ _ _ He) | exact He]].
Qed.

(** C7: the guard of [_run_while] and of the C-style [for].  A loop
    statement that returns has made at most 1,000,000 rounds, each of
    them a test that found the condition truthy, a run of the body and
    (in a [for]) a run of the post statement, and has ended at a falsy
    condition, at a [break], or after the 1,000,000th round with the
    warning printed.  A loop whose condition is found truthy in
    1,000,000 rounds in a row makes exactly these rounds, prints its
    warning and returns: the statement completes with [None] in the
    state the last round left, with the warning added. *)
Theorem C7_iteration_guard (fuel : nat) :
  (forall s st r st',
      is_while_stmt s ->
      _run_stmt (S fuel) s st = (Ok r, st') ->
      r = VNone
      /\ exists cond_text rest body_text rest',
          _extract_condition (lstrip (slice_from 5 s)) = Ok (cond_text, rest)
          /\ _extract_block (lstrip rest) = Ok (body_text, rest')
          /\ exists k sk,
              rounds (Some (_eval fuel cond_text)) (_run_block (_run_stmt fuel) body_text)
                (ret tt) k st sk
              /\ Z.of_nat k <= 1000000
              /\ loop_end (Some (_eval fuel cond_text))
                   (_run_block (_run_stmt fuel) body_text) while_warning guard_limit k sk st')
  /\ (forall s st r st',
        is_for_stmt s ->
        match_for_in (lstrip (slice_from 3 s)) = None ->
        _run_stmt (S fuel) s st = (Ok r, st') ->
        r = VNone
        /\ exists init_s cond_s post_s body_text st0,
            match_for_c (lstrip (slice_from 3 s)) = Some (init_s, cond_s, post_s)
            /\ first_block (lstrip (slice_from 3 s)) = Ok body_text
            /\ opt_stmt (_run_stmt fuel) (strip init_s) st = (Ok tt, st0)
            /\ exists k sk,
                rounds (opt_cond (_eval fuel) (strip cond_s))
                  (_run_block (_run_stmt fuel) body_text)
                  (opt_stmt (_run_stmt fuel) (strip post_s)) k st0 sk
                /\ Z.of_nat k <= 1000000
                /\ loop_end (opt_cond (_eval fuel) (strip cond_s))
                     (_run_block (_run_stmt fuel) body_text) for_warning guard_limit k sk st')
  /\ (forall s cond_text rest body_text rest' st sk,
        is_while_stmt s ->
        _extract_condition (lstrip (slice_from 5 s)) = Ok (cond_text, rest) ->
        _extract_block (lstrip rest) = Ok (body_text, rest') ->
        rounds (Some (_eval fuel cond_text)) (_run_block (_run_stmt fuel) body_text)
          (ret tt) guard_limit st sk ->
        _run_stmt (S fuel) s st = (Ok VNone, warned while_warning sk))
  /\ (forall s init_s cond_s post_s body_text st st0 sk,
        is_for_stmt s ->
        match_for_in (lstrip (slice_from 3 s)) = None ->
        match_for_c (lstrip (slice_from 3 s)) = Some (init_s, cond_s, post_s) ->
        first_block (lstrip (slice_from 3 s)) = Ok body_text ->
        opt_stmt (_run_stmt fuel) (strip init_s) st = (Ok tt, st0) ->
        rounds (opt_cond (_eval fuel) (strip cond_s)) (_run_block (_run_stmt fuel) body_text)
          (opt_stmt (_run_stmt fuel) (strip post_s)) guard_limit st0 sk ->
        _run_stmt (S fuel) s st = (Ok VNone, warned for_warning sk))
  /\ Z.of_nat guard_limit = 1000000.
Proof.
  split; [|split; [|split; [|split]]]; [| | | | exact guard_limit_value].
  - intros s st r st'. apply run_while_trace.
  - intros s st r st'. apply run_for_trace.
  - intros s cond_text rest body_text rest' st sk Hs Hcond Hblock Hr.
    rewrite guard_limit_succ in Hr. apply while_loop_exhausts in Hr.
    rewrite <- guard_limit_succ in Hr.
    rewrite (run_stmt_while _ _ _ Hs). unfold _run_while, _run_while_counted.
    unfold bind at 1. unfold bind at 1. unfold bind at 1. unfold lift at 1.
    rewrite Hcond. cbn [fst snd]. unfold bind at 1. unfold lift at 1.
    rewrite Hblock. cbn [fst snd]. now rewrite Hr.
  - intros s init_s cond_s post_s body_text st st0 sk Hs Hin Hc Hblock Hinit Hr.
    rewrite guard_limit_succ in Hr. apply for_loop_exhausts in Hr.
    rewrite <- guard_limit_succ in Hr.
    rewrite (run_stmt_for _ _ _ Hs). unfold _run_for. rewrite Hin.
    unfold run_for_c. rewrite Hc. cbn [fmap option_fmap option_map fst snd].
    unfold bind at 1. unfold bind at 1. unfold bind at 1. unfold lift at 1.
    rewrite Hblock. unfold for_c_loop. rewrite (bind_ok _ _ _ _ _ Hinit).
    now rewrite Hr.
Qed.

(** The state in which [x] is [n] and nothing else is bound. *)
Definition st_x (n : Z) : state := with_env (<["x" := VInt n]> ∅) initial.

Lemma eval_x_positive (n : Z) :
  _eval 4 "x > 0" (st_x n) = (Ok (VBool (0 <? n)), st_x n).
Proof. now destruct n. Qed.

Lemma run_block_x_next (n : Z) :
  _run_block (_run_stmt 4) " x = x + 1 " (st_x n) = (Ok tt, st_x (n + 1)).
Proof. vm_compute. reflexivity. Qed.

Lemma opt_stmt_x_next (n : Z) :
  opt_stmt (_run_stmt 4) "x = x + 1" (st_x n) = (Ok tt, st_x (n + 1)).
Proof. vm_compute. reflexivity. Qed.

(** The state of a loop that counts in [x] from 1, after [k] rounds of
    [step] each. *)
Definition counted (step : Z) (k : nat) (s : state) : Prop :=
  s = st_x (1 + step * Z.of_nat k).

Lemma counting_while_round (k : nat) (s : state) :
  counted 1 k s ->
  exists s1 s2 s3,
    cond_is (Some (_eval 4 "x > 0")) true s s1
    /\ _run_block (_run_stmt 4) " x = x + 1 " s1 = (Ok tt, s2)
    /\ ret tt s2 = (Ok tt, s3) /\ counted 1 (S k) s3.
Proof.
  intros ->.
  exists (st_x (1 + 1 * Z.of_nat k)), (st_x (1 + 1 * Z.of_nat k + 1)),
    (st_x (1 + 1 * Z.of_nat k + 1)).
  split; [|split; [|split]].
  - exists (VBool (0 <? 1 + 1 * Z.of_nat k)). split.
    + apply eval_x_positive.
    + cbn [truthy]. apply Z.ltb_lt. lia.
  - apply run_block_x_next.
  - reflexivity.
  - unfold counted. f_equal. lia.
Qed.

Lemma counting_for_round (k : nat) (s : state) :
  counted 2 k s ->
  exists s1 s2 s3,
    cond_is (opt_cond (_eval 4) "x > 0") true s s1
    /\ _run_block (_run_stmt 4) " x = x + 1 " s1 = (Ok tt, s2)
    /\ opt_stmt (_run_stmt 4) "x = x + 1" s2 = (Ok tt, s3) /\ counted 2 (S k) s3.
Proof.
  intros ->.
  exists (st_x (1 + 2 * Z.of_nat k)), (st_x (1 + 2 * Z.of_nat k + 1)),
    (st_x (1 + 2 * Z.of_nat k + 1 + 1)).
  split; [|split; [|split]].
  - exists (VBool (0 <? 1 + 2 * Z.of_nat k)). split.
    + apply eval_x_positive.
    + cbn [truthy]. apply Z.ltb_lt. lia.
  - apply run_block_x_next.
  - apply opt_stmt_x_next.
  - unfold counted. f_equal. lia.
Qed.

Lemma C7_iteration_guard_witness :
  split_statements "while x > 0 { x = x + 1 }" = Ok ["while x > 0 { x = x + 1 }"]
  /\ split_statements "for x = 1; x > 0; x = x + 1 { x = x + 1 }"
     = Ok ["for x = 1; x > 0; x = x + 1 { x = x + 1 }"]
  /\ _run_stmt 5 "while x > 0 { x = x + 1 }" (st_x 1)
     = (Ok VNone, warned while_warning (st_x 1000001))
  /\ _run_stmt 5 "for x = 1; x > 0; x = x + 1 { x = x + 1 }" initial
     = (Ok VNone, warned for_warning (st_x 2000001)).
Proof.
  destruct (C7_iteration_guard 4) as (_ & _ & Hwhile & Hfor & Hlimit).
  split; [reflexivity | split; [reflexivity|]]. split.
  - destruct (rounds_invariant (counted 1) _ _ _ counting_while_round guard_limit O (st_x 1))
      as (sk & Hr & Hk); [reflexivity|].
    unfold counted in Hk. rewrite Nat.add_0_r, Hlimit in Hk. subst sk.
    apply (Hwhile "while x > 0 { x = x + 1 }" "x > 0" "{ x = x + 1 }" " x = x + 1 " "").
    + repeat split.
    + reflexivity.
    + reflexivity.
    + exact Hr.
  - destruct (rounds_invariant (counted 2) _ _ _ counting_for_round guard_limit O (st_x 1))
      as (sk & Hr & Hk); [reflexivity|].
    unfold counted in Hk. rewrite Nat.add_0_r, Hlimit in Hk. subst sk.
    apply (Hfor "for x = 1; x > 0; x = x + 1 { x = x + 1 }" "x = 1" " x > 0" " x = x + 1 "
             " x = x + 1 " initial (st_x 1)).
    + repeat split.
    + reflexivity.
    + reflexivity.
    + reflexivity.
    + reflexivity.
    + exact Hr.
Defined.

(** ** Statements that begin with a name *)

(** A name of the pattern [[a-zA-Z_][a-zA-Z0-9_]*]. *)
Definition plain_name (name : string) : bool :=
  match name with
  | String c _ => is_alpha_ c && all_chars is_word name
  | EmptyString => false
  end.

(** The words [_run_stmt] looks for before it tries an assignment. *)
Definition statement_keywords : list string :=
  ["fn"; "if"; "while"; "for"; "return"; "var"; "let"].

(** A name a script can assign to: a plain name that does not send the
    statement to another branch of [_run_stmt]. *)
Definition variable_name (name : string) : Prop :=
  plain_name name = true /\ (name ∉ statement_keywords)
  /\ startswith "undeploy" name = false.

(** Non-empty white space. *)
Definition blank (ws : string) : bool := nonempty ws && all_chars is_space ws.

Lemma alpha_is_word (c : ascii) : is_alpha_ c = true -> is_word c = true.
Proof. unfold is_word. now intros ->. Qed.

Lemma word_not_space (c : ascii) : is_word c = true -> is_space c = false.
Proof. destruct c as [[] [] [] [] [] [] [] []]; vm_compute; congruence. Qed.

Lemma word_not_char (c d : ascii) : is_word c = true -> is_word d = false -> Ascii.eqb d c = false.
Proof.
  intros Hc Hd. destruct (Ascii.eqb_spec d c) as [->|]; [congruence | reflexivity].
Qed.

Lemma app_assoc_str (a b c : string) : (a +:+ b) +:+ c = a +:+ (b +:+ c).
Proof. induction a as [|x a IH]; [reflexivity|]. now rewrite !app_cons, IH. Qed.

Lemma all_chars_app (p : ascii -> bool) (a b : string) :
  all_chars p (a +:+ b) = all_chars p a && all_chars p b.
Proof.
  induction a as [|x a IH]; [reflexivity|].
  rewrite app_cons. cbn [all_chars]. now rewrite IH, andb_assoc.
Qed.

Lemma span_app (p : ascii -> bool) (a : string) (c : ascii) (t : string) :
  all_chars p a = true -> p c = false -> span p (a +:+ String c t) = (a, String c t).
Proof.
  intros Ha Hc. induction a as [|x a IH].
  - rewrite app_nil. cbn [span]. now rewrite Hc.
  - rewrite app_cons. cbn [all_chars] in Ha. apply andb_true_iff in Ha as [Hx Ha].
    cbn [span]. now rewrite Hx, (IH Ha).
Qed.

Lemma lstrip_app (ws : string) (c : ascii) (t : string) :
  all_chars is_space ws = true -> is_space c = false ->
  lstrip (ws +:+ String c t) = String c t.
Proof.
  intros Hw Hc. induction ws as [|x ws IH].
  - rewrite app_nil. cbn [lstrip]. now rewrite Hc.
  - rewrite app_cons. cbn [all_chars] in Hw. apply andb_true_iff in Hw as [Hx Hw].
    cbn [lstrip]. now rewrite Hx, (IH Hw).
Qed.

Lemma rstrip_cons (c : ascii) (s : string) :
  is_space c = false -> rstrip (String c s) = String c (rstrip s).
Proof. intros Hc. cbn [rstrip]. destruct (rstrip s); now rewrite ?Hc. Qed.

Lemma rstrip_app_fixed (a b : string) :
  nonempty b = true -> rstrip b = b -> rstrip (a +:+ b) = a +:+ b.
Proof.
  intros Hb Hr. induction a as [|x a IH]; [now rewrite app_nil|].
  rewrite app_cons. cbn [rstrip]. rewrite IH.
  destruct (a +:+ b) eqn:E; [|reflexivity].
  destruct a, b; discriminate.
Qed.


Lemma prefix_split (p s : string) :
  String.prefix p s = true -> s = p +:+ slice_from (len p) s.
Proof.
  revert s. induction p as [|x p IH]; intros s H; [now rewrite app_nil|].
  destruct s as [|y s]; [discriminate|]. cbn [String.prefix] in H.
  destruct (ascii_dec x y) as [->|]; [|discriminate].
  rewrite app_cons. unfold len. cbn [String.length slice_from]. f_equal. now apply IH.
Qed.

Lemma slice_from_app (a b : string) : slice_from (len a) (a +:+ b) = b.
Proof.
  induction a as [|x a IH]; [now destruct b|].
  rewrite app_cons. unfold len. cbn [String.length slice_from]. exact IH.
Qed.

(** A keyword at the start of [name ++ tail], when [tail] begins with a
    character that is not a word character, is at the start of [name]. *)
Lemma keyword_prefix (kw name : string) (c : ascii) (t : string) :
  all_chars is_word kw = true -> is_word c = false ->
  String.prefix kw (name +:+ String c t) = true -> String.prefix kw name = true.
Proof.
  intros Hkw Hc. revert name.
  induction kw as [|k kw IH]; intros name H; [now destruct name|].
  cbn [all_chars] in Hkw. apply andb_true_iff in Hkw as [Hk Hkw].
  destruct name as [|n name].
  - rewrite app_nil in H. cbn [String.prefix] in H.
    destruct (ascii_dec k c) as [->|]; [congruence | discriminate].
  - rewrite app_cons in H. cbn [String.prefix] in *.
    destruct (ascii_dec k n); [now apply IH | discriminate].
Qed.

(** After a keyword that is a proper prefix of [name], the text goes on
    with a word character. *)
Lemma keyword_next (kw name : string) (c : ascii) (t : string) :
  all_chars is_word kw = true -> all_chars is_word name = true ->
  is_word c = false -> name <> kw ->
  String.prefix kw (name +:+ String c t) = true ->
  exists c1 r, slice_from (len kw) (name +:+ String c t) = String c1 r /\ is_word c1 = true.
Proof.
  intros Hkw Hname Hc Hne H.
  apply (keyword_prefix kw name c t Hkw Hc) in H. apply prefix_split in H.
  destruct (slice_from (len kw) name) as [|c1 r1] eqn:E.
  - exfalso. apply Hne. rewrite H. clear. induction kw as [|k kw IH]; [reflexivity|].
    now rewrite app_cons, IH.
  - exists c1, (r1 +:+ String c t). rewrite H at 1. rewrite app_assoc_str, slice_from_app.
    split; [now rewrite app_cons|].
    rewrite H, all_chars_app in Hname. apply andb_true_iff in Hname as [_ Hr].
    cbn [all_chars] in Hr. now apply andb_true_iff in Hr as [Hr _].
Qed.

Section NameFirst.

(** A statement text that begins with an assignable name followed by a
    character [c] that cannot continue the name. *)
Variables (name : string) (c : ascii) (t : string).
Hypothesis name_ok : variable_name name.
Hypothesis c_not_word : is_word c = false.

Let s : string := name +:+ String c t.

Lemma name_all_word : all_chars is_word name = true.
Proof.
  destruct name_ok as (Hp & _). unfold plain_name in Hp.
  destruct name; [discriminate|]. now apply andb_true_iff in Hp as [_ Hp].
Qed.

Lemma name_not_keyword (kw : string) : kw ∈ statement_keywords -> name <> kw.
Proof. destruct name_ok as (_ & Hk & _). now intros Hin ->. Qed.

Lemma after_keyword (kw : string) :
  kw ∈ statement_keywords ->
  startswith kw s = true ->
  exists c1 r, slice_from (len kw) s = String c1 r /\ is_word c1 = true.
Proof.
  intros Hin H. apply keyword_next; try assumption.
  - unfold statement_keywords in Hin.
    repeat (apply elem_of_cons in Hin as [->|Hin]; [reflexivity|]).
    now apply elem_of_nil in Hin.
  - exact name_all_word.
  - now apply name_not_keyword.
Qed.

Ltac keyword kw H :=
  let c1 := fresh "c1" in
  let r := fresh "r" in
  let E := fresh "E" in
  let W := fresh "W" in
  destruct (after_keyword kw ltac:(by_decision) H) as (c1 & r & E & W);
  cbn [len String.length] in E; rewrite E;
  pose proof (word_not_space c1 W).

Lemma not_fn : match_fn s = None.
Proof.
  unfold match_fn. destruct (startswith "fn" s) eqn:H; [|reflexivity].
  keyword "fn" H. cbn [span]. now rewrite H0.
Qed.

Lemma not_cond_keyword (kw : string) :
  kw ∈ statement_keywords -> starts_cond_keyword kw s = false.
Proof.
  intros Hin. unfold starts_cond_keyword.
  destruct (startswith kw s) eqn:H; [|reflexivity].
  destruct (after_keyword kw Hin H) as (c1 & r & E & W). rewrite E.
  pose proof (word_not_space c1 W) as Hs. cbn [lstrip andb]. rewrite Hs.
  cbn [startswith_char]. now rewrite (word_not_char c1 "(" W eq_refl).
Qed.

Lemma not_for : starts_for_header s = false.
Proof.
  unfold starts_for_header. destruct (startswith "for" s) eqn:H; [|reflexivity].
  now keyword "for" H.
Qed.

Lemma not_return : starts_return s = false.
Proof.
  unfold starts_return. destruct (startswith "return" s) eqn:H; [|reflexivity].
  keyword "return" H. now rewrite W.
Qed.

Lemma not_decl : starts_decl s = false.
Proof.
  unfold starts_decl.
  destruct (startswith "var" s) eqn:Hv; [now keyword "var" Hv|].
  destruct (startswith "let" s) eqn:Hl; [now keyword "let" Hl | reflexivity].
Qed.

Lemma not_undeploy : startswith "undeploy" s = false.
Proof.
  destruct name_ok as (_ & _ & Hu).
  destruct (startswith "undeploy" s) eqn:H; [|reflexivity].
  apply keyword_prefix in H; [|reflexivity | exact c_not_word].
  unfold startswith in Hu. congruence.
Qed.

Lemma ident_name : ident s = Some (name, String c t).
Proof.
  pose proof name_all_word as Hw. destruct name_ok as (Hp & _).
  unfold plain_name in Hp. unfold s. destruct name as [|n0 name']; [discriminate|].
  apply andb_true_iff in Hp as [Ha _]. rewrite app_cons. unfold ident. rewrite Ha.
  rewrite <- app_cons. now rewrite (span_app is_word _ c t Hw c_not_word).
Qed.

Lemma lstrip_name : lstrip s = s.
Proof.
  destruct name_ok as (Hp & _). unfold plain_name in Hp. unfold s.
  destruct name as [|n0 name']; [discriminate|].
  apply andb_true_iff in Hp as [Ha _]. rewrite app_cons. cbn [lstrip].
  now rewrite (word_not_space n0 (alpha_is_word n0 Ha)).
Qed.

(** Up to the assignment patterns, [_run_stmt] passes such a statement
    by. *)
Lemma run_stmt_name_first (fuel : nat) (st : state) :
  strip s = s ->
  _run_stmt (S fuel) s st
  = match match_compound s with
    | Some (n, op, rhs) =>
        e <- get_env ;;
        rval <- _eval fuel (strip rhs) ;;
        new <- compound op (default (VInt 0) (e !! n)) rval ;;
        assign n new ;;; ret new
    | None =>
        match (match match_assign s with
               | Some (n, expr) =>
                   if negb (startswith (n +:+ "==") (lstrip s)) then Some (n, expr) else None
               | None => None
               end) with
        | Some (n, expr) => val <- _eval fuel (strip expr) ;; assign n val ;;; ret val
        | None => _eval fuel s
        end
    end st.
Proof.
  intros Hs. cbn [_run_stmt]. unfold _run_stmt_body. rewrite Hs, not_fn.
  rewrite (not_cond_keyword "if") by by_decision.
  rewrite (not_cond_keyword "while") by by_decision.
  now rewrite not_for, not_return, not_decl, not_undeploy.
Qed.

End NameFirst.

Lemma space_not_word (c : ascii) : is_space c = true -> is_word c = false.
Proof.
  intros H. destruct (is_word c) eqn:E; [|reflexivity].
  apply word_not_space in E. congruence.
Qed.








(** * Further properties of the splitter, the scanners and the evaluator *)

(** * Further properties *)

(** ** White space *)

Lemma rstrip_idem (s : string) : rstrip (rstrip s) = rstrip s.
Proof.
  induction s as [|c s IH]; [reflexivity|].
  cbn [rstrip]. destruct (rstrip s) as [|d r] eqn:E.
  - destruct (is_space c) eqn:Hc; [reflexivity|]. cbn [rstrip]. now rewrite Hc.
  - cbn [rstrip] in *. now rewrite IH.
Qed.

Lemma lstrip_head (s : string) :
  match lstrip s with String c _ => is_space c = false | EmptyString => True end.
Proof.
  induction s as [|c s IH]; [exact I|].
  cbn [lstrip]. destruct (is_space c) eqn:E; [exact IH | exact E].
Qed.

Lemma strip_idem (s : string) : strip (strip s) = strip s.
Proof.
  unfold strip. pose proof (lstrip_head s) as H.
  destruct (lstrip s) as [|c t]; [reflexivity|].
  rewrite rstrip_cons by exact H. cbn [lstrip]. rewrite H.
  rewrite rstrip_cons by exact H. now rewrite rstrip_idem.
Qed.

(** A statement or argument as the splitters deliver it: not empty and
    with no white space at either end. *)
Definition trimmed (p : string) : Prop := nonempty p = true /\ strip p = p.

Lemma flush_trimmed (parts : list string) (cur : string) :
  Forall trimmed parts -> Forall trimmed (flush parts cur).
Proof.
  intros H. unfold flush. destruct (nonempty (strip cur)) eqn:E; [|exact H].
  apply Forall_app. split; [exact H|].
  apply Forall_cons. split; [|apply Forall_nil_2]. split; [exact E | apply strip_idem].
Qed.

Lemma split_loop_trimmed (n : nat) (text : string) :
  forall i parts cur depth in_q qchar ps,
    Forall trimmed parts ->
    split_loop n text i parts cur depth in_q qchar = Ok ps -> Forall trimmed ps.
Proof.
  induction n as [|n IH]; intros i parts cur depth in_q qchar ps Hp; [discriminate|].
  cbn [split_loop].
  destruct (get i text) as [c|]; [|intros [= <-]; now apply flush_trimmed].
  pose proof (flush_trimmed parts cur Hp) as Hf. unfold flush in Hf.
  repeat match goal with
         | |- context [if ?c then _ else _] => destruct c
         end;
    apply IH; assumption || now apply flush_trimmed.
Qed.

(** X1: [split_statements] returns a list for every text, and no
    statement in it is empty or carries white space at either end. *)
Theorem split_statements_trimmed (text : string) :
  exists parts, split_statements text = Ok parts /\ Forall trimmed parts.
Proof.
  unfold split_statements.
  destruct (negb (nonempty (strip text))); [exists []; split; [reflexivity | apply Forall_nil_2]|].
  destruct (split_loop_total (S (len text)) text O [] EmptyString 0 false None) as [ps H]; [lia|].
  exists ps. split; [exact H|].
  eapply split_loop_trimmed; [|exact H]. apply Forall_nil_2.
Qed.

Lemma comma_loop_trimmed (s : string) :
  forall prev parts cur depth in_q qchar,
    Forall trimmed parts -> Forall trimmed (comma_loop s prev parts cur depth in_q qchar).
Proof.
  induction s as [|c s IH]; intros prev parts cur depth in_q qchar Hp; cbn [comma_loop].
  - destruct (nonempty cur); [now apply flush_trimmed | exact Hp].
  - repeat match goal with
           | |- context [if ?c then _ else _] => destruct c
           end;
      apply IH; assumption || now apply flush_trimmed.
Qed.

(** X2: no argument [_split_by_comma] returns is empty or carries
    white space at either end: an empty argument, as between two commas,
    is dropped. *)
Theorem split_by_comma_trimmed (s : string) : Forall trimmed (_split_by_comma s).
Proof. apply comma_loop_trimmed, Forall_nil_2. Qed.

(** ** Round trips through the splitters *)

Lemma len_app (a b : string) : len (a +:+ b) = (len a + len b)%nat.
Proof.
  unfold len. induction a as [|x a IH]; [reflexivity|].
  rewrite app_cons. cbn [String.length]. now rewrite IH.
Qed.

Lemma get_app_len (pre : string) (c : ascii) (t : string) :
  get (len pre) (pre +:+ String c t) = Some c.
Proof. unfold get, len. induction pre as [|x pre IH]; [reflexivity | exact IH]. Qed.

Lemma get_len (s : string) : get (len s) s = None.
Proof. unfold get, len. induction s as [|x s IH]; [reflexivity | exact IH]. Qed.

Lemma app_nil_r (s : string) : s +:+ EmptyString = s.
Proof. induction s as [|x s IH]; [reflexivity|]. now rewrite app_cons, IH. Qed.

Lemma snoc_app (pre : string) (c : ascii) (t : string) :
  snoc pre c +:+ t = pre +:+ String c t.
Proof. unfold snoc. now rewrite app_assoc_str. Qed.

Lemma len_snoc' (pre : string) (c : ascii) : len (snoc pre c) = S (len pre).
Proof. apply len_snoc. Qed.

(** Text whose brackets are balanced and whose quotes are closed, as a
    scanner sees it that starts at bracket depth [d] inside the quote [q]
    (outside any when [q] is [None]): no bracket closes below depth
    zero, no backslash stands inside a quote, and no character of [sep]
    stands outside quotes at depth zero. *)
Fixpoint well_nested (sep : ascii -> bool) (d : nat) (q : option ascii) (s : string) : bool :=
  match s with
  | EmptyString => (d =? 0)%nat && bool_decide (q = None)
  | String c s' =>
      match q with
      | Some qc =>
          negb (Ascii.eqb c "\")
          && well_nested sep d (if Ascii.eqb c qc then None else q) s'
      | None =>
          if is_quote c then well_nested sep d (Some c) s'
          else if is_open c then well_nested sep (S d) None s'
          else if is_close c then
            match d with S d' => well_nested sep d' None s' | O => false end
          else (negb (d =? 0)%nat || negb (sep c)) && well_nested sep d None s'
      end
  end.

(** The characters that end a statement or start a comment. *)
Definition statement_sep (c : ascii) : bool :=
  Ascii.eqb c "/" || Ascii.eqb c ";" || Ascii.eqb c "010".

(** A statement as a script holds it. *)
Definition statement_text (s : string) : Prop :=
  trimmed s /\ well_nested statement_sep 0 None s = true.

Definition in_quote (q : option ascii) : bool :=
  match q with Some _ => true | None => false end.

Lemma quote_not_backslash (c : ascii) : is_quote c = true -> Ascii.eqb c "\" = false.
Proof.
  unfold is_quote. intros H.
  apply orb_true_iff in H as [H|H]; [apply orb_true_iff in H as [H|H]|];
    apply Ascii.eqb_eq in H; subst c; reflexivity.
Qed.

Lemma open_not_close (c : ascii) : is_open c = true -> is_close c = false.
Proof.
  unfold is_open. intros H.
  apply orb_true_iff in H as [H|H]; [apply orb_true_iff in H as [H|H]|];
    apply Ascii.eqb_eq in H; subst c; reflexivity.
Qed.

(** The buffer of a statement that began with [for] and white space:
    whatever is appended to it, [split_statements] takes it for the
    header of a C-style loop. *)
Definition for_buffer (cur : string) : Prop :=
  forall y, starts_for_header (strip (cur +:+ y)) = true.

Lemma for_buffer_snoc (cur : string) (c : ascii) : for_buffer cur -> for_buffer (snoc cur c).
Proof. intros H y. rewrite snoc_app. apply H. Qed.

Section SplitScan.

(** The characters the text scanned keeps inside brackets and quotes:
    the slash and the line break always, the semicolon unless the
    buffer is that of a loop header. *)
Variable sep : ascii -> bool.
Hypothesis sep_slash : sep "/" = true.
Hypothesis sep_newline : sep "010" = true.

(** The state of [split_statements] after it has read well-nested
    text. *)
Lemma split_loop_nested (a : string) :
  forall n text pre post parts cur d q,
    text = pre +:+ a +:+ post ->
    well_nested sep d q a = true ->
    (forall qc, q = Some qc -> is_quote qc = true) ->
    (in_quote q = true ->
     (0 <? len pre)%nat && bool_decide (get (len pre - 1) text = Some "\"%char) = false) ->
    sep ";" = true \/ for_buffer cur ->
    split_loop (len a + n) text (len pre) parts cur (Z.of_nat d) (in_quote q) q
    = split_loop n text (len pre + len a) parts (cur +:+ a) 0 false None.
Proof.
  induction a as [|c a IH]; intros n text pre post parts cur d q Ht Ha Hqc Hprev Hsemi.
  - cbn [well_nested] in Ha. apply andb_true_iff in Ha as [Hd Hq].
    apply Nat.eqb_eq in Hd. apply bool_decide_eq_true in Hq. subst d q.
    rewrite app_nil_r. cbn [len String.length Nat.add in_quote]. now rewrite Nat.add_0_r.
  - assert (Hg : get (len pre) text = Some c) by (rewrite Ht, app_cons; apply get_app_len).
    assert (Hnext : forall d' q',
               well_nested sep d' q' a = true ->
               (forall qc, q' = Some qc -> is_quote qc = true) ->
               (in_quote q' = true -> Ascii.eqb c "\" = false) ->
               split_loop (len a + n) text (S (len pre)) parts (snoc cur c)
                 (Z.of_nat d') (in_quote q') q'
               = split_loop n text (len pre + len (String c a)) parts
                   (cur +:+ String c a) 0 false None).
    { intros d' q' Hw Hq' Hc. rewrite <- (len_snoc' pre c).
      rewrite (IH n text (snoc pre c) post parts (snoc cur c) d' q');
        [| now rewrite snoc_app | exact Hw | exact Hq' | |].
      - rewrite len_snoc', snoc_app. change (len (String c a)) with (S (len a)).
        now replace (S (len pre) + len a)%nat with (len pre + S (len a))%nat by lia.
      - intros Hin. rewrite len_snoc'. cbn [Nat.ltb Nat.leb Nat.sub andb].
        rewrite Nat.sub_0_r, Hg. apply bool_decide_eq_false. intros [= ->].
        now specialize (Hc Hin).
      - destruct Hsemi as [H|H]; [now left | right; now apply for_buffer_snoc]. }
    assert (Hnone : forall qc0 : ascii, @None ascii = Some qc0 -> is_quote qc0 = true)
      by discriminate.
    change (len (String c a) + n)%nat with (S (len a + n)).
    cbn [split_loop]. rewrite Hg. cbn [well_nested] in Ha.
    destruct q as [qc|]; cbn [in_quote negb].
    + apply andb_true_iff in Ha as [Hb Ha]. apply negb_true_iff in Hb.
      specialize (Hprev eq_refl). rewrite Hprev. cbn [andb].
      pose proof (Hqc qc eq_refl) as Hquote.
      destruct (Ascii.eqb_spec c qc) as [->|Hne].
      * rewrite Hquote, bool_decide_eq_true_2 by reflexivity. now apply (Hnext d None).
      * destruct (is_quote c); [rewrite bool_decide_eq_false_2 by congruence|];
          now apply (Hnext d (Some qc)).
    + destruct (is_quote c) eqn:Hq.
      { apply (Hnext d (Some c) Ha); [now intros ? [= <-]|]. intros _. now apply quote_not_backslash. }
      cbn [andb]. destruct (is_open c) eqn:Ho.
      { replace (Z.of_nat d + 1) with (Z.of_nat (S d)) by lia. now apply (Hnext (S d) None). }
      destruct (is_close c) eqn:Hcl.
      { destruct d as [|d']; [discriminate|].
        replace (Z.max 0 (Z.of_nat (S d') - 1)) with (Z.of_nat d') by lia.
        now apply (Hnext d' None). }
      apply andb_true_iff in Ha as [Hs Ha].
      destruct d as [|d'].
      * cbn [Nat.eqb negb orb] in Hs. apply negb_true_iff in Hs.
        cbn [Z.of_nat Z.eqb andb].
        destruct (Ascii.eqb_spec c "/") as [->|_]; [congruence|].
        destruct (Ascii.eqb_spec c "010") as [->|_]; [congruence|].
        cbn [andb].
        destruct (Ascii.eqb_spec c ";") as [->|_]; [|now apply (Hnext O None)].
        destruct Hsemi as [H|H]; [congruence|].
        specialize (H EmptyString). rewrite app_nil_r in H. rewrite H.
        now apply (Hnext O None).
      * replace (Z.of_nat (S d') =? 0) with false by (symmetry; apply Z.eqb_neq; lia).
        cbn [andb]. now apply (Hnext (S d') None).
Qed.

End SplitScan.

(** A whole statement, read from the start of a buffer. *)
Lemma split_loop_statement (a : string) (n : nat) (text pre post : string)
    (parts : list string) (cur : string) :
  text = pre +:+ a +:+ post ->
  well_nested statement_sep 0 None a = true ->
  split_loop (len a + n) text (len pre) parts cur 0 false None
  = split_loop n text (len pre + len a) parts (cur +:+ a) 0 false None.
Proof.
  intros Ht Ha.
  apply (split_loop_nested statement_sep eq_refl eq_refl a n text pre post parts cur O None Ht Ha);
    [discriminate | discriminate | now left].
Qed.

Lemma len_rstrip_le (s : string) : (len (rstrip s) <= len s)%nat.
Proof.
  unfold len. induction s as [|x s IH]; [reflexivity|].
  cbn [rstrip]. destruct (rstrip s); [destruct (is_space x)|]; cbn in *; lia.
Qed.

Lemma len_lstrip_le (s : string) : (len (lstrip s) <= len s)%nat.
Proof.
  unfold len. induction s as [|x s IH]; [reflexivity|].
  cbn [lstrip]. destruct (is_space x); cbn in *; lia.
Qed.

Lemma trimmed_head (c : ascii) (a : string) : trimmed (String c a) -> is_space c = false.
Proof.
  intros [_ Hs]. destruct (is_space c) eqn:E; [|reflexivity].
  unfold strip in Hs. cbn [lstrip] in Hs. rewrite E in Hs.
  pose proof (len_rstrip_le (lstrip a)) as H1. pose proof (len_lstrip_le a) as H2.
  rewrite Hs in H1. unfold len in *. cbn [String.length] in H1. lia.
Qed.

Lemma trimmed_lstrip (a t : string) : trimmed a -> lstrip (a +:+ t) = a +:+ t.
Proof.
  intros H. destruct a as [|c a]; [now destruct H|].
  rewrite app_cons. cbn [lstrip]. now rewrite (trimmed_head c a H).
Qed.

Lemma trimmed_rstrip (a : string) : trimmed a -> rstrip a = a.
Proof.
  intros H. pose proof (trimmed_lstrip a EmptyString H) as Hl. rewrite app_nil_r in Hl.
  destruct H as [_ Hs]. unfold strip in Hs. now rewrite Hl in Hs.
Qed.

Lemma trimmed_strip_nonempty (a t : string) :
  trimmed a -> nonempty (strip (a +:+ t)) = true.
Proof.
  intros H. unfold strip. rewrite (trimmed_lstrip a t H).
  destruct a as [|c a]; [now destruct H|].
  rewrite app_cons, rstrip_cons by exact (trimmed_head c a H). reflexivity.
Qed.

Lemma join_cons (sep x y : string) (tl : list string) :
  join sep (x :: y :: tl) = x +:+ sep +:+ join sep (y :: tl).
Proof. reflexivity. Qed.

Lemma split_loop_lines (stmts : list string) :
  forall n text pre parts,
    text = pre +:+ join nl stmts ->
    Forall statement_text stmts -> stmts <> [] ->
    (len (join nl stmts) < n)%nat ->
    split_loop n text (len pre) parts EmptyString 0 false None = Ok (parts ++ stmts).
Proof.
  induction stmts as [|x tl IH]; intros n text pre parts Ht Hall Hne Hn; [congruence|].
  apply Forall_cons in Hall as [[[Hx Hs] Hl] Htl].
  destruct tl as [|y tl].
  - cbn [join] in *. clear IH.
    replace n with (len x + S (n - len x - 1))%nat by lia.
    rewrite (split_loop_statement x _ text pre EmptyString parts EmptyString);
      [|now rewrite app_nil_r|exact Hl].
    cbn [split_loop]. rewrite <- len_app, Ht, get_len, app_nil. unfold flush. now rewrite Hs, Hx.
  - rewrite join_cons in *. set (rest := join nl (y :: tl)) in *.
    rewrite !len_app in Hn. change (len nl) with 1%nat in Hn.
    replace n with (len x + S (n - len x - 1))%nat by lia.
    rewrite (split_loop_statement x _ text pre (nl +:+ rest) parts EmptyString Ht Hl).
    cbn [split_loop]. rewrite <- len_app.
    assert (Hg : get (len (pre +:+ x)) text = Some "010"%char).
    { rewrite Ht, <- app_assoc_str. apply get_app_len. }
    rewrite Hg.
    cbn [is_quote is_open is_close Ascii.eqb Bool.eqb orb andb negb Z.eqb].
    rewrite app_nil. unfold flush at 1. rewrite Hs, Hx.
    rewrite <- (len_snoc' (pre +:+ x) "010").
    rewrite (IH (n - len x - 1)%nat text (snoc (pre +:+ x) "010") (parts ++ [x]));
      [now rewrite <- app_assoc | | exact Htl | discriminate | lia].
    rewrite snoc_app, Ht. now rewrite app_assoc_str.
Qed.

Lemma split_joined (stmts : list string) :
  Forall statement_text stmts -> split_statements (join nl stmts) = Ok stmts.
Proof.
  intros Hall. unfold split_statements. destruct stmts as [|x tl]; [reflexivity|].
  assert (Hne : nonempty (strip (join nl (x :: tl))) = true).
  { apply Forall_cons in Hall as [[Hx _] _].
    destruct tl; [cbn [join]; rewrite <- (app_nil_r x) | rewrite join_cons];
      now apply trimmed_strip_nonempty. }
  rewrite Hne. cbn [negb].
  apply (split_loop_lines (x :: tl) _ _ EmptyString []);
    [reflexivity | exact Hall | discriminate | lia].
Qed.

(** X3: a script of well-nested statements, one per line, is split
    into exactly those statements; the line breaks, semicolons and
    slashes inside their brackets and quotes stay in the statement. *)
Theorem split_statements_lines (stmts : list string) :
  Forall statement_text stmts -> split_statements (join nl stmts) = Ok stmts.
Proof. apply split_joined. Qed.

Lemma split_statements_lines_witness :
  split_statements (join nl ["var xs = [1, 2]"; "if (x > 1) {" +:+ nl +:+ "print('a; b')" +:+ nl +:+ "}"])
  = Ok ["var xs = [1, 2]"; "if (x > 1) {" +:+ nl +:+ "print('a; b')" +:+ nl +:+ "}"].
Proof.
  apply (split_statements_lines
           ["var xs = [1, 2]"; "if (x > 1) {" +:+ nl +:+ "print('a; b')" +:+ nl +:+ "}"]).
  repeat apply Forall_cons_2; try apply Forall_nil_2; repeat split; reflexivity.
Defined.

(** The separator of arguments. *)
Definition comma_sep (c : ascii) : bool := Ascii.eqb c ",".

(** An argument as a call holds it. *)
Definition argument_text (a : string) : Prop :=
  trimmed a /\ well_nested comma_sep 0 None a = true.

(** Outside a quote the previous character plays no part. *)
Lemma comma_loop_prev (s : string) (p p' : option ascii) (parts : list string) (cur : string)
    (depth : Z) (qchar : option ascii) :
  comma_loop s p parts cur depth false qchar = comma_loop s p' parts cur depth false qchar.
Proof. destruct s; reflexivity. Qed.

Lemma comma_loop_nested (a : string) :
  forall t prev parts cur d q,
    well_nested comma_sep d q a = true ->
    (forall qc, q = Some qc -> is_quote qc = true) ->
    (in_quote q = true -> prev <> Some "\"%char) ->
    comma_loop (a +:+ t) prev parts cur (Z.of_nat d) (in_quote q) q
    = comma_loop t None parts (cur +:+ a) 0 false None.
Proof.
  induction a as [|c a IH]; intros t prev parts cur d q Ha Hqc Hprev.
  - cbn [well_nested] in Ha. apply andb_true_iff in Ha as [Hd Hq].
    apply Nat.eqb_eq in Hd. apply bool_decide_eq_true in Hq. subst d q.
    rewrite app_nil, app_nil_r. cbn [in_quote Z.of_nat]. apply comma_loop_prev.
  - assert (Hnext : forall d' q',
               well_nested comma_sep d' q' a = true ->
               (forall qc, q' = Some qc -> is_quote qc = true) ->
               (in_quote q' = true -> Ascii.eqb c "\" = false) ->
               comma_loop (a +:+ t) (Some c) parts (snoc cur c) (Z.of_nat d') (in_quote q') q'
               = comma_loop t None parts (cur +:+ String c a) 0 false None).
    { intros d' q' Hw Hq' Hc.
      rewrite (IH t (Some c) parts (snoc cur c) d' q' Hw Hq'); [now rewrite snoc_app|].
      intros Hin [= ->]. now specialize (Hc Hin). }
    assert (Hnone : forall qc0 : ascii, @None ascii = Some qc0 -> is_quote qc0 = true)
      by discriminate.
    rewrite app_cons. cbn [comma_loop]. cbn [well_nested] in Ha.
    destruct q as [qc|]; cbn [in_quote negb].
    + apply andb_true_iff in Ha as [Hb Ha]. apply negb_true_iff in Hb.
      specialize (Hprev eq_refl).
      rewrite (bool_decide_eq_false_2 (prev = Some "\"%char)) by exact Hprev.
      cbn [negb andb]. rewrite andb_true_r.
      pose proof (Hqc qc eq_refl) as Hquote.
      destruct (Ascii.eqb_spec c qc) as [->|Hne].
      * rewrite Hquote, bool_decide_eq_true_2 by reflexivity. now apply (Hnext d None).
      * destruct (is_quote c); [rewrite bool_decide_eq_false_2 by congruence|];
          now apply (Hnext d (Some qc)).
    + destruct (is_quote c) eqn:Hq.
      { apply (Hnext d (Some c) Ha); [now intros ? [= <-]|]. intros _. now apply quote_not_backslash. }
      cbn [andb]. destruct (is_open c) eqn:Ho.
      { replace (Z.of_nat d + 1) with (Z.of_nat (S d)) by lia. now apply (Hnext (S d) None). }
      destruct (is_close c) eqn:Hcl.
      { destruct d as [|d']; [discriminate|].
        replace (Z.max 0 (Z.of_nat (S d') - 1)) with (Z.of_nat d') by lia.
        now apply (Hnext d' None). }
      apply andb_true_iff in Ha as [Hs Ha].
      destruct d as [|d'].
      * cbn [Nat.eqb negb orb] in Hs. apply negb_true_iff in Hs. unfold comma_sep in Hs.
        cbn [Z.of_nat Z.eqb]. rewrite Hs. now apply (Hnext O None).
      * replace (Z.of_nat (S d') =? 0) with false by (symmetry; apply Z.eqb_neq; lia).
        cbn [andb]. now apply (Hnext (S d') None).
Qed.

Lemma comma_loop_argument (a t : string) (prev : option ascii) (parts : list string)
    (cur : string) :
  well_nested comma_sep 0 None a = true ->
  comma_loop (a +:+ t) prev parts cur 0 false None
  = comma_loop t None parts (cur +:+ a) 0 false None.
Proof.
  intros Ha. apply (comma_loop_nested a t prev parts cur O None Ha); discriminate.
Qed.

Lemma strip_lead (ws a : string) :
  all_chars is_space ws = true -> trimmed a -> strip (ws +:+ a) = a.
Proof.
  intros Hw Ha. destruct a as [|c a]; [now destruct Ha|].
  unfold strip. rewrite (lstrip_app ws c a Hw (trimmed_head c a Ha)).
  now apply trimmed_rstrip.
Qed.

Lemma nonempty_app_r (a b : string) : nonempty b = true -> nonempty (a +:+ b) = true.
Proof. destruct a; [now rewrite app_nil | reflexivity]. Qed.

Lemma flush_lead (parts : list string) (ws a : string) :
  all_chars is_space ws = true -> trimmed a -> flush parts (ws +:+ a) = parts ++ [a].
Proof.
  intros Hw Ha. unfold flush. rewrite (strip_lead ws a Hw Ha). now destruct Ha as [-> _].
Qed.

Lemma comma_loop_args (args : list string) :
  forall prev parts ws,
    Forall argument_text args -> args <> [] -> all_chars is_space ws = true ->
    comma_loop (join ", " args) prev parts ws 0 false None = parts ++ args.
Proof.
  induction args as [|x tl IH]; intros prev parts ws Hall Hne Hws; [congruence|].
  apply Forall_cons in Hall as [[Hx Hn] Htl].
  destruct tl as [|y tl].
  - cbn [join]. rewrite <- (app_nil_r x) at 1.
    rewrite (comma_loop_argument x EmptyString prev parts ws Hn).
    cbn [comma_loop]. rewrite nonempty_app_r by apply Hx. now apply flush_lead.
  - rewrite join_cons.
    rewrite (comma_loop_argument x _ prev parts ws Hn).
    change (", " +:+ join ", " (y :: tl)) with (String "," (String " " (join ", " (y :: tl)))).
    cbn [comma_loop is_quote is_open is_close Ascii.eqb Bool.eqb orb andb negb Z.eqb].
    rewrite (flush_lead parts ws x Hws Hx).
    rewrite (IH (Some " "%char) (parts ++ [x]) (snoc EmptyString " ") Htl);
      [now rewrite <- app_assoc | discriminate | reflexivity].
Qed.

Lemma split_arguments (args : list string) :
  Forall argument_text args -> _split_by_comma (join ", " args) = args.
Proof.
  intros Hall. destruct args as [|x tl]; [reflexivity|].
  apply (comma_loop_args (x :: tl) None [] EmptyString Hall); [discriminate | reflexivity].
Qed.

(** X4: the arguments of a call, written with a comma and a space
    between them, are split into exactly those arguments; the commas
    inside their brackets and quotes stay in the argument. *)
Theorem split_by_comma_join (args : list string) :
  Forall argument_text args -> _split_by_comma (join ", " args) = args.
Proof. apply split_arguments. Qed.

Lemma split_by_comma_join_witness :
  _split_by_comma (join ", " ["f(a, b)"; "'x, y'"; "[1, 2]"; "n"])
  = ["f(a, b)"; "'x, y'"; "[1, 2]"; "n"].
Proof.
  apply (split_by_comma_join ["f(a, b)"; "'x, y'"; "[1, 2]"; "n"]).
  repeat apply Forall_cons_2; try apply Forall_nil_2; repeat split; reflexivity.
Defined.

(** ** Calls *)

(** Text in which the brackets [o] and [cl] are balanced and the quotes
    are closed, as a scanner counts them that looks at this one kind of
    bracket, from depth [d] inside the quote [q]. *)
Fixpoint pair_nested (o cl : ascii) (d : nat) (q : option ascii) (s : string) : bool :=
  match s with
  | EmptyString => (d =? 0)%nat && bool_decide (q = None)
  | String c s' =>
      match q with
      | Some qc =>
          negb (Ascii.eqb c "\")
          && pair_nested o cl d (if Ascii.eqb c qc then None else q) s'
      | None =>
          if is_quote c then pair_nested o cl d (Some c) s'
          else if Ascii.eqb c o then pair_nested o cl (S d) None s'
          else if Ascii.eqb c cl then
            match d with S d' => pair_nested o cl d' None s' | O => false end
          else pair_nested o cl d None s'
      end
  end.

Definition parens_nested : nat -> option ascii -> string -> bool := pair_nested "(" ")".
Definition braces_nested : nat -> option ascii -> string -> bool := pair_nested "{" "}".

(** The name of a function or method in a call: [a-zA-Z0-9_.]+ *)
Definition call_name (name : string) : Prop :=
  nonempty name = true /\ all_chars is_word_dot name = true.

Definition call_argument (a : string) : Prop :=
  argument_text a /\ parens_nested 0 None a = true.

Lemma call_loop_prev (s : string) (i : nat) (p p' : option ascii) (pp : option nat)
    (depth : Z) (qchar : option ascii) :
  call_loop s i p pp depth false qchar = call_loop s i p' pp depth false qchar.
Proof. destruct s; reflexivity. Qed.

(** Inside the parentheses of the call, at depth [d0], balanced text
    leaves the position of the opening parenthesis alone. *)
Lemma call_loop_nested (a : string) :
  forall t i prev pp d0 d q,
    parens_nested d q a = true ->
    (forall qc, q = Some qc -> is_quote qc = true) ->
    (in_quote q = true -> prev <> Some "\"%char) ->
    0 < d0 ->
    call_loop (a +:+ t) i prev pp (d0 + Z.of_nat d) (in_quote q) q
    = call_loop t (i + len a) None pp d0 false None.
Proof.
  induction a as [|c a IH]; intros t i prev pp d0 d q Ha Hqc Hprev Hd0.
  - unfold parens_nested in *; cbn [pair_nested] in Ha. apply andb_true_iff in Ha as [Hd Hq].
    apply Nat.eqb_eq in Hd. apply bool_decide_eq_true in Hq. subst d q.
    rewrite app_nil. cbn [in_quote Z.of_nat len String.length].
    rewrite Z.add_0_r, Nat.add_0_r. apply call_loop_prev.
  - assert (Hnext : forall d' q',
               parens_nested d' q' a = true ->
               (forall qc, q' = Some qc -> is_quote qc = true) ->
               (in_quote q' = true -> Ascii.eqb c "\" = false) ->
               call_loop (a +:+ t) (S i) (Some c) pp (d0 + Z.of_nat d') (in_quote q') q'
               = call_loop t (i + len (String c a)) None pp d0 false None).
    { intros d' q' Hw Hq' Hc.
      rewrite (IH t (S i) (Some c) pp d0 d' q' Hw Hq'); [| |exact Hd0].
      - change (len (String c a)) with (S (len a)).
        now replace (S i + len a)%nat with (i + S (len a))%nat by lia.
      - intros Hin [= ->]. now specialize (Hc Hin). }
    assert (Hnone : forall qc0 : ascii, @None ascii = Some qc0 -> is_quote qc0 = true)
      by discriminate.
    rewrite app_cons. cbn [call_loop]. unfold parens_nested in *; cbn [pair_nested] in Ha.
    destruct q as [qc|]; cbn [in_quote negb].
    + apply andb_true_iff in Ha as [Hb Ha]. apply negb_true_iff in Hb.
      specialize (Hprev eq_refl).
      rewrite (bool_decide_eq_false_2 (prev = Some "\"%char)) by exact Hprev.
      cbn [negb andb]. rewrite andb_true_r.
      pose proof (Hqc qc eq_refl) as Hquote.
      destruct (Ascii.eqb_spec c qc) as [->|Hne].
      * rewrite Hquote, bool_decide_eq_true_2 by reflexivity. now apply (Hnext d None).
      * destruct (is_quote c); [rewrite bool_decide_eq_false_2 by congruence|];
          now apply (Hnext d (Some qc)).
    + destruct (is_quote c) eqn:Hq.
      { apply (Hnext d (Some c) Ha); [now intros ? [= <-]|]. intros _. now apply quote_not_backslash. }
      destruct (Ascii.eqb c "(") eqn:Ho.
      { replace (d0 + Z.of_nat d =? 0) with false by (symmetry; apply Z.eqb_neq; lia).
        replace (d0 + Z.of_nat d + 1) with (d0 + Z.of_nat (S d)) by lia.
        now apply (Hnext (S d) None). }
      destruct (Ascii.eqb c ")") eqn:Hcl.
      { destruct d as [|d']; [discriminate|].
        replace (d0 + Z.of_nat (S d') - 1) with (d0 + Z.of_nat d') by lia.
        replace (d0 + Z.of_nat d' <? 0) with false by (symmetry; apply Z.ltb_ge; lia).
        now apply (Hnext d' None). }
      now apply (Hnext d None).
Qed.

Lemma word_dot_neutral (c : ascii) :
  is_word_dot c = true ->
  is_quote c = false /\ Ascii.eqb c "(" = false /\ Ascii.eqb c ")" = false
  /\ is_space c = false.
Proof. destruct c as [[] [] [] [] [] [] [] []]; vm_compute; intuition congruence. Qed.

Lemma call_loop_name (a : string) :
  forall t i prev pp d,
    all_chars is_word_dot a = true ->
    call_loop (a +:+ t) i prev pp d false None = call_loop t (i + len a) None pp d false None.
Proof.
  induction a as [|c a IH]; intros t i prev pp d Ha.
  - rewrite app_nil. cbn [len String.length]. rewrite Nat.add_0_r. apply call_loop_prev.
  - cbn [all_chars] in Ha. apply andb_true_iff in Ha as [Hc Ha].
    apply word_dot_neutral in Hc as (Hq & Ho & Hcl & _).
    rewrite app_cons. cbn [call_loop]. rewrite Hq, Ho, Hcl. cbn [negb].
    rewrite (IH t (S i) (Some c) pp d Ha). change (len (String c a)) with (S (len a)).
    now replace (S i + len a)%nat with (i + S (len a))%nat by lia.
Qed.

Lemma parens_nested_app (a b : string) :
  forall d q,
    parens_nested d q a = true -> parens_nested 0 None b = true ->
    parens_nested d q (a +:+ b) = true.
Proof.
  unfold parens_nested. induction a as [|c a IH]; intros d q Ha Hb.
  - cbn [pair_nested] in Ha. apply andb_true_iff in Ha as [Hd Hq].
    apply Nat.eqb_eq in Hd. apply bool_decide_eq_true in Hq. now subst d q.
  - rewrite app_cons. cbn [pair_nested] in *. destruct q as [qc|].
    + apply andb_true_iff in Ha as [-> Ha]. now apply IH.
    + destruct (is_quote c); [now apply IH|].
      destruct (Ascii.eqb c "("); [now apply IH|].
      destruct (Ascii.eqb c ")"); [|now apply IH].
      destruct d; [discriminate | now apply IH].
Qed.

Lemma parens_nested_join (args : list string) :
  Forall call_argument args -> parens_nested 0 None (join ", " args) = true.
Proof.
  induction args as [|x tl IH]; intros Hall; [reflexivity|].
  apply Forall_cons in Hall as [[_ Hx] Htl]. destruct tl as [|y tl]; [exact Hx|].
  rewrite join_cons. apply parens_nested_app; [exact Hx|]. exact (IH Htl).
Qed.

Lemma slice_to_app (a b : string) : slice_to (len a) (a +:+ b) = a.
Proof.
  induction a as [|x a IH]; [now destruct b|].
  rewrite app_cons. unfold len. cbn [String.length slice_to]. f_equal. exact IH.
Qed.

Lemma contains_char_app (c : ascii) (a b : string) :
  contains_char c (a +:+ b) = contains_char c a || contains_char c b.
Proof.
  induction a as [|x a IH]; [reflexivity|].
  rewrite app_cons. cbn [contains_char]. now rewrite IH, orb_assoc.
Qed.

Lemma nonempty_join (x : string) (tl : list string) :
  nonempty x = true -> nonempty (join ", " (x :: tl)) = true.
Proof.
  intros Hx. destruct tl; [exact Hx|]. rewrite join_cons. now destruct x.
Qed.

Lemma strip_join (args : list string) :
  Forall trimmed args -> strip (join ", " args) = join ", " args.
Proof.
  intros Hall. destruct args as [|x tl]; [reflexivity|].
  apply Forall_cons in Hall as [Hx Htl]. unfold strip.
  assert (Hl : lstrip (join ", " (x :: tl)) = join ", " (x :: tl)).
  { destruct tl; [cbn [join]; rewrite <- (app_nil_r x) | rewrite join_cons];
      now apply trimmed_lstrip. }
  rewrite Hl. clear Hl. revert x Hx. induction tl as [|y tl IH]; intros x Hx.
  - now apply trimmed_rstrip.
  - apply Forall_cons in Htl as [Hy Htl]. rewrite join_cons, <- app_assoc_str.
    apply rstrip_app_fixed; [apply nonempty_join, Hy | now apply IH].
Qed.

Lemma strip_call (name inner : string) :
  call_name name ->
  strip (name +:+ "(" +:+ inner +:+ ")") = name +:+ "(" +:+ inner +:+ ")".
Proof.
  intros [Hn Hw]. unfold strip. destruct name as [|c name]; [discriminate|].
  cbn [all_chars] in Hw. apply andb_true_iff in Hw as [Hc _].
  apply word_dot_neutral in Hc as (_ & _ & _ & Hc).
  rewrite app_cons. cbn [lstrip]. rewrite Hc. rewrite <- app_cons.
  rewrite <- !app_assoc_str. now apply rstrip_snoc.
Qed.

Lemma strip_name (name : string) : call_name name -> strip name = name.
Proof.
  intros [_ Hw]. unfold strip.
  assert (H : forall s, all_chars is_word_dot s = true -> lstrip s = s /\ rstrip s = s).
  { clear. induction s as [|c s IH]; intros H; [now split|].
    cbn [all_chars] in H. apply andb_true_iff in H as [Hc Hs].
    apply word_dot_neutral in Hc as (_ & _ & _ & Hc). destruct (IH Hs) as [_ Hr].
    split; [cbn [lstrip]; now rewrite Hc | now rewrite rstrip_cons, Hr]. }
  destruct (H name Hw) as [-> ->]. reflexivity.
Qed.

(** The text of a call. *)
Definition call_text (name : string) (args : list string) : string :=
  name +:+ "(" +:+ join ", " args +:+ ")".

Lemma parse_call_text (name : string) (args : list string) :
  call_name name -> Forall call_argument args ->
  parse_call (call_text name args) = Ok (name, args).
Proof.
  intros Hname Hargs. unfold parse_call, call_text.
  rewrite (strip_call name (join ", " args) Hname).
  rewrite contains_char_app. change ("(" +:+ join ", " args +:+ ")")
    with (String "(" (join ", " args +:+ ")")).
  cbn [contains_char Ascii.eqb Bool.eqb orb negb]. rewrite orb_true_r.
  rewrite (call_loop_name name _ O None None 0 (proj2 Hname)).
  cbn [call_loop is_quote Ascii.eqb Bool.eqb orb negb Z.eqb Nat.add].
  change (0 + 1) with (1 + Z.of_nat 0).
  rewrite (call_loop_nested (join ", " args) ")" _ (Some "("%char) (Some (len name)) 1 O None
             (parens_nested_join args Hargs)); [|discriminate..|lia].
  cbn [call_loop is_quote Ascii.eqb Bool.eqb orb negb]. change (1 - 1) with 0.
  cbn [Z.ltb Z.compare Z.eqb negb]. cbv beta iota.
  rewrite slice_to_app, (strip_name name Hname).
  change (name +:+ String "(" (join ", " args +:+ ")"))
    with (name +:+ "(" +:+ (join ", " args +:+ ")")).
  rewrite <- (app_assoc_str name "(" (join ", " args +:+ ")")).
  rewrite <- (len_snoc name "("), slice_from_app, drop_last_snoc.
  assert (Htrim : Forall trimmed args).
  { eapply Forall_impl; [exact Hargs|]. now intros a [[Ha _] _]. }
  rewrite (strip_join args Htrim).
  destruct args as [|x tl]; [reflexivity|].
  rewrite (nonempty_join x tl) by (apply Forall_cons in Htrim as [[Hx _] _]; exact Hx).
  cbn [negb]. f_equal. f_equal. apply split_arguments.
  eapply Forall_impl; [exact Hargs|]. now intros a [Ha _].
Qed.

(** X5: [parse_call] reads a call back: the text of a name, an opening
    parenthesis, arguments separated by a comma and a space, and a
    closing parenthesis gives that name and those arguments. *)
Theorem parse_call_join (name : string) (args : list string) :
  call_name name -> Forall call_argument args ->
  parse_call (name +:+ "(" +:+ join ", " args +:+ ")") = Ok (name, args).
Proof. apply parse_call_text. Qed.

Lemma parse_call_join_witness :
  parse_call ("h2o.automl" +:+ "(" +:+ join ", " ["h2o.frame(data)"; "'target'"] +:+ ")")
  = Ok ("h2o.automl", ["h2o.frame(data)"; "'target'"]).
Proof.
  apply (parse_call_join "h2o.automl" ["h2o.frame(data)"; "'target'"]).
  - split; reflexivity.
  - repeat apply Forall_cons_2; try apply Forall_nil_2; repeat split; reflexivity.
Defined.

(** [s.count(c)] *)
Fixpoint count_char (c : ascii) (s : string) : nat :=
  match s with
  | EmptyString => O
  | String d s' => (if Ascii.eqb d c then 1 else 0) + count_char c s'
  end.

Definition no_quote (c : ascii) : bool := negb (is_quote c).

Lemma call_loop_depth (s : string) :
  forall i prev pp d r,
    all_chars no_quote s = true ->
    call_loop s i prev pp d false None = Some r ->
    r.2 = d + Z.of_nat (count_char "(" s) - Z.of_nat (count_char ")" s).
Proof.
  induction s as [|c s IH]; intros i prev pp d r Hq H.
  - injection H as <-. cbn. lia.
  - cbn [all_chars] in Hq. apply andb_true_iff in Hq as [Hc Hq].
    unfold no_quote in Hc. apply negb_true_iff in Hc.
    cbn [call_loop] in H. rewrite Hc in H. cbn [negb] in H. cbn [count_char].
    destruct (Ascii.eqb_spec c "(") as [->|Ho].
    + apply IH in H; [|exact Hq]. cbn [Ascii.eqb Bool.eqb]. lia.
    + destruct (Ascii.eqb_spec c ")") as [->|Hcl].
      * destruct (d - 1 <? 0); [discriminate|].
        apply IH in H; [|exact Hq]. cbn [Ascii.eqb Bool.eqb]. lia.
      * apply IH in H; [|exact Hq]. lia.
Qed.

Lemma all_chars_lstrip (p : ascii -> bool) (s : string) :
  all_chars p s = true -> all_chars p (lstrip s) = true.
Proof.
  induction s as [|c s IH]; intros H; [reflexivity|].
  cbn [lstrip]. destruct (is_space c); [|exact H].
  cbn [all_chars] in H. apply andb_true_iff in H as [_ H]. now apply IH.
Qed.

Lemma all_chars_rstrip (p : ascii -> bool) (s : string) :
  all_chars p s = true -> all_chars p (rstrip s) = true.
Proof.
  induction s as [|c s IH]; intros H; [reflexivity|].
  cbn [all_chars] in H. apply andb_true_iff in H as [Hc H]. specialize (IH H).
  cbn [rstrip]. destruct (rstrip s).
  - destruct (is_space c); [reflexivity|]. cbn [all_chars]. now rewrite Hc.
  - cbn [all_chars] in *. now rewrite Hc.
Qed.

Lemma count_char_lstrip (c : ascii) (s : string) :
  is_space c = false -> count_char c (lstrip s) = count_char c s.
Proof.
  intros Hc. induction s as [|d s IH]; [reflexivity|].
  cbn [lstrip]. destruct (is_space d) eqn:Hd; [|reflexivity].
  cbn [count_char]. destruct (Ascii.eqb_spec d c) as [->|]; [congruence | exact IH].
Qed.

Lemma count_char_rstrip (c : ascii) (s : string) :
  is_space c = false -> count_char c (rstrip s) = count_char c s.
Proof.
  intros Hc. induction s as [|d s IH]; [reflexivity|].
  cbn [rstrip count_char]. rewrite <- IH. destruct (rstrip s).
  - destruct (is_space d) eqn:Hd; [|reflexivity].
    destruct (Ascii.eqb_spec d c) as [->|]; [congruence | reflexivity].
  - reflexivity.
Qed.

(** X6: [parse_call] refuses text whose parentheses do not pair up.
    On text without quotes, a different number of opening and closing
    parentheses is a [ParseError]. *)
Theorem parse_call_unbalanced (text : string) :
  all_chars no_quote text = true ->
  count_char "(" text <> count_char ")" text ->
  exists msg, parse_call text = Raise (ParseError msg).
Proof.
  intros Hq Hne. unfold parse_call.
  destruct (negb (contains_char "(" (strip text))); [eauto|].
  destruct (call_loop (strip text) O None None 0 false None) as [[pp d]|] eqn:E; [|eauto].
  destruct (d =? 0) eqn:Hd; [|cbn [negb]; eauto].
  exfalso. apply Z.eqb_eq in Hd. subst d.
  apply call_loop_depth in E; [|unfold strip; now apply all_chars_rstrip, all_chars_lstrip].
  unfold strip in E. cbn [snd] in E.
  rewrite !count_char_rstrip, !count_char_lstrip in E by reflexivity. lia.
Qed.

Lemma parse_call_unbalanced_witness :
  exists msg, parse_call "f(a, (b)" = Raise (ParseError msg).
Proof.
  apply (parse_call_unbalanced "f(a, (b)"); [reflexivity|]. cbn. lia.
Defined.

(** ** The header of a C-style loop *)

(** What ends a statement whose buffer begins with [for]: the slash of
    a comment and the line break, but no semicolon. *)
Definition header_sep (c : ascii) : bool := Ascii.eqb c "/" || Ascii.eqb c "010".

Lemma word_plain (c : ascii) :
  is_word c = true ->
  is_quote c = false /\ is_open c = false /\ is_close c = false /\ statement_sep c = false.
Proof. destruct c as [[] [] [] [] [] [] [] []]; vm_compute; intuition congruence. Qed.

Lemma for_buffer_start (c0 : ascii) : is_word c0 = true -> for_buffer ("for " +:+ String c0 EmptyString).
Proof.
  intros Hc y. pose proof (word_not_space c0 Hc) as Hs.
  change (("for " +:+ String c0 EmptyString) +:+ y)
    with (String "f" (String "o" (String "r" (String " " (String c0 y))))).
  unfold strip. cbn [lstrip]. change (is_space "f") with false. cbv beta iota.
  rewrite !rstrip_cons by reflexivity.
  assert (E : rstrip (String " " (String c0 y)) = String " " (String c0 (rstrip y))).
  { cbn [rstrip]. destruct (rstrip y); rewrite ?Hs; reflexivity. }
  rewrite E. reflexivity.
Qed.

Lemma split_loop_header (a : string) (n : nat) (text pre post : string)
    (parts : list string) (cur : string) :
  text = pre +:+ a +:+ post ->
  well_nested header_sep 0 None a = true ->
  for_buffer cur ->
  split_loop (len a + n) text (len pre) parts cur 0 false None
  = split_loop n text (len pre + len a) parts (cur +:+ a) 0 false None.
Proof.
  intros Ht Ha Hf.
  apply (split_loop_nested header_sep eq_refl eq_refl a n text pre post parts cur O None Ht Ha);
    [discriminate | discriminate | now right].
Qed.

(** X7: once a statement has begun with [for], white space and a name,
    no semicolon ends it: every top-level semicolon up to the end of
    the line, also one after the block of the loop, stays in the
    statement. *)
Theorem split_statements_for_header (c0 : ascii) (rest : string) :
  is_word c0 = true ->
  rstrip (String c0 rest) = String c0 rest ->
  well_nested header_sep 0 None rest = true ->
  split_statements ("for " +:+ String c0 rest) = Ok ["for " +:+ String c0 rest].
Proof.
  intros Hc Hr Hw. pose proof (word_not_space c0 Hc) as Hs.
  set (head := "for " +:+ String c0 EmptyString).
  assert (Ht : "for " +:+ String c0 rest = head +:+ rest) by reflexivity.
  assert (Hstrip : strip (head +:+ rest) = head +:+ rest).
  { unfold strip. change (lstrip (head +:+ rest)) with (head +:+ rest).
    change (head +:+ rest) with ("for " +:+ String c0 rest).
    apply rstrip_app_fixed; [reflexivity | exact Hr]. }
  rewrite Ht. unfold split_statements. rewrite Hstrip.
  change (nonempty (head +:+ rest)) with true. cbn [negb].
  replace (S (len (head +:+ rest))) with (len head + (len rest + 1))%nat
    by (rewrite len_app; lia).
  rewrite (split_loop_statement head _ (head +:+ rest) EmptyString rest [] EmptyString);
    [|reflexivity|].
  2:{ change (well_nested statement_sep 0 None (String c0 EmptyString) = true).
      cbn [well_nested]. now destruct (word_plain c0 Hc) as (-> & -> & -> & ->). }
  rewrite app_nil. change (len EmptyString + len head)%nat with (len head).
  rewrite (split_loop_header rest 1 (head +:+ rest) head EmptyString [] head);
    [|now rewrite app_nil_r|exact Hw|now apply for_buffer_start].
  cbn [split_loop]. rewrite <- len_app, get_len. unfold flush. now rewrite Hstrip.
Qed.

Lemma split_statements_for_header_witness :
  split_statements ("for " +:+ "i = 0; i < 3; i += 1 { s += i }; print(s); x = 1")
  = Ok ["for " +:+ "i = 0; i < 3; i += 1 { s += i }; print(s); x = 1"].
Proof.
  apply (split_statements_for_header "i" " = 0; i < 3; i += 1 { s += i }; print(s); x = 1");
    reflexivity.
Defined.

(** ** The scanners of the evaluator *)

Lemma find_op_loop_sound (n : nat) (expr op : string) :
  forall i depth in_q qchar last r,
    (forall j, last = Some j -> slice j (j + len op) expr = op /\ (j < len expr)%nat) ->
    find_op_loop n expr op i depth in_q qchar last = Some r ->
    slice r (r + len op) expr = op /\ (r < len expr)%nat.
Proof.
  induction n as [|n IH]; intros i depth in_q qchar last r Hlast H; [now apply Hlast|].
  cbn [find_op_loop] in H.
  destruct (get i expr) as [c|] eqn:Hg; [|now apply Hlast].
  destruct (quote_step expr i c in_q qchar) as [q' qc'].
  assert (Hi : forall j, Some i = Some j ->
               String.eqb (slice i (i + len op) expr) op = true ->
               slice j (j + len op) expr = op /\ (j < len expr)%nat).
  { intros j [= <-] E. apply String.eqb_eq in E. split; [exact E|].
    now apply get_some_lt in Hg. }
  destruct (is_quote c); [eapply IH; eauto|].
  destruct (negb in_q); [|eapply IH; eauto].
  destruct (is_open c); [eapply IH; eauto|].
  destruct (is_close c); [eapply IH; eauto|].
  destruct ((depth =? 0) && String.eqb (slice i (i + len op) expr) op) eqn:E;
    [|eapply IH; eauto].
  apply andb_true_iff in E as [_ E].
  destruct (String.eqb op "-" && is_sign_at expr i); [eapply IH; eauto|].
  destruct (1 <? len op)%nat.
  - injection H as <-. now apply Hi.
  - eapply IH; [|exact H]. intros j Hj. now apply (Hi j Hj).
Qed.

(** X8: the index [_find_binary_op] returns is a place where the
    operator stands in the expression. *)
Theorem find_binary_op_sound (expr op : string) (i : nat) :
  _find_binary_op expr op = Some i ->
  slice i (i + len op) expr = op /\ (i < len expr)%nat.
Proof. apply find_op_loop_sound. discriminate. Qed.

Lemma find_binary_op_sound_witness :
  slice 7 (7 + len "-") "10 - 3 - 2" = "-" /\ (7 < len "10 - 3 - 2")%nat.
Proof. apply (find_binary_op_sound "10 - 3 - 2" "-" 7). reflexivity. Defined.

Lemma first_else_parts (then_e rest : string) (js : list nat) (t c e : string) :
  first_else then_e rest js = Some (t, c, e) ->
  t = then_e /\ nonempty t = true /\ trimmed c /\ trimmed e.
Proof.
  induction js as [|j js IH]; [discriminate|]. cbn [first_else].
  destruct (nonempty then_e && nonempty (strip (slice_to j rest))
            && nonempty (strip (slice_from (j + 6) rest))) eqn:E; [|exact IH].
  intros [= <- <- <-]. apply andb_true_iff in E as [E He]. apply andb_true_iff in E as [Ht Hc].
  split; [reflexivity|]. split; [exact Ht|].
  split; (split; [assumption | apply strip_idem]).
Qed.

(** X9: the three parts [_find_ternary] returns are not empty and carry
    no white space at their ends. *)
Theorem find_ternary_parts (expr t c e : string) :
  _find_ternary expr = Some (t, c, e) -> trimmed t /\ trimmed c /\ trimmed e.
Proof.
  unfold _find_ternary. generalize (rev (keyword_positions expr " if ")).
  intros ifs. induction ifs as [|p ifs IH]; [discriminate|]. cbn [ternary_from].
  destruct (first_else _ _ _) as [[[t' c'] e']|] eqn:E; [|exact IH].
  intros [= -> -> ->]. apply first_else_parts in E as (-> & Ht & Hc & He).
  split; [split; [exact Ht | apply strip_idem] | split; assumption].
Qed.

Lemma find_ternary_parts_witness : trimmed "1" /\ trimmed "x > 0" /\ trimmed "2".
Proof. apply (find_ternary_parts "1  if  x > 0  else  2" "1" "x > 0" "2"). reflexivity. Defined.

(** ** Blocks and conditions *)

Lemma get_slice_split (k : nat) :
  forall (t : string) (c : ascii),
    get k t = Some c -> t = slice_to k t +:+ String c (slice_from (S k) t).
Proof.
  unfold get. induction k as [|k IH]; intros [|x t] c H; try discriminate.
  - cbn in H. injection H as <-. reflexivity.
  - cbn [String.get] in H. cbn [slice_to slice_from]. rewrite app_cons. f_equal. now apply IH.
Qed.

Lemma block_loop_found (n : nat) (text : string) :
  forall i depth in_q qchar j,
    block_loop n text i depth in_q qchar = Some j ->
    (i <= j)%nat /\ get j text = Some "}"%char.
Proof.
  induction n as [|n IH]; intros i depth in_q qchar j H; [discriminate|].
  cbn [block_loop] in H. destruct (get i text) as [c|] eqn:Hg; [|discriminate].
  destruct (quote_step text i c in_q qchar) as [q' qc'].
  assert (Hrec : forall d q qc, block_loop n text (S i) d q qc = Some j ->
                 (i <= j)%nat /\ get j text = Some "}"%char).
  { intros d q qc Hr. apply IH in Hr as [? ?]. split; [lia | assumption]. }
  destruct (is_quote c); [now apply Hrec in H|].
  destruct (negb in_q); [|now apply Hrec in H].
  destruct (Ascii.eqb c "{"); [now apply Hrec in H|].
  destruct (Ascii.eqb_spec c "}") as [->|_]; [|now apply Hrec in H].
  destruct (depth - 1 =? 0); [|now apply Hrec in H].
  injection H as <-. now split.
Qed.

(** X10: what [_extract_block] returns is the text taken apart: the
    body and the rest, with the braces put back, are the text without
    its leading white space. *)
Theorem extract_block_parts (text body rest : string) :
  _extract_block text = Ok (body, rest) ->
  lstrip text = "{" +:+ body +:+ "}" +:+ rest.
Proof.
  unfold _extract_block. destruct (lstrip text) as [|c t] eqn:E; [discriminate|].
  cbn [startswith_char]. destruct (Ascii.eqb_spec "{" c) as [<-|]; [|discriminate].
  cbn [negb]. change (len (String "{" t)) with (S (len t)). cbn [block_loop get String.get].
  cbn [is_quote Ascii.eqb Bool.eqb orb negb].
  destruct (block_loop (len t) (String "{" t) 1 (0 + 1) false None) as [j|] eqn:Hj;
    [|discriminate].
  intros [= <- <-]. apply block_loop_found in Hj as [Hle Hg].
  destruct j as [|j]; [lia|].
  unfold slice. cbn [slice_from Nat.sub]. rewrite Nat.sub_0_r.
  rewrite app_cons, app_nil. f_equal.
  change (get (S j) (String "{" t)) with (get j t) in Hg.
  exact (get_slice_split j t "}" Hg).
Qed.

Lemma extract_block_parts_witness :
  lstrip "  { x = 1 } else { x = 2 }" = "{" +:+ " x = 1 " +:+ "}" +:+ " else { x = 2 }".
Proof.
  apply (extract_block_parts "  { x = 1 } else { x = 2 }" " x = 1 " " else { x = 2 }").
  reflexivity.
Defined.

(** The state of [_extract_block] after it has read text whose braces
    are balanced, inside a block at depth [d0]. *)
Lemma block_loop_nested (a : string) :
  forall n text pre post d0 d q,
    text = pre +:+ a +:+ post ->
    braces_nested d q a = true ->
    (forall qc, q = Some qc -> is_quote qc = true) ->
    (in_quote q = true -> prev_is_backslash (len pre) text = false) ->
    0 < d0 ->
    block_loop (len a + n) text (len pre) (d0 + Z.of_nat d) (in_quote q) q
    = block_loop n text (len pre + len a) d0 false None.
Proof.
  unfold braces_nested.
  induction a as [|c a IH]; intros n text pre post d0 d q Ht Ha Hqc Hprev Hd0.
  - cbn [pair_nested] in Ha. apply andb_true_iff in Ha as [Hd Hq].
    apply Nat.eqb_eq in Hd. apply bool_decide_eq_true in Hq. subst d q.
    cbn [len String.length Nat.add in_quote Z.of_nat]. now rewrite Nat.add_0_r, Z.add_0_r.
  - assert (Hg : get (len pre) text = Some c) by (rewrite Ht, app_cons; apply get_app_len).
    assert (Hnext : forall d' q',
               pair_nested "{" "}" d' q' a = true ->
               (forall qc, q' = Some qc -> is_quote qc = true) ->
               (in_quote q' = true -> Ascii.eqb c "\" = false) ->
               block_loop (len a + n) text (S (len pre)) (d0 + Z.of_nat d') (in_quote q') q'
               = block_loop n text (len pre + len (String c a)) d0 false None).
    { intros d' q' Hw Hq' Hc. rewrite <- (len_snoc' pre c).
      rewrite (IH n text (snoc pre c) post d0 d' q');
        [| now rewrite snoc_app | exact Hw | exact Hq' | | exact Hd0].
      - rewrite len_snoc'. change (len (String c a)) with (S (len a)).
        now replace (S (len pre) + len a)%nat with (len pre + S (len a))%nat by lia.
      - intros Hin. unfold prev_is_backslash. rewrite len_snoc'.
        cbn [Nat.ltb Nat.leb Nat.sub andb].
        rewrite Nat.sub_0_r, Hg. apply bool_decide_eq_false. intros [= ->].
        now specialize (Hc Hin). }
    assert (Hnone : forall qc0 : ascii, @None ascii = Some qc0 -> is_quote qc0 = true)
      by discriminate.
    change (len (String c a) + n)%nat with (S (len a + n)).
    cbn [block_loop]. rewrite Hg. cbn [pair_nested] in Ha. unfold quote_step.
    destruct q as [qc|]; cbn [in_quote negb].
    + apply andb_true_iff in Ha as [Hb Ha]. apply negb_true_iff in Hb.
      specialize (Hprev eq_refl). rewrite Hprev. cbn [negb]. rewrite andb_true_r.
      pose proof (Hqc qc eq_refl) as Hquote.
      destruct (Ascii.eqb_spec c qc) as [->|Hne].
      * rewrite Hquote, bool_decide_eq_true_2 by reflexivity. now apply (Hnext d None).
      * destruct (is_quote c); [rewrite bool_decide_eq_false_2 by congruence|];
          now apply (Hnext d (Some qc)).
    + destruct (is_quote c) eqn:Hq.
      { apply (Hnext d (Some c) Ha); [now intros ? [= <-]|]. intros _. now apply quote_not_backslash. }
      destruct (Ascii.eqb c "{") eqn:Ho.
      { replace (d0 + Z.of_nat d + 1) with (d0 + Z.of_nat (S d)) by lia.
        now apply (Hnext (S d) None). }
      destruct (Ascii.eqb c "}") eqn:Hcl; [|now apply (Hnext d None)].
      destruct d as [|d']; [discriminate|].
      replace (d0 + Z.of_nat (S d') - 1) with (d0 + Z.of_nat d') by lia.
      replace (d0 + Z.of_nat d' =? 0) with false by (symmetry; apply Z.eqb_neq; lia).
      now apply (Hnext d' None).
Qed.

Lemma extract_block_text (body rest : string) :
  braces_nested 0 None body = true ->
  _extract_block ("{" +:+ body +:+ "}" +:+ rest) = Ok (body, rest).
Proof.
  intros Hb. unfold _extract_block.
  set (text := "{" +:+ body +:+ "}" +:+ rest).
  change (lstrip text) with text. change (startswith_char "{" text) with true. cbn [negb].
  assert (Hlen : len text = S (len body + S (len rest))).
  { unfold text. rewrite !len_app. cbn [len String.length]. lia. }
  rewrite Hlen. cbn [block_loop].
  change (get 0 text) with (Some "{"%char).
  cbn [is_quote Ascii.eqb Bool.eqb orb negb].
  change (block_loop (len body + S (len rest)) text 1 (0 + 1) false None)
    with (block_loop (len body + S (len rest)) text (len "{") (1 + Z.of_nat 0)
            (in_quote None) None).
  rewrite (block_loop_nested body (S (len rest)) text "{" ("}" +:+ rest) 1 O None eq_refl Hb);
    [|discriminate|discriminate|lia].
  cbn [block_loop].
  assert (Hg : get (len "{" + len body) text = Some "}"%char).
  { rewrite <- len_app. unfold text. rewrite <- (app_assoc_str "{" body). apply get_app_len. }
  rewrite Hg. cbn [is_quote Ascii.eqb Bool.eqb orb negb]. change (1 - 1 =? 0) with true.
  cbv beta iota. f_equal. f_equal.
  - unfold slice, text. cbn [len String.length Nat.add Nat.sub slice_from append].
    rewrite Nat.sub_0_r. apply slice_to_app.
  - change (slice_from (S (len "{" + len body)) text)
      with (slice_from (S (len body)) (body +:+ "}" +:+ rest)).
    rewrite <- app_assoc_str, <- (len_snoc body "}"). apply slice_from_app.
Qed.

(** X11: [_extract_block] reads a block back.  From a brace, a body
    whose braces are balanced, the closing brace and any text after it,
    it returns the body and that text. *)
Theorem extract_block_braces (body rest : string) :
  braces_nested 0 None body = true ->
  _extract_block ("{" +:+ body +:+ "}" +:+ rest) = Ok (body, rest).
Proof. apply extract_block_text. Qed.

Lemma extract_block_braces_witness :
  _extract_block ("{" +:+ " if (a) { print('}') } " +:+ "}" +:+ " else { b }")
  = Ok (" if (a) { print('}') } ", " else { b }").
Proof. apply (extract_block_braces " if (a) { print('}') } " " else { b }"). reflexivity. Defined.

(** The state of [_extract_condition] after it has read text whose
    parentheses are balanced, inside the parentheses of the condition. *)
Lemma cond_loop_nested (a : string) :
  forall n text pre post d0 d q,
    text = pre +:+ a +:+ post ->
    parens_nested d q a = true ->
    (forall qc, q = Some qc -> is_quote qc = true) ->
    0 < d0 ->
    cond_loop (len a + n) text (len pre) (d0 + Z.of_nat d) (in_quote q) q
    = cond_loop n text (len pre + len a) d0 false None.
Proof.
  unfold parens_nested.
  induction a as [|c a IH]; intros n text pre post d0 d q Ht Ha Hqc Hd0.
  - cbn [pair_nested] in Ha. apply andb_true_iff in Ha as [Hd Hq].
    apply Nat.eqb_eq in Hd. apply bool_decide_eq_true in Hq. subst d q.
    cbn [len String.length Nat.add in_quote Z.of_nat]. now rewrite Nat.add_0_r, Z.add_0_r.
  - assert (Hg : get (len pre) text = Some c) by (rewrite Ht, app_cons; apply get_app_len).
    assert (Hnext : forall d' q',
               pair_nested "(" ")" d' q' a = true ->
               (forall qc, q' = Some qc -> is_quote qc = true) ->
               cond_loop (len a + n) text (S (len pre)) (d0 + Z.of_nat d') (in_quote q') q'
               = cond_loop n text (len pre + len (String c a)) d0 false None).
    { intros d' q' Hw Hq'. rewrite <- (len_snoc' pre c).
      rewrite (IH n text (snoc pre c) post d0 d' q');
        [| now rewrite snoc_app | exact Hw | exact Hq' | exact Hd0].
      rewrite len_snoc'. change (len (String c a)) with (S (len a)).
      now replace (S (len pre) + len a)%nat with (len pre + S (len a))%nat by lia. }
    assert (Hnone : forall qc0 : ascii, @None ascii = Some qc0 -> is_quote qc0 = true)
      by discriminate.
    change (len (String c a) + n)%nat with (S (len a + n)).
    cbn [cond_loop]. rewrite Hg. cbn [pair_nested] in Ha.
    destruct q as [qc|]; cbn [in_quote negb].
    + apply andb_true_iff in Ha as [_ Ha]. pose proof (Hqc qc eq_refl) as Hquote.
      destruct (Ascii.eqb_spec c qc) as [->|Hne].
      * rewrite Hquote, bool_decide_eq_true_2 by reflexivity. now apply (Hnext d None).
      * destruct (is_quote c); [rewrite bool_decide_eq_false_2 by congruence|];
          now apply (Hnext d (Some qc)).
    + destruct (is_quote c) eqn:Hq.
      { apply (Hnext d (Some c) Ha). now intros ? [= <-]. }
      destruct (Ascii.eqb c "(") eqn:Ho.
      { replace (d0 + Z.of_nat d + 1) with (d0 + Z.of_nat (S d)) by lia.
        now apply (Hnext (S d) None). }
      destruct (Ascii.eqb c ")") eqn:Hcl; [|now apply (Hnext d None)].
      destruct d as [|d']; [discriminate|].
      replace (d0 + Z.of_nat (S d') - 1) with (d0 + Z.of_nat d') by lia.
      replace (d0 + Z.of_nat d' =? 0) with false by (symmetry; apply Z.eqb_neq; lia).
      now apply (Hnext d' None).
Qed.

Lemma extract_condition_text (cond rest : string) :
  parens_nested 0 None cond = true ->
  _extract_condition ("(" +:+ cond +:+ ")" +:+ rest) = Ok (cond, rest).
Proof.
  intros Hb. unfold _extract_condition.
  set (text := "(" +:+ cond +:+ ")" +:+ rest).
  change (lstrip text) with text. change (startswith_char "(" text) with true. cbv iota.
  assert (Hlen : len text = S (len cond + S (len rest))).
  { unfold text. rewrite !len_app. cbn [len String.length]. lia. }
  rewrite Hlen. cbn [cond_loop].
  change (get 0 text) with (Some "("%char).
  cbn [is_quote Ascii.eqb Bool.eqb orb negb].
  change (cond_loop (len cond + S (len rest)) text 1 (0 + 1) false None)
    with (cond_loop (len cond + S (len rest)) text (len "(") (1 + Z.of_nat 0)
            (in_quote None) None).
  rewrite (cond_loop_nested cond (S (len rest)) text "(" (")" +:+ rest) 1 O None eq_refl Hb);
    [|discriminate|lia].
  cbn [cond_loop].
  assert (Hg : get (len "(" + len cond) text = Some ")"%char).
  { rewrite <- len_app. unfold text. rewrite <- (app_assoc_str "(" cond). apply get_app_len. }
  rewrite Hg. cbn [is_quote Ascii.eqb Bool.eqb orb negb]. change (1 - 1 =? 0) with true.
  cbv beta iota. f_equal. f_equal.
  - unfold slice, text. cbn [len String.length Nat.add Nat.sub slice_from append].
    rewrite Nat.sub_0_r. apply slice_to_app.
  - change (slice_from (S (len "(" + len cond)) text)
      with (slice_from (S (len cond)) (cond +:+ ")" +:+ rest)).
    rewrite <- app_assoc_str, <- (len_snoc cond ")"). apply slice_from_app.
Qed.

(** X12: [_extract_condition] reads a parenthesised condition back.
    From a parenthesis, a condition whose parentheses are balanced, the
    closing parenthesis and any text after it, it returns the condition
    and that text. *)
Theorem extract_condition_parens (cond rest : string) :
  parens_nested 0 None cond = true ->
  _extract_condition ("(" +:+ cond +:+ ")" +:+ rest) = Ok (cond, rest).
Proof. apply extract_condition_text. Qed.

Lemma extract_condition_parens_witness :
  _extract_condition ("(" +:+ "len(xs) > 0 and s == ')'" +:+ ")" +:+ " { go() }")
  = Ok ("len(xs) > 0 and s == ')'", " { go() }").
Proof. apply (extract_condition_parens "len(xs) > 0 and s == ')'" " { go() }"). reflexivity. Defined.

Lemma lstrip_app_stop (a : string) (c : ascii) (t : string) :
  is_space c = false -> lstrip (a +:+ String c t) = lstrip a +:+ String c t.
Proof.
  intros Hc. induction a as [|x a IH].
  - rewrite app_nil. cbn [lstrip]. now rewrite Hc.
  - rewrite app_cons. cbn [lstrip]. destruct (is_space x); [exact IH | now rewrite app_cons].
Qed.

Lemma lstrip_idem (s : string) : lstrip (lstrip s) = lstrip s.
Proof.
  pose proof (lstrip_head s) as H. destruct (lstrip s) as [|c t]; [reflexivity|].
  cbn [lstrip]. now rewrite H.
Qed.

Lemma contains_char_lstrip (c : ascii) (s : string) :
  contains_char c s = false -> contains_char c (lstrip s) = false.
Proof.
  induction s as [|x s IH]; intros H; [reflexivity|].
  cbn [lstrip]. destruct (is_space x); [|exact H].
  cbn [contains_char] in H. apply orb_false_iff in H as [_ H]. now apply IH.
Qed.

Lemma index_char_app (c : ascii) (a t : string) :
  contains_char c a = false -> index_char c (a +:+ String c t) = Some (len a).
Proof.
  intros H. induction a as [|x a IH].
  - rewrite app_nil. cbn [index_char]. now rewrite Ascii.eqb_refl.
  - cbn [contains_char] in H. apply orb_false_iff in H as [Hx H].
    rewrite app_cons. cbn [index_char]. rewrite Hx, (IH H). reflexivity.
Qed.

Lemma index_char_none (c : ascii) (s : string) :
  contains_char c s = false -> index_char c s = None.
Proof.
  induction s as [|x s IH]; intros H; [reflexivity|].
  cbn [contains_char] in H. apply orb_false_iff in H as [Hx H].
  cbn [index_char]. now rewrite Hx, (IH H).
Qed.

Lemma startswith_char_app (c : ascii) (a : string) (d : ascii) (t : string) :
  startswith_char c a = false -> Ascii.eqb c d = false ->
  startswith_char c (a +:+ String d t) = false.
Proof. intros Ha Hd. destruct a; [now rewrite app_nil | exact Ha]. Qed.

(** X13: without parentheses the condition is the text before the
    first brace, stripped, and the brace stays at the head of the rest;
    when no brace follows, the search for it fails with Python's
    [ValueError], not with the interpreter's own error. *)
Theorem extract_condition_bare (cond rest : string) :
  startswith_char "(" (lstrip cond) = false ->
  contains_char "{" cond = false ->
  _extract_condition (cond +:+ "{" +:+ rest) = Ok (strip cond, "{" +:+ rest)
  /\ _extract_condition cond = Raise ValueError.
Proof.
  intros Hp Hb. unfold _extract_condition. split.
  - change (cond +:+ "{" +:+ rest) with (cond +:+ String "{" rest).
    rewrite (lstrip_app_stop cond "{" rest eq_refl).
    rewrite (startswith_char_app "(" (lstrip cond) "{" rest Hp eq_refl).
    rewrite (index_char_app "{" (lstrip cond) rest (contains_char_lstrip _ _ Hb)).
    rewrite slice_to_app, slice_from_app. unfold strip. now rewrite lstrip_idem.
  - rewrite Hp. now rewrite (index_char_none "{" (lstrip cond) (contains_char_lstrip _ _ Hb)).
Qed.

Lemma extract_condition_bare_witness :
  _extract_condition (" x > 1 " +:+ "{" +:+ " go() }") = Ok (strip " x > 1 ", "{" +:+ " go() }")
  /\ _extract_condition " x > 1 " = Raise ValueError.
Proof. apply (extract_condition_bare " x > 1 " " go() }"); reflexivity. Defined.

(** ** Assignments *)

(** What follows the equals sign of an assignment. *)
Lemma tail_group_expr (ws e : string) :
  all_chars is_space ws = true -> trimmed e -> tail_group (ws +:+ e) = Some e.
Proof.
  intros Hw He. unfold tail_group. destruct e as [|c e']; [now destruct He|].
  rewrite (lstrip_app ws c e' Hw (trimmed_head c e' He)). reflexivity.
Qed.

Section AssignmentText.

(** [name ws1 = ws2 e]: a name, an equals sign with optional white space
    around it, and the text of an expression. *)
Variables (name ws1 ws2 e : string).
Hypothesis name_ok : variable_name name.
Hypothesis ws1_ok : all_chars is_space ws1 = true.
Hypothesis ws2_ok : all_chars is_space ws2 = true.
Hypothesis e_ok : trimmed e.

Let tail : string := ws1 +:+ "=" +:+ ws2 +:+ e.

Lemma tail_head : exists c t, tail = String c t /\ is_word c = false.
Proof.
  unfold tail. destruct ws1 as [|c w].
  - exists "="%char, (ws2 +:+ e). now split.
  - exists c, (w +:+ "=" +:+ ws2 +:+ e). split; [reflexivity|].
    cbn [all_chars] in ws1_ok. apply andb_true_iff in ws1_ok as [Hc _].
    now apply space_not_word.
Qed.

Lemma lstrip_tail : lstrip tail = String "=" (ws2 +:+ e).
Proof. unfold tail. now apply lstrip_app. Qed.

Lemma rstrip_assignment (pre : string) : rstrip (pre +:+ name +:+ tail) = pre +:+ name +:+ tail.
Proof.
  unfold tail. rewrite <- !app_assoc_str.
  apply rstrip_app_fixed; [apply e_ok | now apply trimmed_rstrip].
Qed.

Lemma match_assign_text : match_assign (name +:+ tail) = Some (name, e).
Proof.
  destruct tail_head as (c & t & Ht & Hc). unfold match_assign.
  rewrite Ht, (ident_name name c t name_ok Hc), <- Ht, lstrip_tail,
    (tail_group_expr ws2 e ws2_ok e_ok).
  reflexivity.
Qed.

Lemma parse_plain_assignment : parse_assignment (name +:+ tail) = Ok (name, e).
Proof.
  destruct tail_head as (c & t & Ht & Hc).
  assert (Hs : strip (name +:+ tail) = name +:+ tail).
  { unfold strip. rewrite Ht at 1. rewrite (lstrip_name name c t name_ok), <- Ht.
    pose proof (rstrip_assignment EmptyString) as Hr. now rewrite !app_nil in Hr. }
  unfold parse_assignment. rewrite Hs, match_assign_text.
  unfold match_decl. rewrite Ht. now rewrite (not_decl name c t name_ok Hc).
Qed.

Lemma parse_declaration (kw ws0 : string) :
  kw = "var" \/ kw = "let" -> blank ws0 = true ->
  parse_assignment (kw +:+ ws0 +:+ name +:+ tail) = Ok (name, e).
Proof.
  intros Hkw Hws. destruct tail_head as (c & t & Ht & Hc).
  unfold blank in Hws. apply andb_true_iff in Hws as [Hne Hall].
  destruct ws0 as [|w0 ws0']; [discriminate|].
  pose proof Hall as Hall'. cbn [all_chars] in Hall'. apply andb_true_iff in Hall' as [Hw0 _].
  assert (Hl : lstrip (String w0 ws0' +:+ name +:+ tail) = name +:+ tail).
  { destruct name_ok as (Hp & _). unfold plain_name in Hp.
    destruct name as [|n0 name']; [discriminate|].
    apply andb_true_iff in Hp as [Ha _]. rewrite (app_cons n0 name' tail).
    apply lstrip_app; [exact Hall|]. apply word_not_space. now apply alpha_is_word. }
  assert (Hs : strip (kw +:+ String w0 ws0' +:+ name +:+ tail)
               = kw +:+ String w0 ws0' +:+ name +:+ tail).
  { unfold strip.
    assert (Hk : lstrip (kw +:+ String w0 ws0' +:+ name +:+ tail)
                 = kw +:+ String w0 ws0' +:+ name +:+ tail) by (now destruct Hkw as [-> | ->]).
    rewrite Hk. pose proof (rstrip_assignment (kw +:+ String w0 ws0')) as Hr.
    now rewrite !app_assoc_str in Hr. }
  unfold parse_assignment. rewrite Hs. unfold match_decl.
  assert (Hd : starts_decl (kw +:+ String w0 ws0' +:+ name +:+ tail) = true).
  { destruct Hkw as [-> | ->]; unfold starts_decl, startswith;
      rewrite !app_cons, app_nil; cbn [String.prefix slice_from]; rewrite Hw0;
      reflexivity. }
  rewrite Hd.
  assert (Hsl : slice_from 3 (kw +:+ String w0 ws0' +:+ name +:+ tail)
                = String w0 ws0' +:+ name +:+ tail) by (now destruct Hkw as [-> | ->]).
  rewrite Hsl, Hl. rewrite Ht at 1.
  rewrite (ident_name name c t name_ok Hc), <- Ht, lstrip_tail,
    (tail_group_expr ws2 e ws2_ok e_ok).
  reflexivity.
Qed.

End AssignmentText.

(** X14: [parse_assignment] reads an assignment back: a name, an
    equals sign and an expression, with or without [var] or [let]
    before the name, gives the name and the expression.  The expression
    may itself begin with an equals sign: the text of an equality test
    is parsed as an assignment. *)
Theorem parse_assignment_parts (name ws1 ws2 e : string) :
  variable_name name ->
  all_chars is_space ws1 = true -> all_chars is_space ws2 = true -> trimmed e ->
  parse_assignment (name +:+ ws1 +:+ "=" +:+ ws2 +:+ e) = Ok (name, e)
  /\ (forall kw ws0, kw = "var" \/ kw = "let" -> blank ws0 = true ->
      parse_assignment (kw +:+ ws0 +:+ name +:+ ws1 +:+ "=" +:+ ws2 +:+ e) = Ok (name, e)).
Proof.
  intros Hn H1 H2 He. split.
  - now apply parse_plain_assignment.
  - intros kw ws0. now apply parse_declaration.
Qed.

Lemma parse_assignment_parts_witness :
  parse_assignment ("x" +:+ " " +:+ "=" +:+ "" +:+ "= 5") = Ok ("x", "= 5")
  /\ (forall kw ws0, kw = "var" \/ kw = "let" -> blank ws0 = true ->
      parse_assignment (kw +:+ ws0 +:+ "x" +:+ " " +:+ "=" +:+ "" +:+ "= 5") = Ok ("x", "= 5")).
Proof.
  apply (parse_assignment_parts "x" " " "" "= 5").
  - split; [reflexivity | split; [by_decision | reflexivity]].
  - reflexivity.
  - reflexivity.
  - split; reflexivity.
Defined.

Lemma span_split (p : ascii -> bool) (s a b : string) : span p s = (a, b) -> s = a +:+ b.
Proof.
  revert a b. induction s as [|c s IH]; intros a b H; cbn [span] in H.
  - now injection H as <- <-.
  - destruct (p c); [|now injection H as <- <-].
    destruct (span p s) as [a' b']. injection H as <- <-.
    rewrite app_cons. f_equal. now apply IH.
Qed.

Lemma contains_char_slice_from (c : ascii) (i : nat) (s : string) :
  contains_char c s = false -> contains_char c (slice_from i s) = false.
Proof.
  revert s. induction i as [|i IH]; intros s H; [exact H|].
  destruct s as [|x s]; [reflexivity|]. cbn [slice_from].
  cbn [contains_char] in H. apply orb_false_iff in H as [_ H]. now apply IH.
Qed.

Lemma no_equals_no_assign (s : string) :
  contains_char "=" s = false -> match_assign s = None.
Proof.
  intros H. unfold match_assign. destruct (ident s) as [[n r]|] eqn:E; [|reflexivity].
  unfold ident in E. destruct s as [|c s']; [discriminate|].
  destruct (is_alpha_ c); [|discriminate].
  assert (E' : span is_word (String c s') = (n, r)) by (now injection E).
  apply span_split in E'. rewrite E', contains_char_app in H. apply orb_false_iff in H as [_ H].
  apply contains_char_lstrip in H. destruct (lstrip r) as [|x r']; [reflexivity|].
  cbn [contains_char] in H. apply orb_false_iff in H as [Hx _].
  destruct (Ascii.eqb_spec "=" x) as [<-|Hne]; [discriminate|].
  destruct x as [[] [] [] [] [] [] [] []]; try reflexivity. congruence.
Qed.

Lemma contains_char_rstrip (c : ascii) (s : string) :
  contains_char c s = false -> contains_char c (rstrip s) = false.
Proof.
  induction s as [|x s IH]; intros H; [reflexivity|].
  cbn [contains_char] in H. apply orb_false_iff in H as [Hx H]. specialize (IH H).
  cbn [rstrip]. destruct (rstrip s).
  - destruct (is_space x); [reflexivity|]. cbn [contains_char]. now rewrite Hx.
  - cbn [contains_char] in *. now rewrite Hx.
Qed.

(** X15: text without an equals sign is no assignment:
    [parse_assignment] raises [ParseError]. *)
Theorem parse_assignment_no_equals (text : string) :
  contains_char "=" text = false ->
  parse_assignment text = Raise (ParseError "Invalid assignment").
Proof.
  intros H. unfold parse_assignment.
  assert (Hs : contains_char "=" (strip text) = false)
    by (unfold strip; now apply contains_char_rstrip, contains_char_lstrip).
  rewrite (no_equals_no_assign _ Hs).
  unfold match_decl. destruct (starts_decl (strip text)); [|reflexivity].
  pose proof (no_equals_no_assign (lstrip (slice_from 3 (strip text)))) as Hd.
  unfold match_assign in Hd. rewrite Hd; [reflexivity|].
  now apply contains_char_lstrip, contains_char_slice_from.
Qed.

Lemma parse_assignment_no_equals_witness :
  parse_assignment "print(x)" = Raise (ParseError "Invalid assignment").
Proof. apply (parse_assignment_no_equals "print(x)"). reflexivity. Defined.

(** ** Expressions *)

(** X16: text that begins with an opening and ends with a closing
    parenthesis is evaluated as the text between the two, whether or
    not the two belong together. *)
Theorem eval_parenthesised (fuel : nat) (e : string) (st : state) :
  _eval (S fuel) ("(" +:+ e +:+ ")") st = _eval fuel e st.
Proof.
  change ("(" +:+ e +:+ ")") with (String "(" (e +:+ ")")).
  assert (Hs : strip (String "(" (e +:+ ")")) = String "(" (e +:+ ")")).
  { unfold strip. cbn [lstrip]. change (is_space "(") with false. cbv beta iota.
    rewrite <- app_cons. now apply rstrip_snoc. }
  assert (He : endswith_char ")" (String "(" (e +:+ ")")) = true).
  { unfold endswith_char. now rewrite <- app_cons, last_snoc. }
  assert (Hu : _unquote (String "(" (e +:+ ")")) = e).
  { unfold _unquote. cbn [slice_from]. apply drop_last_snoc. }
  cbn [_eval]. unfold _eval_body. rewrite Hs.
  set (text := String "(" (e +:+ ")")) in *.
  change (nonempty text) with true. change (_is_str_literal text) with false.
  change (String.eqb text "true") with false. change (String.eqb text "false") with false.
  change (String.eqb text "null") with false. change (String.eqb text "None") with false.
  change (is_float_literal text) with false. change (is_int_literal text) with false.
  change (startswith_char "[" text) with false. change (startswith_char "{" text) with false.
  change (startswith_char "(" text) with true.
  cbn [negb orb andb]. now rewrite He, Hu.
Qed.

(** ** Names *)

Lemma get_all_chars (p : ascii -> bool) (s : string) (i : nat) (c : ascii) :
  all_chars p s = true -> get i s = Some c -> p c = true.
Proof.
  unfold get. revert i. induction s as [|x s IH]; intros i Hs Hg; [now destruct i|].
  cbn [all_chars] in Hs. apply andb_true_iff in Hs as [Hx Hs].
  destruct i as [|i]; cbn [String.get] in Hg; [now injection Hg as <- | now apply (IH i)].
Qed.

Lemma get_slice_from (s : string) :
  forall i c, get i s = Some c -> exists r, slice_from i s = String c r.
Proof.
  unfold get. induction s as [|x s IH]; intros [|i] c H; try discriminate.
  - injection H as <-. now exists s.
  - cbn [String.get] in H. cbn [slice_from]. now apply IH.
Qed.

(** The head of an operator or keyword: a character no name holds. *)
Definition not_word_headed (op : string) : bool :=
  match op with String o _ => negb (is_word o) | EmptyString => false end.

Lemma no_occurrence (s op : string) (i : nat) (c : ascii) :
  all_chars is_word s = true -> not_word_headed op = true -> get i s = Some c ->
  String.eqb (slice i (i + len op) s) op = false.
Proof.
  intros Hs Hop Hg. pose proof (get_all_chars _ _ _ _ Hs Hg) as Hc.
  destruct op as [|o op']; [discriminate|]. cbn [not_word_headed] in Hop.
  apply negb_true_iff in Hop. destruct (get_slice_from s i c Hg) as [r Hr].
  unfold slice. rewrite Hr. replace (i + len (String o op') - i)%nat with (S (len op'))
    by (unfold len; cbn [String.length]; lia).
  cbn [slice_to String.eqb]. now rewrite Ascii.eqb_sym, (word_not_char c o Hc Hop).
Qed.

Lemma find_op_loop_word (n : nat) (s op : string) :
  all_chars is_word s = true -> not_word_headed op = true ->
  forall i qchar last, find_op_loop n s op i 0 false qchar last = last.
Proof.
  intros Hs Hop. induction n as [|n IH]; intros i qchar last; [reflexivity|].
  cbn [find_op_loop]. destruct (get i s) as [c|] eqn:Hg; [|reflexivity].
  destruct (word_plain c (get_all_chars _ _ _ _ Hs Hg)) as (-> & -> & -> & _).
  cbn [negb Z.eqb andb]. rewrite (no_occurrence s op i c Hs Hop Hg). apply IH.
Qed.

Lemma find_binary_op_word (s op : string) :
  all_chars is_word s = true -> not_word_headed op = true -> _find_binary_op s op = None.
Proof. intros Hs Hop. now apply find_op_loop_word. Qed.

Lemma keyword_loop_word (n : nat) (s kw : string) :
  all_chars is_word s = true -> not_word_headed kw = true ->
  forall i qchar, keyword_loop n s kw i 0 false qchar = [].
Proof.
  intros Hs Hop. induction n as [|n IH]; intros i qchar; [reflexivity|].
  cbn [keyword_loop]. destruct (get i s) as [c|] eqn:Hg; [|reflexivity].
  destruct (word_plain c (get_all_chars _ _ _ _ Hs Hg)) as (-> & -> & -> & _).
  cbn [negb Z.eqb andb]. rewrite (no_occurrence s kw i c Hs Hop Hg). apply IH.
Qed.

Lemma find_ternary_word (s : string) : all_chars is_word s = true -> _find_ternary s = None.
Proof.
  intros Hs. unfold _find_ternary, keyword_positions.
  now rewrite (keyword_loop_word _ s " if " Hs eq_refl).
Qed.

Lemma contains_char_word (c : ascii) (s : string) :
  all_chars is_word s = true -> is_word c = false -> contains_char c s = false.
Proof.
  intros Hs Hc. induction s as [|x s IH]; [reflexivity|].
  cbn [all_chars] in Hs. apply andb_true_iff in Hs as [Hx Hs].
  cbn [contains_char]. now rewrite (word_not_char x c Hx Hc), IH.
Qed.

Lemma span_all (p : ascii -> bool) (s : string) :
  all_chars p s = true -> span p s = (s, EmptyString).
Proof.
  induction s as [|x s IH]; intros H; [reflexivity|].
  cbn [all_chars] in H. apply andb_true_iff in H as [Hx H].
  cbn [span]. now rewrite Hx, (IH H).
Qed.

Lemma all_chars_slice_from (p : ascii -> bool) (i : nat) (s : string) :
  all_chars p s = true -> all_chars p (slice_from i s) = true.
Proof.
  revert s. induction i as [|i IH]; intros s H; [exact H|].
  destruct s as [|x s]; [reflexivity|]. cbn [slice_from].
  cbn [all_chars] in H. apply andb_true_iff in H as [_ H]. now apply IH.
Qed.

Lemma all_chars_impl (p q : ascii -> bool) (s : string) :
  (forall c, p c = true -> q c = true) -> all_chars p s = true -> all_chars q s = true.
Proof.
  intros Hpq. induction s as [|x s IH]; intros H; [reflexivity|].
  cbn [all_chars] in *. apply andb_true_iff in H as [Hx H]. now rewrite (Hpq x Hx), IH.
Qed.

Lemma strip_word (s : string) : all_chars is_word s = true -> strip s = s.
Proof.
  intros H. unfold strip.
  assert (Hl : lstrip s = s).
  { destruct s as [|c s]; [reflexivity|]. cbn [all_chars] in H.
    apply andb_true_iff in H as [Hc _]. cbn [lstrip]. now rewrite (word_not_space c Hc). }
  rewrite Hl. induction s as [|c s IH]; [reflexivity|].
  cbn [all_chars] in H. apply andb_true_iff in H as [Hc H].
  rewrite rstrip_cons by now apply word_not_space. f_equal. apply IH; [exact H|].
  destruct s as [|d s]; [reflexivity|]. cbn [all_chars] in H.
  apply andb_true_iff in H as [Hd _]. cbn [lstrip]. now rewrite (word_not_space d Hd).
Qed.

(** Text that begins with a letter or an underscore. *)
Definition alpha_headed (s : string) : bool :=
  match s with String c _ => is_alpha_ c | EmptyString => false end.

Lemma plain_name_headed (s : string) : plain_name s = true -> alpha_headed s = true.
Proof.
  unfold plain_name. destruct s; [discriminate|]. intros H.
  now apply andb_true_iff in H as [H _].
Qed.

(** What [_eval] finds at the head of such text. *)
Lemma name_head (s : string) :
  alpha_headed s = true ->
  nonempty s = true
  /\ _is_str_literal s = false
  /\ is_float_literal s = false
  /\ is_int_literal s = false
  /\ startswith_char "[" s = false
  /\ startswith_char "{" s = false
  /\ startswith_char "(" s = false.
Proof.
  destruct s as [|c r]; [discriminate|]. cbn [alpha_headed]. intros H.
  destruct c as [[] [] [] [] [] [] [] []]; vm_compute in H; try discriminate;
    repeat split; reflexivity.
Qed.

Lemma call_head_name (s : string) : plain_name s = true -> call_head s = None.
Proof.
  unfold plain_name, call_head. destruct s as [|c r]; [discriminate|]. intros H.
  apply andb_true_iff in H as [-> Hw].
  rewrite (span_all is_word_dot (String c r))
    by (apply (all_chars_impl is_word); [intros x Hx; unfold is_word_dot; now rewrite Hx | exact Hw]).
  reflexivity.
Qed.

Lemma plain_name_word (s : string) : plain_name s = true -> all_chars is_word s = true.
Proof.
  unfold plain_name. destruct s; [discriminate|]. intros H.
  now apply andb_true_iff in H as [_ H].
Qed.

Lemma starts_not_word (s : string) : all_chars is_word s = true -> starts_not s = false.
Proof.
  intros H. unfold starts_not. destruct (startswith "not" s); [|reflexivity].
  pose proof (all_chars_slice_from is_word 3 s H) as H3.
  destruct (slice_from 3 s) as [|c r]; [reflexivity|].
  cbn [all_chars] in H3. apply andb_true_iff in H3 as [Hc _].
  now rewrite (word_not_space c Hc).
Qed.

(** The words [_eval] reads as literals. *)
Definition literal_words : list string := ["true"; "false"; "null"; "None"].

Lemma eval_plain_name (fuel : nat) (name : string) (st : state) :
  plain_name name = true -> name ∉ literal_words ->
  _eval (S fuel) name st = (Ok (default (VStr name) (env st !! name)), st).
Proof.
  intros Hp Hl. pose proof (plain_name_word name Hp) as Hw.
  assert (Hlit : forall k, k ∈ literal_words -> String.eqb name k = false).
  { intros k Hk. apply String.eqb_neq. now intros ->. }
  cbn [_eval]. unfold _eval_body. rewrite (strip_word name Hw).
  rewrite !Hlit by by_decision. rewrite (starts_not_word name Hw).
  destruct (name_head name (plain_name_headed name Hp)) as (-> & -> & -> & -> & -> & -> & ->).
  cbn [negb orb andb].
  unfold try_call. rewrite (call_head_name name Hp). unfold bind at 1, ret at 1.
  unfold eval_operators, first_op, first_additive.
  rewrite (find_ternary_word name Hw).
  rewrite !(find_binary_op_word name) by (exact Hw || reflexivity).
  rewrite !(contains_char_word _ name Hw) by reflexivity.
  cbn [andb]. unfold bind, ret, get_env. now destruct (env st !! name).
Qed.

(** X17: a name evaluates to the value bound to it, and a name that is
    not bound evaluates to its own text, as a string: an unknown
    identifier is no error. *)
Theorem eval_name (fuel : nat) (name : string) (st : state) :
  plain_name name = true -> name ∉ literal_words ->
  _eval (S fuel) name st = (Ok (default (VStr name) (env st !! name)), st).
Proof. apply eval_plain_name. Qed.

Definition st_total : state := with_env (<["total" := VInt 7]> ∅) initial.

Lemma eval_name_witness :
  _eval 1 "total" st_total = (Ok (default (VStr "total") (env st_total !! "total")), st_total).
Proof. apply (eval_name 0 "total" st_total); [reflexivity | by_decision]. Defined.

(** ** The signals of [break] and [continue] *)

(** The two exceptions the loops catch. *)
Definition is_signal (e : exn) : bool :=
  match e with BreakSignal | ContinueSignal => true | _ => false end.

(** An outcome other than the two loop signals. *)
Definition no_signal {A} (r : outcome A) : Prop :=
  match r with Raise e => is_signal e = false | _ => True end.

(** A computation that raises neither signal. *)
Definition quiet {A} (m : M A) : Prop := forall st, no_signal (m st).1.

Lemma quiet_ret {A} (a : A) : quiet (ret a).
Proof. now intros st. Qed.

Lemma quiet_raise {A} (e : exn) : is_signal e = false -> quiet (@raise A e).
Proof. now intros H st. Qed.

Lemma quiet_out_of_fuel {A} : quiet (@out_of_fuel A).
Proof. now intros st. Qed.

Lemma quiet_unmodelled {A} : quiet (@unmodelled A).
Proof. now intros st. Qed.

Lemma quiet_lift {A} (o : outcome A) : no_signal o -> quiet (lift o).
Proof. now intros H st. Qed.

Lemma quiet_lift_depth {A} (o : option A) : quiet (lift_depth o).
Proof. now destruct o; intros st. Qed.

Lemma quiet_bind {A B} (m : M A) (k : A -> M B) :
  quiet m -> (forall a, quiet (k a)) -> quiet (bind m k).
Proof.
  intros Hm Hk st. unfold bind. specialize (Hm st).
  destruct (m st) as [[a|e| |] st']; cbn in *; try exact I; [apply Hk | exact Hm].
Qed.

Lemma quiet_catch {A} (m : M A) (handler : exn -> M A) :
  quiet m -> (forall e, is_signal e = false -> quiet (handler e)) ->
  quiet (catch m handler).
Proof.
  intros Hm Hh st. unfold catch. specialize (Hm st).
  destruct (m st) as [[a|e| |] st']; cbn in *; try exact I. now apply Hh.
Qed.

(** The handler of a loop takes the signals, whatever the body does. *)
Lemma quiet_signals (body : M unit) : quiet (loop_signals body).
Proof.
  intros st. unfold loop_signals, catch, bind.
  destruct (body st) as [[a|e| |] st']; cbn; try exact I.
  now destruct e.
Qed.

Lemma quiet_finally_env {A} (m : M A) (saved : gmap string value) :
  quiet m -> quiet (finally_env m saved).
Proof. intros H st. unfold finally_env. specialize (H st). now destruct (m st). Qed.

Lemma quiet_mapM {A B} (f : A -> M B) (l : list A) :
  (forall a, quiet (f a)) -> quiet (mapM f l).
Proof.
  intros Hf. induction l as [|x l IH]; cbn [mapM].
  - apply quiet_ret.
  - apply quiet_bind; [apply Hf|]. intros y.
    apply quiet_bind; [apply IH|]. intros ys. apply quiet_ret.
Qed.

Lemma quiet_forM_ {A} (f : A -> M unit) (l : list A) :
  (forall a, quiet (f a)) -> quiet (forM_ f l).
Proof.
  intros Hf. induction l as [|x l IH]; cbn [forM_].
  - apply quiet_ret.
  - apply quiet_bind; [apply Hf|]. intros _. apply IH.
Qed.

Lemma quiet_get_state : quiet get_state.
Proof. now intros st. Qed.

Lemma quiet_get_env : quiet get_env.
Proof. now intros st. Qed.

Lemma quiet_put_env (e : gmap string value) : quiet (put_env e).
Proof. now intros st. Qed.

Lemma quiet_get_heap : quiet get_heap.
Proof. now intros st. Qed.

Lemma quiet_assign (name : string) (v : value) : quiet (assign name v).
Proof. now intros st. Qed.

Lemma quiet_emit (line : string) : quiet (emit line).
Proof. now intros st. Qed.

Lemma quiet_alloc (o : obj) : quiet (alloc o).
Proof. now intros st. Qed.

Lemma quiet_store (l : loc) (o : obj) : quiet (store l o).
Proof. now intros st. Qed.

Lemma quiet_define_fn (name : string) (fn : fn_def) : quiet (define_fn name fn).
Proof. now intros st. Qed.

Lemma no_signal_ok {A} (a : A) : no_signal (Ok a).
Proof. exact I. Qed.

Lemma no_signal_parse_call (text : string) : no_signal (parse_call text).
Proof.
  unfold parse_call.
  repeat match goal with
         | |- context [match ?x with _ => _ end] => destruct x
         end; easy.
Qed.

Lemma no_signal_split_statements (text : string) : no_signal (split_statements text).
Proof.
  unfold split_statements. destruct (negb (nonempty (strip text))); [exact I|].
  destruct (split_loop_total (S (len text)) text O [] EmptyString 0 false None) as [ps ->];
    [lia | exact I].
Qed.

Lemma no_signal_extract_block (text : string) : no_signal (_extract_block text).
Proof.
  unfold _extract_block.
  repeat match goal with
         | |- context [match ?x with _ => _ end] => destruct x
         end; easy.
Qed.

Lemma no_signal_extract_condition (text : string) : no_signal (_extract_condition text).
Proof.
  unfold _extract_condition.
  repeat match goal with
         | |- context [match ?x with _ => _ end] => destruct x
         end; easy.
Qed.

Lemma no_signal_first_block (rest : string) : no_signal (first_block rest).
Proof.
  unfold first_block. destruct (index_char "{" rest); [|easy].
  pose proof (no_signal_extract_block (slice_from n rest)) as H.
  now destruct (_extract_block (slice_from n rest)).
Qed.

Lemma no_signal_compare (d : nat) (h : list obj) (a b : value) (op : string) :
  no_signal (_compare d h a b op).
Proof.
  pose proof (compare_never_raises d h a b op) as H.
  destruct (_compare d h a b op) as [x|e| |]; try exact I. now destruct (H e).
Qed.

Lemma no_signal_py_order (d : nat) (h : list obj) (op : order_op) (a b : value) :
  no_signal (py_order d h op a b).
Proof.
  destruct (py_order d h op a b) as [x|e| |] eqn:E; try exact I.
  apply py_order_raises in E. now subst e.
Qed.

Create HintDb quiet.

#[local] Hint Resolve quiet_ret quiet_out_of_fuel quiet_unmodelled quiet_lift_depth
  quiet_get_state quiet_get_env quiet_put_env quiet_get_heap quiet_assign quiet_emit
  quiet_alloc quiet_store quiet_define_fn no_signal_ok no_signal_parse_call
  no_signal_split_statements no_signal_extract_block no_signal_extract_condition
  no_signal_first_block no_signal_compare no_signal_py_order : quiet.

(** One step of a proof of [quiet]. *)
Ltac quiet_step :=
  match goal with
  | |- quiet (bind _ _) => apply quiet_bind; [|intros]
  | |- quiet (catch _ _) => apply quiet_catch; [|intros]
  | |- quiet (mapM _ _) => apply quiet_mapM; intros
  | |- quiet (forM_ _ _) => apply quiet_forM_; intros
  | |- quiet (finally_env _ _) => apply quiet_finally_env
  | |- quiet (lift _) => apply quiet_lift; solve [auto with quiet]
  | |- quiet (raise _) => apply quiet_raise; (reflexivity || assumption)
  | |- quiet (match ?x with _ => _ end) => destruct x
  | |- quiet _ => solve [auto with quiet]
  end.

Ltac quiet := repeat quiet_step.

Section QuietBodies.

Variable depth : nat.
Variable eval : string -> M value.
Variable run_stmt : string -> M value.
Variable run_call : string -> list string -> M value.
Hypothesis eval_quiet : forall expr, quiet (eval expr).
Hypothesis run_stmt_quiet : forall stmt, quiet (run_stmt stmt).
Hypothesis run_call_quiet : forall name args, quiet (run_call name args).

#[local] Hint Resolve eval_quiet run_stmt_quiet run_call_quiet : quiet.

Lemma quiet_truth (v : value) : quiet (truth v).
Proof. unfold truth. quiet. Qed.

Lemma quiet_to_str (v : value) : quiet (to_str depth v).
Proof. unfold to_str. quiet. Qed.

Lemma quiet_items_of (l : loc) : quiet (items_of l).
Proof. unfold items_of. quiet. Qed.

Lemma quiet_entries_of (l : loc) : quiet (entries_of l).
Proof. unfold entries_of. quiet. Qed.

Lemma quiet_new_list (xs : list value) : quiet (new_list xs).
Proof. unfold new_list. quiet. Qed.

Lemma quiet_new_dict (es : list (value * value)) : quiet (new_dict es).
Proof. unfold new_dict. quiet. Qed.

#[local] Hint Resolve quiet_truth quiet_to_str quiet_items_of quiet_entries_of
  quiet_new_list quiet_new_dict : quiet.

Lemma quiet_py_add (a b : value) : quiet (py_add a b).
Proof. unfold py_add. quiet. Qed.

Lemma quiet_py_sub (a b : value) : quiet (py_sub a b).
Proof. unfold py_sub. quiet. Qed.

Lemma quiet_py_mul (a b : value) : quiet (py_mul a b).
Proof. unfold py_mul. quiet. Qed.

Lemma quiet_py_floordiv (a b : value) : quiet (py_floordiv a b).
Proof. unfold py_floordiv. quiet. Qed.

Lemma quiet_py_mod (a b : value) : quiet (py_mod a b).
Proof. unfold py_mod. quiet. Qed.

Lemma quiet_py_truediv (a b : value) : quiet (py_truediv a b).
Proof. unfold py_truediv. quiet. Qed.

Lemma quiet_py_pow (a b : value) : quiet (py_pow a b).
Proof. unfold py_pow. quiet. Qed.

Lemma quiet_compare (a b : value) (op : string) : quiet (compare depth a b op).
Proof. unfold compare. quiet. Qed.

#[local] Hint Resolve quiet_py_add quiet_py_sub quiet_py_mul quiet_py_floordiv quiet_py_mod
  quiet_py_truediv quiet_py_pow quiet_compare : quiet.

Lemma quiet_interpolate (segs : list segment) : quiet (interpolate depth eval segs).
Proof. induction segs as [|[c|k] segs IH]; cbn [interpolate]; quiet. Qed.

Lemma quiet_dict_pairs (pairs : list string) (result : list (value * value)) :
  quiet (dict_pairs eval pairs result).
Proof.
  revert result. induction pairs as [|p pairs IH]; intros result; cbn [dict_pairs]; quiet.
Qed.

Lemma quiet_member (cur : value) (p : string) : quiet (member cur p).
Proof. unfold member. quiet. Qed.

#[local] Hint Resolve quiet_interpolate quiet_dict_pairs quiet_member : quiet.

Lemma quiet_walk_path (ps : list string) (cur : value) : quiet (walk_path cur ps).
Proof.
  revert cur. induction ps as [|p ps IH]; intros cur; cbn [walk_path]; quiet.
Qed.

Lemma quiet_walk_receiver (attrs : list string) (obj : value) :
  quiet (walk_receiver obj attrs).
Proof.
  revert obj. induction attrs as [|a attrs IH]; intros obj; cbn [walk_receiver]; quiet.
Qed.

Lemma quiet_eval_subscript_chain (expr : string) : quiet (_eval_subscript_chain eval expr).
Proof. unfold _eval_subscript_chain. quiet. Qed.

Lemma quiet_eval_dict (expr : string) : quiet (_eval_dict eval expr).
Proof. unfold _eval_dict. quiet. Qed.

Lemma quiet_try_call (expr : string) : quiet (try_call run_call expr).
Proof. unfold try_call. quiet. Qed.

#[local] Hint Resolve quiet_walk_path quiet_walk_receiver quiet_eval_subscript_chain
  quiet_eval_dict quiet_try_call : quiet.

Lemma quiet_eval_operators (expr : string) : quiet (eval_operators depth eval expr).
Proof. unfold eval_operators. quiet. Qed.

Lemma quiet_eval_body (expr : string) : quiet (_eval_body depth eval run_call expr).
Proof.
  unfold _eval_body, eval_str_literal. pose proof quiet_eval_operators. quiet.
Qed.

Lemma quiet_opt_arg (i : nat) (args : list string) (dflt : value) :
  quiet (opt_arg eval i args dflt).
Proof. unfold opt_arg. quiet. Qed.

Lemma quiet_arg0 (args : list string) : quiet (arg0 eval args).
Proof. unfold arg0. quiet. Qed.

Lemma quiet_to_int (v : value) : quiet (to_int v).
Proof. unfold to_int. quiet. Qed.

Lemma quiet_order (op : order_op) (a b : value) : quiet (order depth op a b).
Proof. unfold order. quiet. Qed.

Lemma quiet_iterate (v : value) : quiet (iterate v).
Proof. unfold iterate. quiet. Qed.

Lemma quiet_list_append (l : loc) (item : value) : quiet (list_append l item).
Proof. unfold list_append. quiet. Qed.

#[local] Hint Resolve quiet_opt_arg quiet_arg0 quiet_to_int quiet_order quiet_iterate
  quiet_list_append : quiet.

Lemma quiet_sum_values (xs : list value) (acc : Z) : quiet (sum_values acc xs).
Proof.
  revert acc. induction xs as [|x xs IH]; intros acc; cbn [sum_values]; quiet.
Qed.

Lemma quiet_extreme (op : order_op) (rest : list value) (cur : value) :
  quiet (extreme depth op cur rest).
Proof.
  revert cur. induction rest as [|x rest IH]; intros cur; cbn [extreme]; quiet.
Qed.

Lemma quiet_extreme_args (op : order_op) (args : list string) (cur : value) :
  quiet (extreme_args depth eval op cur args).
Proof.
  revert cur. induction args as [|a args IH]; intros cur; cbn [extreme_args]; quiet.
Qed.

#[local] Hint Resolve quiet_sum_values quiet_extreme quiet_extreme_args : quiet.

Lemma quiet_extreme_call (op : order_op) (args : list string) :
  quiet (extreme_call depth eval op args).
Proof. unfold extreme_call. quiet. Qed.

Lemma quiet_dotted_call (name : string) (args : list string) :
  quiet (dotted_call eval name args).
Proof. unfold dotted_call. quiet. Qed.

Lemma quiet_run_nonempty (st : string) : quiet (run_nonempty run_stmt st).
Proof. unfold run_nonempty. quiet. Qed.

#[local] Hint Resolve quiet_run_nonempty : quiet.

Lemma quiet_run_block (body_text : string) : quiet (_run_block run_stmt body_text).
Proof. unfold _run_block. quiet. Qed.

#[local] Hint Resolve quiet_run_block : quiet.

Lemma quiet_run_fn_body (body_text : string) : quiet (run_fn_body run_stmt body_text).
Proof. unfold run_fn_body. quiet. Qed.

#[local] Hint Resolve quiet_run_fn_body : quiet.

Lemma quiet_call_user (fn : fn_def) (args : list string) :
  quiet (call_user eval run_stmt fn args).
Proof. unfold call_user. quiet. Qed.

Lemma quiet_user_or_unknown (name : string) (args : list string) :
  quiet (user_or_unknown eval run_stmt name args).
Proof. unfold user_or_unknown, unknown_call. pose proof quiet_call_user. quiet. Qed.

#[local] Hint Resolve quiet_extreme_call quiet_dotted_call quiet_user_or_unknown : quiet.

Lemma quiet_run_call_body (name : string) (args : list string) :
  quiet (_run_call_body depth eval run_stmt name args).
Proof. unfold _run_call_body. quiet. Qed.

#[local] Hint Resolve quiet_signals : quiet.

Lemma quiet_while_loop (cond : M value) (body : M unit) (guard : nat) :
  quiet cond -> quiet (while_loop cond body guard).
Proof.
  intros Hc. induction guard as [|g IH]; cbn [while_loop]; quiet.
Qed.

Lemma quiet_for_loop (cond : option (M value)) (body post : M unit) (guard : nat) :
  (forall c, cond = Some c -> quiet c) -> quiet post ->
  quiet (for_loop cond body post guard).
Proof.
  intros Hc Hp. induction guard as [|g IH]; cbn [for_loop];
    (apply quiet_bind; [destruct cond as [c|]; [specialize (Hc c eq_refl)|]; quiet|]);
    intros; quiet.
Qed.

Lemma quiet_for_in_list (n : nat) (var : string) (l : loc) (body : M unit) (i : nat) :
  quiet (for_in_list n var l i body).
Proof.
  revert i. induction n as [|n IH]; intros i; cbn [for_in_list]; quiet.
Qed.

Lemma quiet_for_in_items (var : string) (items : list value) (body : M unit) :
  quiet (for_in_items var items body).
Proof. induction items as [|x items IH]; cbn [for_in_items]; quiet. Qed.

Lemma quiet_if_loop (n : nat) (remainder : string) : quiet (if_loop eval run_stmt n remainder).
Proof.
  revert remainder. induction n as [|n IH]; intros remainder; cbn [if_loop]; quiet.
Qed.

#[local] Hint Resolve quiet_while_loop quiet_for_loop quiet_for_in_list quiet_for_in_items
  quiet_if_loop : quiet.

Lemma quiet_run_if (s : string) : quiet (_run_if eval run_stmt s).
Proof. unfold _run_if. quiet. Qed.

Lemma quiet_run_while (s : string) : quiet (_run_while eval run_stmt s).
Proof. unfold _run_while, _run_while_counted. quiet. Qed.

Lemma quiet_opt_stmt (text : string) : quiet (opt_stmt run_stmt text).
Proof. unfold opt_stmt. quiet. Qed.

#[local] Hint Resolve quiet_opt_stmt : quiet.

Lemma quiet_for_c_loop (init_s cond_s post_s body : string) :
  quiet (for_c_loop eval run_stmt init_s cond_s post_s body).
Proof.
  unfold for_c_loop. apply quiet_bind; [quiet|]. intros _.
  apply quiet_for_loop; [|quiet]. unfold opt_cond. intros c.
  destruct (nonempty cond_s); [intros [= <-]; quiet | discriminate].
Qed.

Lemma quiet_run_for (s : string) : quiet (_run_for depth eval run_stmt s).
Proof.
  unfold _run_for, run_for_c. pose proof quiet_for_c_loop.
  destruct (match_for_in _) as [[var coll]|]; [quiet|].
  destruct (match_for_c _) as [m|]; cbn [fmap option_fmap option_map]; quiet.
Qed.

Lemma quiet_run_undeploy (s : string) : quiet (_run_undeploy s).
Proof. unfold _run_undeploy. quiet. Qed.

Lemma quiet_compound (op : string) (cur rval : value) : quiet (compound op cur rval).
Proof. unfold compound. quiet. Qed.

#[local] Hint Resolve quiet_run_if quiet_run_while quiet_run_for quiet_run_undeploy
  quiet_compound : quiet.

Lemma quiet_run_stmt_body (stmt : string) : quiet (_run_stmt_body depth eval run_stmt stmt).
Proof.
  unfold _run_stmt_body.
  destruct (match_fn _) as [[[fname params_raw] body_raw]|]; [quiet|].
  repeat match goal with
         | |- quiet (if ?c then _ else _) => destruct c
         end; quiet.
Qed.

End QuietBodies.

Lemma interpreter_quiet (fuel : nat) :
  (forall expr, quiet (_eval fuel expr))
  /\ (forall name args, quiet (_run_call fuel name args))
  /\ (forall stmt, quiet (_run_stmt fuel stmt)).
Proof.
  induction fuel as [|f (IHe & IHc & IHs)].
  - repeat split; intros; apply quiet_out_of_fuel.
  - split; [|split]; intros.
    + exact (quiet_eval_body f (_eval f) (_run_call f) IHe IHc expr).
    + exact (quiet_run_call_body f (_eval f) (_run_stmt f) IHe IHs name args).
    + exact (quiet_run_stmt_body f (_eval f) (_run_stmt f) IHe IHs stmt).
Qed.

(** X18: no statement, expression or call raises the signal of [break]
    or of [continue]: the handlers the loops have for them are never
    entered.  A statement [break] is the name [break], looked up like
    any other, and so is [continue]. *)
Theorem no_break_no_continue (fuel : nat) (st : state) :
  (forall stmt, no_signal (_run_stmt fuel stmt st).1)
  /\ (forall expr, no_signal (_eval fuel expr st).1)
  /\ (forall name args, no_signal (_run_call fuel name args st).1)
  /\ _run_stmt (2 + fuel) "break" st = (Ok (default (VStr "break") (env st !! "break")), st)
  /\ _run_stmt (2 + fuel) "continue" st
     = (Ok (default (VStr "continue") (env st !! "continue")), st).
Proof.
  destruct (interpreter_quiet fuel) as (He & Hc & Hs).
  split; [intros; apply Hs|]. split; [intros; apply He|]. split; [intros; apply Hc|].
  split.
  - cbn [_run_stmt Nat.add]. run_text. apply eval_plain_name; [reflexivity | by_decision].
  - cbn [_run_stmt Nat.add]. run_text. apply eval_plain_name; [reflexivity | by_decision].
Qed.

(** ** The top level *)

(** The state [run] goes on in after it has caught [e] at the top
    level: a [return] is dropped silently, every other exception is
    reported. *)
Definition caught (e : exn) (st : state) : state :=
  match e with
  | ReturnSignal _ => st
  | _ => with_output (output st ++ [Reported e]) st
  end.

Lemma run_joined (fuel : nat) (stmts : list string) (st : state) :
  Forall statement_text stmts ->
  run fuel (join nl stmts) st = forM_ (run_top fuel) stmts st.
Proof. intros H. unfold run, bind, lift. now rewrite (split_joined stmts H). Qed.

Lemma run_top_raise (fuel : nat) (s : string) (st st1 : state) (e : exn) :
  trimmed s -> _run_stmt fuel s st = (Raise e, st1) ->
  run_top fuel s st = (Ok tt, caught e st1).
Proof.
  intros [Hn Hs] H. unfold run_top. rewrite Hs, Hn. unfold catch, bind. rewrite H.
  now destruct e.
Qed.

Lemma run_top_ok (fuel : nat) (s : string) (st st1 : state) (v : value) :
  trimmed s -> _run_stmt fuel s st = (Ok v, st1) -> run_top fuel s st = (Ok tt, st1).
Proof.
  intros [Hn Hs] H. unfold run_top. rewrite Hs, Hn. unfold catch, bind. now rewrite H.
Qed.

(** X19: an exception in a statement of a script does not end the
    script.  [run] reports it (a [return] at the top level is dropped
    silently) and goes on with the next statement, in the state the
    failed statement left; after a statement that completes it goes on
    in the state that statement left. *)
Theorem run_continues_after_error (fuel : nat) (s : string) (stmts : list string)
    (st : state) :
  statement_text s -> Forall statement_text stmts ->
  (forall e st1, _run_stmt fuel s st = (Raise e, st1) ->
     run fuel (join nl (s :: stmts)) st = run fuel (join nl stmts) (caught e st1))
  /\ (forall v st1, _run_stmt fuel s st = (Ok v, st1) ->
        run fuel (join nl (s :: stmts)) st = run fuel (join nl stmts) st1).
Proof.
  intros Hs Hall. split.
  - intros e st1 H.
    rewrite (run_joined fuel (s :: stmts) st (Forall_cons_2 _ _ _ Hs Hall)),
      (run_joined fuel stmts _ Hall).
    cbn [forM_]. unfold bind at 1. now rewrite (run_top_raise fuel s st st1 e (proj1 Hs) H).
  - intros v st1 H.
    rewrite (run_joined fuel (s :: stmts) st (Forall_cons_2 _ _ _ Hs Hall)),
      (run_joined fuel stmts _ Hall).
    cbn [forM_]. unfold bind at 1. now rewrite (run_top_ok fuel s st st1 v (proj1 Hs) H).
Qed.

Lemma run_continues_after_error_witness :
  run 5 (join nl ["r = 1 % 0"; "print('after')"]) initial
  = run 5 (join nl ["print('after')"]) (caught ZeroDivisionError initial)
  /\ output (run 5 (join nl ["r = 1 % 0"; "print('after')"]) initial).2
     = [Reported ZeroDivisionError; Printed "after"].
Proof.
  assert (H : run 5 (join nl ["r = 1 % 0"; "print('after')"]) initial
              = run 5 (join nl ["print('after')"]) (caught ZeroDivisionError initial)).
  { apply (run_continues_after_error 5 "r = 1 % 0" ["print('after')"] initial).
    - repeat split; reflexivity.
    - repeat apply Forall_cons_2; try apply Forall_nil_2; repeat split; reflexivity.
    - reflexivity. }
  split; [exact H | reflexivity].
Defined.

(** ** Call expressions *)

(** The state of the scan of [_eval] for the closing parenthesis after
    it has read text whose parentheses are balanced, inside the
    parentheses of the call. *)
Lemma first_close_loop_nested (a : string) :
  forall n text pre post d0 d q,
    text = pre +:+ a +:+ post ->
    parens_nested d q a = true ->
    (forall qc, q = Some qc -> is_quote qc = true) ->
    (in_quote q = true -> prev_is_backslash (len pre) text = false) ->
    0 < d0 ->
    first_close_loop (len a + n) text (len pre) (d0 + Z.of_nat d) (in_quote q) q
    = first_close_loop n text (len pre + len a) d0 false None.
Proof.
  unfold parens_nested.
  induction a as [|c a IH]; intros n text pre post d0 d q Ht Ha Hqc Hprev Hd0.
  - cbn [pair_nested] in Ha. apply andb_true_iff in Ha as [Hd Hq].
    apply Nat.eqb_eq in Hd. apply bool_decide_eq_true in Hq. subst d q.
    cbn [len String.length Nat.add in_quote Z.of_nat]. now rewrite Nat.add_0_r, Z.add_0_r.
  - assert (Hg : get (len pre) text = Some c) by (rewrite Ht, app_cons; apply get_app_len).
    assert (Hnext : forall d' q',
               pair_nested "(" ")" d' q' a = true ->
               (forall qc, q' = Some qc -> is_quote qc = true) ->
               (in_quote q' = true -> Ascii.eqb c "\" = false) ->
               first_close_loop (len a + n) text (S (len pre)) (d0 + Z.of_nat d')
                 (in_quote q') q'
               = first_close_loop n text (len pre + len (String c a)) d0 false None).
    { intros d' q' Hw Hq' Hc. rewrite <- (len_snoc' pre c).
      rewrite (IH n text (snoc pre c) post d0 d' q');
        [| now rewrite snoc_app | exact Hw | exact Hq' | | exact Hd0].
      - rewrite len_snoc'. change (len (String c a)) with (S (len a)).
        now replace (S (len pre) + len a)%nat with (len pre + S (len a))%nat by lia.
      - intros Hin. unfold prev_is_backslash. rewrite len_snoc'.
        cbn [Nat.ltb Nat.leb Nat.sub andb].
        rewrite Nat.sub_0_r, Hg. apply bool_decide_eq_false. intros [= ->].
        now specialize (Hc Hin). }
    assert (Hnone : forall qc0 : ascii, @None ascii = Some qc0 -> is_quote qc0 = true)
      by discriminate.
    change (len (String c a) + n)%nat with (S (len a + n)).
    cbn [first_close_loop]. rewrite Hg. cbn [pair_nested] in Ha. unfold quote_step.
    destruct q as [qc|]; cbn [in_quote negb].
    + apply andb_true_iff in Ha as [Hb Ha]. apply negb_true_iff in Hb.
      specialize (Hprev eq_refl). rewrite Hprev. cbn [negb]. rewrite andb_true_r.
      pose proof (Hqc qc eq_refl) as Hquote.
      destruct (Ascii.eqb_spec c qc) as [->|Hne].
      * rewrite Hquote, bool_decide_eq_true_2 by reflexivity. now apply (Hnext d None).
      * destruct (is_quote c); [rewrite bool_decide_eq_false_2 by congruence|];
          now apply (Hnext d (Some qc)).
    + destruct (is_quote c) eqn:Hq.
      { apply (Hnext d (Some c) Ha); [now intros ? [= <-]|]. intros _. now apply quote_not_backslash. }
      destruct (Ascii.eqb c "(") eqn:Ho.
      { replace (d0 + Z.of_nat d + 1) with (d0 + Z.of_nat (S d)) by lia.
        now apply (Hnext (S d) None). }
      destruct (Ascii.eqb c ")") eqn:Hcl; [|now apply (Hnext d None)].
      destruct d as [|d']; [discriminate|].
      replace (d0 + Z.of_nat (S d') - 1) with (d0 + Z.of_nat d') by lia.
      replace (d0 + Z.of_nat d' =? 0) with false by (symmetry; apply Z.eqb_neq; lia).
      now apply (Hnext d' None).
Qed.

(** The name of a function or a method: [a-zA-Z_][a-zA-Z0-9_.]* *)
Definition dotted_name (name : string) : bool :=
  alpha_headed name && all_chars is_word_dot name.

Section CallText.

Variables (name : string) (args : list string).
Hypothesis name_ok : dotted_name name = true.
Hypothesis args_ok : Forall call_argument args.

Let inner : string := join ", " args.
Let text : string := call_text name args.

Lemma name_word_dot : all_chars is_word_dot name = true.
Proof. unfold dotted_name in name_ok. now apply andb_true_iff in name_ok as [_ H]. Qed.

Lemma name_is_call_name : call_name name.
Proof.
  unfold dotted_name in name_ok. apply andb_true_iff in name_ok as [Ha Hw].
  split; [now destruct name | exact Hw].
Qed.

Lemma text_headed : alpha_headed text = true.
Proof.
  unfold dotted_name in name_ok. apply andb_true_iff in name_ok as [Ha _].
  unfold text, call_text. now destruct name.
Qed.

Lemma text_shape : text = name +:+ String "(" (inner +:+ ")").
Proof. reflexivity. Qed.

Lemma text_not_literal (k : string) : k ∈ literal_words -> String.eqb text k = false.
Proof.
  intros Hk. apply String.eqb_neq. intros E.
  apply (f_equal (contains_char "(")) in E. rewrite text_shape, contains_char_app in E.
  cbn [contains_char Ascii.eqb Bool.eqb orb] in E. rewrite orb_true_r in E.
  unfold literal_words in Hk.
  repeat (apply elem_of_cons in Hk as [->|Hk]; [discriminate|]).
  now apply elem_of_nil in Hk.
Qed.

Lemma text_not_negation : starts_not text = false.
Proof.
  pose proof name_word_dot as Hw. rewrite text_shape. unfold starts_not, startswith.
  generalize (inner +:+ ")"). intros t.
  destruct name as [|a [|b [|c r]]]; rewrite ?app_cons, ?app_nil; cbn [String.prefix].
  - reflexivity.
  - now destruct (ascii_dec "n" a).
  - now destruct (ascii_dec "n" a), (ascii_dec "o" b).
  - cbn [slice_from]. destruct r as [|d r].
    + rewrite app_nil. cbn. apply andb_false_r.
    + rewrite app_cons. cbn [all_chars] in Hw.
      apply andb_true_iff in Hw as [_ Hw]. apply andb_true_iff in Hw as [_ Hw].
      apply andb_true_iff in Hw as [_ Hw]. apply andb_true_iff in Hw as [Hd _].
      destruct (word_dot_neutral d Hd) as (_ & _ & _ & ->). apply andb_false_r.
Qed.

Lemma text_call_head : call_head text = Some (len name + 0)%nat.
Proof.
  pose proof name_word_dot as Hw. pose proof text_headed as Hh.
  unfold call_head. destruct text as [|c r] eqn:E; [discriminate|].
  cbn [alpha_headed] in Hh. rewrite Hh, <- E, text_shape.
  rewrite (span_app is_word_dot name "(" (inner +:+ ")") Hw eq_refl).
  reflexivity.
Qed.

Lemma text_ends : endswith_char ")" text = true.
Proof.
  unfold endswith_char. rewrite text_shape.
  change (name +:+ String "(" (inner +:+ ")")) with (name +:+ "(" +:+ inner +:+ ")").
  now rewrite <- !app_assoc_str, last_snoc.
Qed.

Lemma text_len : len text = S (len name + S (len inner)).
Proof. rewrite text_shape, len_app. cbn [len String.length]. rewrite len_snoc. lia. Qed.

Lemma text_first_close : first_close text (len name + 0) = Some (len text - 1)%nat.
Proof.
  unfold first_close. rewrite Nat.add_0_r, text_len.
  replace (S (len name + S (len inner))) with (S (len inner + (1 + len name)))%nat by lia.
  cbn [first_close_loop].
  assert (Hg : get (len name) text = Some "("%char) by (rewrite text_shape; apply get_app_len).
  rewrite Hg. cbn [is_quote Ascii.eqb Bool.eqb orb negb].
  change (first_close_loop (len inner + (1 + len name)) text (S (len name)) (0 + 1) false None)
    with (first_close_loop (len inner + (1 + len name)) text (S (len name)) (1 + Z.of_nat 0)
            (in_quote None) None).
  rewrite <- (len_snoc name "(").
  rewrite (first_close_loop_nested inner (1 + len name) text (name +:+ "(") ")" 1 O None);
    [| | exact (parens_nested_join args args_ok) | discriminate | discriminate | lia].
  2:{ rewrite text_shape. now rewrite app_assoc_str. }
  cbn [Nat.add first_close_loop].
  assert (Hg' : get (len (name +:+ "(") + len inner) text = Some ")"%char).
  { rewrite <- len_app, text_shape.
    change (name +:+ String "(" (inner +:+ ")")) with (name +:+ "(" +:+ inner +:+ ")").
    rewrite <- !app_assoc_str. apply get_app_len. }
  rewrite Hg'. cbn [is_quote Ascii.eqb Bool.eqb orb negb]. change (1 - 1 =? 0) with true.
  cbv iota. f_equal. rewrite len_snoc. lia.
Qed.

(** The first branches of [_eval] pass the text of a call by; the call
    branch takes it, and what the call raises is dropped. *)
Lemma eval_call_text (fuel : nat) (st : state) :
  _eval (S fuel) text st
  = match _run_call fuel name args st with
    | (Raise _, st') => eval_operators fuel (_eval fuel) text st'
    | r => r
    end.
Proof.
  cbn [_eval]. unfold _eval_body.
  assert (Hs : strip text = text) by apply (strip_call name inner name_is_call_name).
  rewrite Hs. rewrite !text_not_literal by by_decision. rewrite text_not_negation.
  destruct (name_head text text_headed) as (-> & -> & -> & -> & -> & -> & ->).
  cbn [negb orb andb].
  unfold try_call. rewrite text_call_head, text_ends, text_first_close.
  rewrite bool_decide_eq_true_2 by reflexivity. cbn [andb].
  unfold text at 1. rewrite (parse_call_text name args name_is_call_name args_ok).
  unfold bind, catch, lift, ret. cbn [fst snd].
  now destruct (_run_call fuel name args st) as [[v|e| |] st'].
Qed.

End CallText.

(** X20: an expression written as a call, a name with its arguments in
    parentheses, is the call of that name on those arguments.  What the
    call raises does not leave the expression: the text is then read
    again, as an expression of operators, in the state the call left. *)
Theorem eval_call (fuel : nat) (name : string) (args : list string) (st : state) :
  dotted_name name = true -> Forall call_argument args ->
  _eval (S fuel) (call_text name args) st
  = match _run_call fuel name args st with
    | (Raise _, st') => eval_operators fuel (_eval fuel) (call_text name args) st'
    | r => r
    end.
Proof. intros Hn Ha. now apply eval_call_text. Qed.

Lemma eval_call_witness :
  _eval 3 (call_text "len" ["5"]) initial
  = match _run_call 2 "len" ["5"] initial with
    | (Raise _, st') => eval_operators 2 (_eval 2) (call_text "len" ["5"]) st'
    | r => r
    end.
Proof.
  apply (eval_call 2 "len" ["5"] initial); [reflexivity|].
  repeat apply Forall_cons_2; try apply Forall_nil_2; repeat split; reflexivity.
Defined.

(** X21: the call of a name that is neither a builtin nor a defined
    function prints a warning and is [None]; its arguments are not
    evaluated. *)
Theorem eval_unknown_function (fuel : nat) (name : string) (args : list string) (st : state) :
  plain_name name = true -> name ∉ builtin_names -> functions st !! name = None ->
  Forall call_argument args ->
  _eval (2 + fuel) (call_text name args) st
  = (Ok VNone, with_output (output st ++ [Printed ("[warn] Unknown function: " +:+ name)]) st).
Proof.
  intros Hp Hn Hf Ha.
  assert (Hd : dotted_name name = true).
  { unfold dotted_name. rewrite (plain_name_headed name Hp). cbn [andb].
    apply (all_chars_impl is_word); [|now apply plain_name_word].
    intros x Hx. unfold is_word_dot. now rewrite Hx. }
  cbn [Nat.add]. rewrite (eval_call_text name args Hd Ha (S fuel) st).
  cbn [_run_call]. unfold _run_call_body. not_builtin Hn. cbn [orb].
  rewrite (contains_char_word "." name (plain_name_word name Hp) eq_refl).
  unfold bind at 1, ret at 1. unfold user_or_unknown, bind at 1, get_state.
  rewrite Hf. reflexivity.
Qed.

Lemma eval_unknown_function_witness :
  _eval 2 (call_text "shout" ["1 / 0"; "x"]) initial
  = (Ok VNone,
     with_output (output initial ++ [Printed ("[warn] Unknown function: " +:+ "shout")]) initial).
Proof.
  apply (eval_unknown_function 0 "shout" ["1 / 0"; "x"] initial);
    [reflexivity | by_decision | reflexivity |].
  repeat apply Forall_cons_2; try apply Forall_nil_2; repeat split; reflexivity.
Defined.

(** ** Compound assignment *)

Lemma compound_op_shape (op : string) :
  op ∈ compound_ops ->
  exists c, op = String c "=" /\ is_word c = false /\ is_space c = false.
Proof.
  unfold compound_ops. intros H.
  repeat (apply elem_of_cons in H as [->|H]; [eexists; now repeat split|]).
  now apply elem_of_nil in H.
Qed.

Lemma run_compound (fuel : nat) (name ws1 op ws2 e : string) (st : state) :
  variable_name name -> op ∈ compound_ops ->
  all_chars is_space ws1 = true -> all_chars is_space ws2 = true -> trimmed e ->
  _run_stmt (S fuel) (name +:+ ws1 +:+ op +:+ ws2 +:+ e) st
  = (rval <- _eval fuel e ;;
     new <- compound op (default (VInt 0) (env st !! name)) rval ;;
     assign name new ;;; ret new) st.
Proof.
  intros Hn Hop H1 H2 He. pose proof Hop as Hin.
  apply compound_op_shape in Hop as (o & -> & Ho & Hos).
  set (tail := ws1 +:+ String o "=" +:+ ws2 +:+ e).
  assert (Hl : lstrip tail = String o (String "=" (ws2 +:+ e))).
  { unfold tail. now apply (lstrip_app ws1 o ("=" +:+ ws2 +:+ e)). }
  assert (Ht : exists c t, tail = String c t /\ is_word c = false).
  { unfold tail. destruct ws1 as [|c w].
    - exists o, ("=" +:+ ws2 +:+ e). now split.
    - exists c, (w +:+ String o "=" +:+ ws2 +:+ e). split; [reflexivity|].
      cbn [all_chars] in H1. apply andb_true_iff in H1 as [Hc _]. now apply space_not_word. }
  destruct Ht as (c & t & Ht & Hc).
  assert (Hs : strip (name +:+ tail) = name +:+ tail).
  { unfold strip. rewrite Ht at 1. rewrite (lstrip_name name c t Hn), <- Ht.
    unfold tail. rewrite <- !app_assoc_str.
    apply rstrip_app_fixed; [apply He | now apply trimmed_rstrip]. }
  change (name +:+ ws1 +:+ String o "=" +:+ ws2 +:+ e) with (name +:+ tail).
  rewrite Ht in Hs |- *. rewrite (run_stmt_name_first name c t Hn Hc fuel st Hs).
  unfold match_compound. rewrite (ident_name name c t Hn Hc), <- Ht, Hl.
  cbn [slice_to slice_from].
  assert (Hex : existsb (String.eqb (String o "=")) compound_ops = true).
  { clear -Hin. unfold compound_ops in *.
    repeat (apply elem_of_cons in Hin as [Hin|Hin]; [injection Hin as ->; reflexivity|]).
    now apply elem_of_nil in Hin. }
  rewrite Hex, (tail_group_expr ws2 e H2 He). cbn [fmap option_fmap option_map].
  destruct He as [_ He]. rewrite He.
  unfold bind at 1, get_env at 1. reflexivity.
Qed.

(** X22: a compound assignment reads the variable before it evaluates
    the right-hand side and takes 0 for a variable that is not bound:
    [name += e] on an unbound name binds it to the value of [e]. *)
Theorem compound_assignment (fuel : nat) (name ws1 op ws2 e : string) (st : state) :
  variable_name name -> op ∈ compound_ops ->
  all_chars is_space ws1 = true -> all_chars is_space ws2 = true -> trimmed e ->
  _run_stmt (S fuel) (name +:+ ws1 +:+ op +:+ ws2 +:+ e) st
  = (rval <- _eval fuel e ;;
     new <- compound op (default (VInt 0) (env st !! name)) rval ;;
     assign name new ;;; ret new) st
  /\ (forall n st', op = "+=" -> env st !! name = None -> _eval fuel e st = (Ok (VInt n), st') ->
      _run_stmt (S fuel) (name +:+ ws1 +:+ op +:+ ws2 +:+ e) st
      = (Ok (VInt n), with_env (<[name := VInt n]> (env st')) st')).
Proof.
  intros Hn Hop H1 H2 He. split; [now apply run_compound|].
  intros n st' -> Hu Hv. rewrite (run_compound fuel name ws1 "+=" ws2 e st Hn Hop H1 H2 He).
  unfold bind at 1. rewrite Hv, Hu. reflexivity.
Qed.

Lemma compound_assignment_witness :
  _run_stmt 2 ("count" +:+ " " +:+ "+=" +:+ " " +:+ "5") initial
  = (rval <- _eval 1 "5" ;;
     new <- compound "+=" (default (VInt 0) (env initial !! "count")) rval ;;
     assign "count" new ;;; ret new) initial
  /\ (forall n st', "+=" = "+=" -> env initial !! "count" = None ->
      _eval 1 "5" initial = (Ok (VInt n), st') ->
      _run_stmt 2 ("count" +:+ " " +:+ "+=" +:+ " " +:+ "5") initial
      = (Ok (VInt n), with_env (<["count" := VInt n]> (env st')) st')).
Proof.
  apply (compound_assignment 1 "count" " " "+=" " " "5" initial).
  - split; [reflexivity | split; [by_decision | reflexivity]].
  - by_decision.
  - reflexivity.
  - reflexivity.
  - split; reflexivity.
Defined.

(** ** [if] and [else] *)

(** The text of an [if] with an [else]. *)
Definition if_else_text (c a b : string) : string :=
  "if (" +:+ c +:+ ") {" +:+ a +:+ "} else {" +:+ b +:+ "}".

Lemma run_if_else (fuel : nat) (c a b : string) (st : state) :
  parens_nested 0 None c = true ->
  braces_nested 0 None a = true -> braces_nested 0 None b = true ->
  _run_stmt (S fuel) (if_else_text c a b) st
  = ((v <- _eval fuel c ;; t <- truth v ;;
      if t then _run_block (_run_stmt fuel) a else _run_block (_run_stmt fuel) b) ;;;
     ret VNone) st.
Proof.
  intros Hc Ha Hb. set (s := if_else_text c a b).
  assert (Hs : strip s = s).
  { unfold strip. change (lstrip s) with s. unfold s, if_else_text.
    rewrite <- !app_assoc_str. now apply rstrip_snoc. }
  cbn [_run_stmt]. unfold _run_stmt_body. rewrite Hs.
  change (match_fn s) with (@None (string * string * string)).
  change (starts_cond_keyword "if" s) with true. cbv iota.
  unfold _run_if. destruct (len s) as [|n] eqn:E; [discriminate E|].
  cbn [if_loop]. rewrite Hs.
  change (startswith "if" s) with true. change (startswith "else if" s) with false.
  cbn [orb].
  change (lstrip (slice_from 2 s))
    with ("(" +:+ c +:+ ")" +:+ (" {" +:+ a +:+ "} else {" +:+ b +:+ "}")).
  rewrite (extract_condition_text c _ Hc).
  unfold bind at 2, lift at 1. cbn [fst snd].
  change (lstrip (" {" +:+ a +:+ "} else {" +:+ b +:+ "}"))
    with ("{" +:+ a +:+ "}" +:+ (" else {" +:+ b +:+ "}")).
  rewrite (extract_block_text a _ Ha).
  unfold bind at 2, lift at 1. cbn [fst snd].
  assert (He : strip ("else {" +:+ b +:+ "}") = "else {" +:+ b +:+ "}").
  { unfold strip. change (lstrip ("else {" +:+ b +:+ "}")) with ("else {" +:+ b +:+ "}").
    rewrite <- !app_assoc_str. now apply rstrip_snoc. }
  assert (He' : strip (" else {" +:+ b +:+ "}") = "else {" +:+ b +:+ "}").
  { unfold strip. change (lstrip (" else {" +:+ b +:+ "}")) with ("else {" +:+ b +:+ "}").
    rewrite <- !app_assoc_str. now apply rstrip_snoc. }
  rewrite He', He.
  change (startswith "if" ("else {" +:+ b +:+ "}")) with false.
  change (startswith "else if" ("else {" +:+ b +:+ "}")) with false.
  change (startswith "else" ("else {" +:+ b +:+ "}")) with true.
  cbn [orb].
  change (lstrip (slice_from 4 ("else {" +:+ b +:+ "}"))) with ("{" +:+ b +:+ "}" +:+ "").
  rewrite (extract_block_text b _ Hb).
  reflexivity.
Qed.

(** X23: an [if] with an [else] runs one block: the condition is
    evaluated once, the first block is run when it is true and the
    second when it is not. *)
Theorem if_else (fuel : nat) (c a b : string) (st : state) :
  parens_nested 0 None c = true ->
  braces_nested 0 None a = true -> braces_nested 0 None b = true ->
  _run_stmt (S fuel) (if_else_text c a b) st
  = ((v <- _eval fuel c ;; t <- truth v ;;
      if t then _run_block (_run_stmt fuel) a else _run_block (_run_stmt fuel) b) ;;;
     ret VNone) st.
Proof. apply run_if_else. Qed.

Lemma if_else_witness :
  _run_stmt 6 (if_else_text "len(xs) > 0" " print('some') " " print('none') ") initial
  = ((v <- _eval 5 "len(xs) > 0" ;; t <- truth v ;;
      if t then _run_block (_run_stmt 5) " print('some') "
      else _run_block (_run_stmt 5) " print('none') ") ;;;
     ret VNone) initial.
Proof.
  apply (if_else 5 "len(xs) > 0" " print('some') " " print('none') " initial); reflexivity.
Defined.

(** ** Function definitions *)

(** The text of a function definition. *)
Definition fn_text (name : string) (ps : list string) (body : string) : string :=
  "fn " +:+ name +:+ "(" +:+ join ", " ps +:+ ") {" +:+ body +:+ "}".

Lemma ident_plain (name : string) (c : ascii) (t : string) :
  plain_name name = true -> is_word c = false ->
  ident (name +:+ String c t) = Some (name, String c t).
Proof.
  intros Hp Hc. pose proof (plain_name_word name Hp) as Hw.
  pose proof (plain_name_headed name Hp) as Hh.
  destruct name as [|n0 name']; [discriminate|]. cbn [alpha_headed] in Hh.
  rewrite app_cons. unfold ident. rewrite Hh, <- app_cons.
  now rewrite (span_app is_word _ c t Hw Hc).
Qed.

Lemma split_char_plain (c : ascii) (a : string) :
  contains_char c a = false -> split_char c a = [a].
Proof.
  induction a as [|x a IH]; intros H; [reflexivity|].
  cbn [contains_char] in H. apply orb_false_iff in H as [Hx H].
  cbn [split_char]. now rewrite (IH H), Hx.
Qed.

Lemma split_char_app (c : ascii) (a t : string) :
  contains_char c a = false -> split_char c (a +:+ String c t) = a :: split_char c t.
Proof.
  induction a as [|x a IH]; intros H.
  - rewrite app_nil. cbn [split_char]. rewrite Ascii.eqb_refl.
    destruct (split_char c t) eqn:E; [|reflexivity].
    exfalso. clear -E. destruct t; cbn in E; [discriminate|].
    destruct (split_char c t); [discriminate|]. now destruct (Ascii.eqb c a).
  - cbn [contains_char] in H. apply orb_false_iff in H as [Hx H].
    rewrite app_cons. cbn [split_char]. now rewrite (IH H), Hx.
Qed.

Definition param (p : string) : Prop := plain_name p = true.

Lemma param_trimmed (p : string) : param p -> trimmed p.
Proof.
  intros Hp. split; [now destruct p | apply strip_word, plain_name_word, Hp].
Qed.

Lemma param_names_join (ps : list string) :
  Forall param ps -> param_names (join ", " ps) = ps.
Proof.
  unfold param_names. intros Hall. destruct ps as [|x tl]; [reflexivity|].
  revert x Hall. induction tl as [|y tl IH]; intros x Hall.
  - apply Forall_cons in Hall as [Hx _]. cbn [join].
    rewrite (split_char_plain "," x)
      by (apply contains_char_word; [now apply plain_name_word | reflexivity]).
    cbn [map]. destruct (param_trimmed x Hx) as [Hn ->].
    now rewrite filter_cons_True by exact Hn.
  - apply Forall_cons in Hall as [Hx Htl]. rewrite join_cons.
    change (", " +:+ join ", " (y :: tl)) with (String "," (" " +:+ join ", " (y :: tl))).
    rewrite (split_char_app "," x)
      by (apply contains_char_word; [now apply plain_name_word | reflexivity]).
    cbn [map]. destruct (param_trimmed x Hx) as [Hn Hs]. rewrite Hs.
    rewrite filter_cons_True by exact Hn. f_equal.
    specialize (IH y Htl).
    assert (E : map strip (split_char "," (" " +:+ join ", " (y :: tl)))
                = map strip (split_char "," (join ", " (y :: tl)))).
    { apply Forall_cons in Htl as [Hy _].
      assert (Hc : contains_char "," y = false)
        by (apply contains_char_word; [now apply plain_name_word | reflexivity]).
      assert (Hy' : strip (" " +:+ y) = strip y).
      { destruct (param_trimmed y Hy) as [_ ->].
        apply (strip_lead " " y eq_refl (param_trimmed y Hy)). }
      destruct tl as [|z tl].
      - cbn [join]. rewrite (split_char_plain "," y Hc).
        rewrite (split_char_plain "," (" " +:+ y)) by (now rewrite app_cons, app_nil).
        cbn [map]. now rewrite Hy'.
      - rewrite join_cons.
        change (", " +:+ join ", " (z :: tl)) with (String "," (" " +:+ join ", " (z :: tl))).
        rewrite <- app_assoc_str.
        rewrite (split_char_app "," y _ Hc).
        rewrite (split_char_app "," (" " +:+ y)) by (now rewrite app_cons, app_nil).
        cbn [map]. now rewrite Hy'. }
    rewrite E. exact IH.
Qed.

Lemma no_paren_join (ps : list string) :
  Forall param ps ->
  all_chars (fun c => negb (Ascii.eqb c ")")) (join ", " ps) = true.
Proof.
  intros Hall. induction ps as [|x tl IH]; [reflexivity|].
  apply Forall_cons in Hall as [Hx Htl].
  assert (Hp : all_chars (fun c => negb (Ascii.eqb c ")")) x = true).
  { apply (all_chars_impl is_word); [|now apply plain_name_word].
    intros c Hc. destruct (Ascii.eqb_spec c ")") as [->|]; [discriminate | reflexivity]. }
  destruct tl as [|y tl]; [exact Hp|].
  rewrite join_cons, !all_chars_app, Hp, (IH Htl). reflexivity.
Qed.

Lemma run_fn_text (fuel : nat) (name : string) (ps : list string) (body : string)
    (st : state) :
  plain_name name = true -> Forall param ps ->
  _run_stmt (S fuel) (fn_text name ps body) st
  = (Ok VNone, with_functions (<[name := FnDef ps (strip body)]> (functions st)) st).
Proof.
  intros Hn Hps. set (s := fn_text name ps body).
  assert (Hs : strip s = s).
  { unfold strip. change (lstrip s) with s. unfold s, fn_text.
    rewrite <- !app_assoc_str. now apply rstrip_snoc. }
  assert (Hm : match_fn s = Some (name, join ", " ps, body)).
  { unfold match_fn. change (startswith "fn" s) with true. cbv iota.
    pose proof (plain_name_headed name Hn) as Hh.
    destruct name as [|n0 name'] eqn:En; [discriminate|]. cbn [alpha_headed] in Hh.
    change (slice_from 2 s)
      with (" " +:+ String n0 (name' +:+ "(" +:+ join ", " ps +:+ ") {" +:+ body +:+ "}")).
    rewrite (span_app is_space " " n0 _ eq_refl (word_not_space n0 (alpha_is_word n0 Hh))).
    cbn [nonempty]. rewrite <- app_cons, <- En.
    change (name +:+ "(" +:+ join ", " ps +:+ ") {" +:+ body +:+ "}")
      with (name +:+ String "(" (join ", " ps +:+ ") {" +:+ body +:+ "}")).
    rewrite (ident_plain name "(" _ (eq_trans (f_equal plain_name En) Hn) eq_refl).
    cbn [lstrip]. change (is_space "(") with false. cbv iota.
    change (join ", " ps +:+ ") {" +:+ body +:+ "}")
      with (join ", " ps +:+ String ")" (" {" +:+ body +:+ "}")).
    rewrite (span_app _ (join ", " ps) ")" _ (no_paren_join ps Hps) eq_refl).
    change (lstrip (" {" +:+ body +:+ "}")) with (String "{" (body +:+ "}")).
    unfold endswith_char. rewrite last_snoc, drop_last_snoc. reflexivity. }
  cbn [_run_stmt]. unfold _run_stmt_body. rewrite Hs, Hm.
  assert (Hj : strip (join ", " ps) = join ", " ps).
  { apply strip_join. eapply Forall_impl; [exact Hps|]. apply param_trimmed. }
  rewrite Hj, (param_names_join ps Hps). reflexivity.
Qed.

(** X24: a function definition stores the names of the parameters and
    the text between the first brace and the last, stripped, under the
    name of the function; the body is not read until the function is
    called, and whatever the name was bound to before is replaced. *)
Theorem define_function (fuel : nat) (name : string) (ps : list string) (body : string)
    (st : state) :
  plain_name name = true -> Forall param ps ->
  _run_stmt (S fuel) (fn_text name ps body) st
  = (Ok VNone, with_functions (<[name := FnDef ps (strip body)]> (functions st)) st).
Proof. apply run_fn_text. Qed.

Lemma define_function_witness :
  _run_stmt 1 (fn_text "area" ["w"; "h"] " return w * h } } ") initial
  = (Ok VNone,
     with_functions (<["area" := FnDef ["w"; "h"] (strip " return w * h } } ")]>
                       (functions initial)) initial).
Proof.
  apply (define_function 0 "area" ["w"; "h"] " return w * h } } " initial); [reflexivity|].
  repeat apply Forall_cons_2; try apply Forall_nil_2; reflexivity.
Defined.

(** ** Integer literals *)

Lemma digits_of_uint (d : Decimal.uint) :
  all_chars is_digit (NilEmpty.string_of_uint d) = true.
Proof. induction d; cbn [NilEmpty.string_of_uint all_chars]; [reflexivity | exact IHd ..]. Qed.

Lemma digit_facts (c : ascii) :
  is_digit c = true ->
  is_space c = false /\ is_quote c = false /\ Ascii.eqb c "-" = false
  /\ Ascii.eqb c "t" = false /\ Ascii.eqb c "f" = false /\ Ascii.eqb c "n" = false
  /\ Ascii.eqb c "N" = false.
Proof. destruct c as [[] [] [] [] [] [] [] []]; vm_compute; intuition congruence. Qed.

Lemma strip_digits (s : string) : all_chars is_digit s = true -> strip s = s.
Proof.
  intros H. unfold strip.
  assert (Hl : forall t, all_chars is_digit t = true -> lstrip t = t).
  { intros [|c t] Ht; [reflexivity|]. cbn [all_chars] in Ht.
    apply andb_true_iff in Ht as [Hc _]. cbn [lstrip].
    now destruct (digit_facts c Hc) as (-> & _). }
  rewrite (Hl s H). induction s as [|c s IH]; [reflexivity|].
  cbn [all_chars] in H. apply andb_true_iff in H as [Hc H].
  destruct (digit_facts c Hc) as (Hs & _). rewrite rstrip_cons by exact Hs.
  now rewrite (IH H).
Qed.

Lemma span_digits (s : string) : all_chars is_digit s = true -> span is_digit s = (s, EmptyString).
Proof. apply span_all. Qed.

(** The evaluation of text that consists of digits, with or without a
    minus sign before them. *)
Lemma eval_digits (fuel : nat) (sign : bool) (ds : string) (st : state) :
  nonempty ds = true -> all_chars is_digit ds = true ->
  let s := if sign then String "-" ds else ds in
  _eval (S fuel) s st
  = match int_of_text s with Some n => (Ok (VInt n), st) | None => (Unmodelled, st) end.
Proof.
  intros Hn Hd s.
  assert (Hstrip : strip s = s).
  { unfold s. destruct sign; [|now apply strip_digits].
    unfold strip. cbn [lstrip]. change (is_space "-") with false. cbv iota.
    rewrite rstrip_cons by reflexivity. f_equal.
    pose proof (strip_digits ds Hd) as H. unfold strip in H.
    destruct ds as [|c r]; [discriminate|]. cbn [all_chars] in Hd.
    apply andb_true_iff in Hd as [Hc _]. destruct (digit_facts c Hc) as (Hs & _).
    cbn [lstrip] in H. now rewrite Hs in H. }
  assert (Hminus : strip_minus s = ds).
  { unfold s. destruct sign; [reflexivity|].
    destruct ds as [|c r]; [discriminate|]. cbn [all_chars] in Hd.
    apply andb_true_iff in Hd as [Hc _].
    destruct c as [[] [] [] [] [] [] [] []]; vm_compute in Hc; try discriminate; reflexivity. }
  assert (Hhead : _is_str_literal s = false
                  /\ String.eqb s "true" = false /\ String.eqb s "false" = false
                  /\ String.eqb s "null" = false /\ String.eqb s "None" = false
                  /\ nonempty s = true).
  { unfold s. destruct sign; [repeat split; reflexivity|].
    destruct ds as [|c r]; [discriminate|]. cbn [all_chars] in Hd.
    apply andb_true_iff in Hd as [Hc _].
    destruct c as [[] [] [] [] [] [] [] []]; vm_compute in Hc; try discriminate;
      repeat split; reflexivity. }
  destruct Hhead as (H1 & H2 & H3 & H4 & H5 & H6).
  cbn [_eval]. unfold _eval_body. rewrite Hstrip, H1, H2, H3, H4, H5, H6.
  unfold is_float_literal, is_int_literal. rewrite Hminus, (span_digits ds Hd), Hn, Hd.
  cbn [negb orb andb]. unfold ret. now destruct (int_of_text s).
Qed.

Lemma int_of_text_str (n : Z) : int_of_text (str_of_Z n) = Some n.
Proof.
  unfold int_of_text, str_of_Z. rewrite NilZero.isi.
  - cbn [fmap option_fmap option_map]. now rewrite DecimalZ.of_to.
  - destruct n; cbn [Z.to_int]; try discriminate.
    intros [= H]. exact (DecimalPos.Unsigned.to_uint_nonnil p H).
  - destruct n; cbn [Z.to_int]; try discriminate.
    intros [= H]. exact (DecimalPos.Unsigned.to_uint_nonnil p H).
Qed.

Lemma str_of_Z_shape (n : Z) :
  exists sign ds, str_of_Z n = (if sign : bool then String "-" ds else ds)
                  /\ nonempty ds = true /\ all_chars is_digit ds = true.
Proof.
  assert (Hu : forall p, let ds := NilZero.string_of_uint (Pos.to_uint p) in
                          nonempty ds = true /\ all_chars is_digit ds = true).
  { intros p ds. unfold ds, NilZero.string_of_uint.
    pose proof (DecimalPos.Unsigned.to_uint_nonnil p) as H.
    pose proof (digits_of_uint (Pos.to_uint p)) as Hd.
    destruct (Pos.to_uint p); [congruence | split; [reflexivity | exact Hd] ..]. }
  unfold str_of_Z. destruct n as [|p|p]; cbn [Z.to_int NilZero.string_of_int].
  - exists false, "0". now repeat split.
  - exists false, (NilZero.string_of_uint (Pos.to_uint p)). split; [reflexivity | apply Hu].
  - exists true, (NilZero.string_of_uint (Pos.to_uint p)). split; [reflexivity | apply Hu].
Qed.

(** X25: the decimal text of an integer, as [str] writes it, evaluates
    to that integer; a leading minus sign is part of the literal. *)
Theorem eval_integer_text (fuel : nat) (n : Z) (st : state) :
  _eval (S fuel) (str_of_Z n) st = (Ok (VInt n), st).
Proof.
  destruct (str_of_Z_shape n) as (sign & ds & E & Hn & Hd).
  pose proof (eval_digits fuel sign ds st Hn Hd) as H. cbv zeta in H.
  rewrite <- E in H. now rewrite H, int_of_text_str.
Qed.

(** ** Loops *)

(** The text of a [while] loop. *)
Definition while_text (c a : string) : string := "while (" +:+ c +:+ ") {" +:+ a +:+ "}".

Lemma run_while_text (fuel : nat) (c a : string) (st : state) :
  parens_nested 0 None c = true -> braces_nested 0 None a = true ->
  _run_stmt (S fuel) (while_text c a) st
  = ((while_loop (_eval fuel c) (_run_block (_run_stmt fuel) a) guard_limit ;;; ret tt) ;;;
     ret VNone) st.
Proof.
  intros Hc Ha. set (s := while_text c a).
  assert (Hs : strip s = s).
  { unfold strip. change (lstrip s) with s. unfold s, while_text.
    rewrite <- !app_assoc_str. now apply rstrip_snoc. }
  rewrite (run_stmt_while fuel s st) by (repeat split; [exact Hs | reflexivity ..]).
  unfold _run_while, _run_while_counted.
  change (lstrip (slice_from 5 s)) with ("(" +:+ c +:+ ")" +:+ (" {" +:+ a +:+ "}")).
  rewrite (extract_condition_text c _ Hc).
  unfold bind at 3, lift at 1. cbn [fst snd].
  change (lstrip (" {" +:+ a +:+ "}")) with ("{" +:+ a +:+ "}" +:+ "").
  rewrite (extract_block_text a _ Ha). reflexivity.
Qed.

(** X26: a [while] statement whose condition is found truthy in [k]
    rounds in a row, fewer than 1,000,000, and falsy at the next test,
    has run its block in each of these rounds, after the test of the
    round, and ends in the state that last test left, without a
    warning; its value is [None]. *)
Theorem while_statement (fuel : nat) (c a : string) (k : nat) (st sk st' : state) :
  parens_nested 0 None c = true -> braces_nested 0 None a = true ->
  rounds (Some (_eval fuel c)) (_run_block (_run_stmt fuel) a) (ret tt) k st sk ->
  Z.of_nat k < 1000000 ->
  cond_is (Some (_eval fuel c)) false sk st' ->
  _run_stmt (S fuel) (while_text c a) st = (Ok VNone, st').
Proof.
  intros Hc Ha Hr Hk He. rewrite (run_while_text fuel c a st Hc Ha).
  pose proof guard_limit_value as Hg. rewrite guard_limit_succ in *.
  unfold bind at 1. unfold bind at 1.
  rewrite (while_loop_stops _ _ k (Nat.pred guard_limit) st sk st' Hr ltac:(lia) He).
  reflexivity.
Qed.

Lemma while_statement_witness :
  _run_stmt 6 (while_text "x < 3" " x = x + 1 ") (st_x 1) = (Ok VNone, st_x 3).
Proof.
  apply (while_statement 5 "x < 3" " x = x + 1 " 2 (st_x 1) (st_x 3) (st_x 3));
    [reflexivity | reflexivity | | lia | exists (VBool false); split; reflexivity].
  apply (rounds_S _ _ _ 1 (st_x 1) (st_x 1) (st_x 2) (st_x 2) (st_x 3));
    [exists (VBool true); split; reflexivity | left; reflexivity | reflexivity|].
  apply (rounds_S _ _ _ 0 (st_x 2) (st_x 2) (st_x 3) (st_x 3) (st_x 3));
    [exists (VBool true); split; reflexivity | left; reflexivity | reflexivity|].
  apply rounds_O.
Defined.

(** The text of a [for] over a collection. *)
Definition for_in_text (var e a : string) : string :=
  "for " +:+ var +:+ " in " +:+ e +:+ " {" +:+ a +:+ "}".

Lemma rstrip_tail (x : ascii) (s : string) :
  rstrip (String x s) = String x s -> rstrip s = s /\ (is_space x = true -> nonempty s = true).
Proof.
  cbn [rstrip]. destruct (rstrip s) as [|d r] eqn:E.
  - destruct (is_space x); [discriminate|]. intros [= <-]. now split.
  - intros [= <-]. now split.
Qed.

Lemma no_brace_ahead (s t : string) :
  nonempty s = true -> rstrip s = s -> contains_char "{" s = false ->
  startswith_char "{" (lstrip (s +:+ t)) = false.
Proof.
  induction s as [|x s IH]; intros Hn Hr Hb; [discriminate|].
  cbn [contains_char] in Hb. apply orb_false_iff in Hb as [Hx Hb].
  rewrite app_cons. cbn [lstrip]. destruct (is_space x) eqn:Hs.
  - apply rstrip_tail in Hr as [Hr Hne]. now apply IH; [apply Hne| |].
  - cbn [startswith_char]. exact Hx.
Qed.

Lemma lazy_until_brace_text (e t : string) :
  rstrip e = e -> contains_char "{" e = false ->
  lazy_until_brace (e +:+ " {" +:+ t) = Some e.
Proof.
  induction e as [|x e IH]; intros Hr Hb; [reflexivity|].
  pose proof (no_brace_ahead (String x e) (" {" +:+ t) eq_refl Hr Hb) as Hno.
  cbn [contains_char] in Hb. apply orb_false_iff in Hb as [_ Hb].
  apply rstrip_tail in Hr as [Hr _].
  rewrite (app_cons x e) in *. cbn [lazy_until_brace]. rewrite Hno, (IH Hr Hb). reflexivity.
Qed.

Lemma run_for_in_text (fuel : nat) (var e a : string) (st : state) :
  plain_name var = true -> trimmed e -> contains_char "{" e = false ->
  braces_nested 0 None a = true ->
  _run_stmt (S fuel) (for_in_text var e a) st
  = ((collection <- _eval fuel e ;;
      match collection with
      | VNone => ret tt
      | VList l => for_in_list fuel var l O (_run_block (_run_stmt fuel) a)
      | _ => items <- iterate collection ;;
             for_in_items var items (_run_block (_run_stmt fuel) a)
      end) ;;; ret VNone) st.
Proof.
  intros Hv He Hb Ha. set (s := for_in_text var e a).
  assert (Hs : strip s = s).
  { unfold strip. change (lstrip s) with s. unfold s, for_in_text.
    rewrite <- !app_assoc_str. now apply rstrip_snoc. }
  rewrite (run_stmt_for fuel s st) by (repeat split; [exact Hs | reflexivity ..]).
  unfold _run_for.
  set (rest := var +:+ " in " +:+ e +:+ " {" +:+ a +:+ "}").
  assert (Hrest : lstrip (slice_from 3 s) = rest).
  { change (slice_from 3 s) with (" " +:+ rest). unfold rest.
    pose proof (plain_name_headed var Hv) as Hh.
    destruct var as [|v0 var']; [discriminate|]. cbn [alpha_headed] in Hh.
    rewrite (app_cons v0). apply lstrip_app; [reflexivity|].
    now apply word_not_space, alpha_is_word. }
  rewrite Hrest.
  assert (Hm : match_for_in rest = Some (var, e)).
  { unfold match_for_in, rest.
    change (var +:+ " in " +:+ e +:+ " {" +:+ a +:+ "}")
      with (var +:+ String " " ("in " +:+ e +:+ " {" +:+ a +:+ "}")).
    rewrite (ident_plain var " " _ Hv eq_refl).
    change (span is_space (String " " ("in " +:+ e +:+ " {" +:+ a +:+ "}")))
      with (let '(x, y) := span is_space ("in " +:+ e +:+ " {" +:+ a +:+ "}") in
            (String " " x, y)).
    change (span is_space ("in " +:+ e +:+ " {" +:+ a +:+ "}"))
      with (EmptyString, "in " +:+ e +:+ " {" +:+ a +:+ "}").
    cbv beta iota.
    change ("in " +:+ e +:+ " {" +:+ a +:+ "}")
      with (String "i" (String "n" (" " +:+ e +:+ " {" +:+ a +:+ "}"))).
    cbv beta iota.
    destruct e as [|c e'] eqn:Ee; [now destruct He|].
    pose proof (trimmed_head c e' He) as Hc.
    rewrite (app_cons c e'), (span_app is_space " " c _ eq_refl Hc).
    cbn [nonempty andb].
    pose proof (trimmed_rstrip _ He) as Hr. apply rstrip_tail in Hr as [Hr _].
    cbn [contains_char] in Hb. apply orb_false_iff in Hb as [_ Hb].
    now rewrite (lazy_until_brace_text e' _ Hr Hb). }
  rewrite Hm.
  assert (Hf : first_block rest = Ok a).
  { unfold first_block, rest.
    assert (Hi : index_char "{" (var +:+ " in " +:+ e +:+ " {" +:+ a +:+ "}")
                 = Some (len (var +:+ " in " +:+ e +:+ " "))).
    { rewrite <- (index_char_app "{" (var +:+ " in " +:+ e +:+ " ") (a +:+ "}")).
      - now rewrite !app_assoc_str.
      - rewrite !contains_char_app, Hb.
        rewrite (contains_char_word "{" var (plain_name_word var Hv) eq_refl). reflexivity. }
    rewrite Hi.
    assert (Hsl : slice_from (len (var +:+ " in " +:+ e +:+ " "))
                    (var +:+ " in " +:+ e +:+ " {" +:+ a +:+ "}") = "{" +:+ a +:+ "}" +:+ "").
    { replace (var +:+ " in " +:+ e +:+ " {" +:+ a +:+ "}")
        with ((var +:+ " in " +:+ e +:+ " ") +:+ ("{" +:+ a +:+ "}" +:+ ""))
        by (now rewrite !app_assoc_str).
      apply slice_from_app. }
    rewrite Hsl, (extract_block_text a _ Ha). reflexivity. }
  rewrite Hf. destruct He as [_ He]. rewrite He. reflexivity.
Qed.

(** [visits var l body k i s s'] : a loop over the array at [l] that
    stands before item [i] in the state [s] makes [k] more rounds and
    ends in [s'].  In each round the array, as it then is, has an item
    [i]; the variable is assigned that item and the body is run to its
    end.  The loop ends when the array has no item [i]. *)
Inductive visits (var : string) (l : loc) (body : M unit)
    : nat -> nat -> state -> state -> Prop :=
| visits_end i s xs :
    heap s !! l = Some (OList xs) -> xs !! i = None -> visits var l body O i s s
| visits_item k i s xs item s1 s2 :
    heap s !! l = Some (OList xs) -> xs !! i = Some item ->
    body_ends body (with_env (<[var := item]> (env s)) s) s1 ->
    visits var l body k (S i) s1 s2 ->
    visits var l body (S k) i s s2.

Lemma for_in_list_visits (var : string) (l : loc) (body : M unit) (k i : nat)
    (s s' : state) :
  visits var l body k i s s' ->
  forall n, (k < n)%nat -> for_in_list n var l i body s = (Ok tt, s').
Proof.
  induction 1 as [i s xs Hl Hi | k i s xs item s1 s2 Hl Hi Hb _ IH]; intros [|n] Hn;
    try lia; cbn [for_in_list]; unfold bind at 1, items_of, bind at 1, get_heap;
    rewrite Hl; cbn [ret]; rewrite Hi.
  - reflexivity.
  - unfold bind at 1, assign. unfold bind at 1.
    rewrite (loop_signals_ends _ _ _ Hb). apply IH. lia.
Qed.

(** X27: a [for] over an array evaluates the expression of the array
    once and then visits the items in order: before each round the
    array is looked at again, the variable is assigned the item at the
    next index and the block is run; the statement ends, with [None],
    when the array has no item at the next index.  Over [None] the
    block is not run. *)
Theorem for_in_statement (fuel : nat) (var e a : string) (st s0 : state) :
  plain_name var = true -> trimmed e -> contains_char "{" e = false ->
  braces_nested 0 None a = true ->
  (forall l k s', _eval fuel e st = (Ok (VList l), s0) ->
     visits var l (_run_block (_run_stmt fuel) a) k O s0 s' -> (k < fuel)%nat ->
     _run_stmt (S fuel) (for_in_text var e a) st = (Ok VNone, s'))
  /\ (_eval fuel e st = (Ok VNone, s0) ->
      _run_stmt (S fuel) (for_in_text var e a) st = (Ok VNone, s0)).
Proof.
  intros Hv He Hb Ha. split.
  - intros l k s' Hl Hvis Hk. rewrite (run_for_in_text fuel var e a st Hv He Hb Ha).
    unfold bind at 1. unfold bind at 1. rewrite Hl.
    now rewrite (for_in_list_visits _ _ _ _ _ _ _ Hvis fuel Hk).
  - intros Hn. rewrite (run_for_in_text fuel var e a st Hv He Hb Ha).
    unfold bind at 1. unfold bind at 1. now rewrite Hn.
Qed.

(** The state in which [t] is [n], and [x] is [v] when there is one,
    beside the array [[1, 2]]. *)
Definition st_sum (n : Z) (x : option value) : state :=
  with_heap [OList [VInt 1; VInt 2]]
    (with_env (match x with
               | Some v => <["x" := v]> (<["t" := VInt n]> ∅)
               | None => <["t" := VInt n]> ∅
               end) initial).

Lemma for_in_statement_witness :
  _run_stmt 6 (for_in_text "x" "[1, 2]" " t = t + x ")
    (with_env (<["t" := VInt 0]> ∅) initial)
  = (Ok VNone, st_sum 3 (Some (VInt 2))).
Proof.
  destruct (for_in_statement 5 "x" "[1, 2]" " t = t + x "
              (with_env (<["t" := VInt 0]> ∅) initial) (st_sum 0 None))
    as [Hlist _]; [reflexivity | split; reflexivity | reflexivity | reflexivity|].
  apply (Hlist O 2%nat (st_sum 3 (Some (VInt 2)))); [reflexivity | | lia].
  apply (visits_item _ _ _ 1 0 (st_sum 0 None) [VInt 1; VInt 2] (VInt 1)
           (st_sum 1 (Some (VInt 1))));
    [reflexivity | reflexivity | left; reflexivity|].
  apply (visits_item _ _ _ 0 1 (st_sum 1 (Some (VInt 1))) [VInt 1; VInt 2] (VInt 2)
           (st_sum 3 (Some (VInt 2))));
    [reflexivity | reflexivity | left; reflexivity|].
  apply (visits_end _ _ _ 2 (st_sum 3 (Some (VInt 2))) [VInt 1; VInt 2]); reflexivity.
Defined.

(** ** String literals *)

Lemma has_unescaped_found (q : ascii) (a t : string) :
  is_quote q = true -> contains_char "\" a = false ->
  has_unescaped q (a +:+ String q t) false = true.
Proof.
  intros Hq H. induction a as [|x a IH].
  - rewrite app_nil. cbn [has_unescaped].
    now rewrite (quote_not_backslash q Hq), Ascii.eqb_refl.
  - cbn [contains_char] in H. apply orb_false_iff in H as [Hx H].
    rewrite app_cons. cbn [has_unescaped]. rewrite Ascii.eqb_sym, Hx.
    destruct (Ascii.eqb x q); [reflexivity | now apply IH].
Qed.

Lemma has_unescaped_absent (q : ascii) (s : string) :
  contains_char "\" s = false -> contains_char q s = false ->
  has_unescaped q s false = false.
Proof.
  intros Hb Hq. induction s as [|x s IH]; [reflexivity|].
  cbn [contains_char] in Hb, Hq.
  apply orb_false_iff in Hb as [Hx Hb]. apply orb_false_iff in Hq as [Hxq Hq].
  cbn [has_unescaped]. rewrite Ascii.eqb_sym, Hx, Ascii.eqb_sym, Hxq. now apply IH.
Qed.

Lemma drop_last_cons (x : ascii) (s : string) :
  nonempty s = true -> drop_last (String x s) = String x (drop_last s).
Proof. now destruct s. Qed.

Lemma drop_last_app (a : string) (c : ascii) (t : string) :
  drop_last (a +:+ String c t) = a +:+ drop_last (String c t).
Proof.
  induction a as [|x a IH]; [reflexivity|].
  rewrite !app_cons, drop_last_cons by (now apply nonempty_app_r). now rewrite IH.
Qed.

(** X28: text that begins with a quoted string and goes on after it is
    no string literal, whatever it ends with: the sum of two strings is
    not taken for one string. *)
Theorem not_a_literal (q : ascii) (a rest : string) :
  is_quote q = true -> contains_char "\" a = false -> nonempty rest = true ->
  _is_str_literal (quoted q a +:+ rest) = false.
Proof.
  intros Hq Ha Hr. destruct rest as [|c t]; [discriminate|].
  unfold quoted. rewrite app_cons. unfold _is_str_literal, _unquote. cbn [slice_from].
  rewrite app_assoc_str, app_cons, app_nil.
  rewrite (drop_last_app a q (String c t)). cbn [drop_last].
  rewrite (has_unescaped_found q a _ Hq Ha). apply andb_false_r.
Qed.

Lemma not_a_literal_witness : _is_str_literal (quoted "'" "a" +:+ " + 'b'") = false.
Proof. apply (not_a_literal "'" "a" " + 'b'"); reflexivity. Defined.

Lemma replace_absent (h : ascii) (a b s : string) :
  contains_char h s = false -> replace (String h a) b s = s.
Proof.
  unfold replace. intros H. induction s as [|x s IH]; [reflexivity|].
  cbn [contains_char] in H. apply orb_false_iff in H as [Hx H].
  cbn [replace_skip String.prefix].
  destruct (ascii_dec h x) as [->|_]; [now rewrite Ascii.eqb_refl in Hx|].
  now rewrite (IH H).
Qed.

Lemma interpolate_plain (fuel : nat) (s : string) (st : state) :
  contains_char "$" s = false ->
  interpolate fuel (_eval fuel) (segments s O) st = (Ok s, st).
Proof.
  intros H. induction s as [|x s IH]; [reflexivity|].
  cbn [contains_char] in H. apply orb_false_iff in H as [Hx H].
  cbn [segments]. rewrite Ascii.eqb_sym, Hx. cbn [interpolate].
  unfold bind. now rewrite (IH H).
Qed.

(** X29: a quoted string without a backslash, a dollar sign or its own
    quote evaluates to the text between the quotes, and the state is
    left as it was. *)
Theorem eval_plain_literal (fuel : nat) (q : ascii) (s : string) (st : state) :
  is_quote q = true -> contains_char q s = false ->
  contains_char "\" s = false -> contains_char "$" s = false ->
  _eval (S fuel) (quoted q s) st = (Ok (VStr s), st).
Proof.
  intros Hq Hs Hb Hd. cbn [_eval]. unfold _eval_body.
  rewrite (strip_quoted q s Hq),
    (is_str_literal_quoted q s Hq (has_unescaped_absent q s Hb Hs)).
  unfold quoted at 1. cbn [nonempty negb]. unfold eval_str_literal.
  rewrite unquote_quoted. unfold bind. rewrite (interpolate_plain fuel s st Hd).
  unfold ret. now rewrite (replace_absent "\" "n" nl s Hb), (replace_absent "\" "t" tab s Hb).
Qed.

Lemma eval_plain_literal_witness :
  _eval 1 (quoted dq "it's 5 o'clock") initial = (Ok (VStr "it's 5 o'clock"), initial).
Proof. apply (eval_plain_literal 0 dq "it's 5 o'clock" initial); reflexivity. Defined.

(** ** Comments *)

Lemma well_nested_app (sep : ascii -> bool) (a b : string) :
  forall d q,
    well_nested sep d q a = true -> well_nested sep 0 None b = true ->
    well_nested sep d q (a +:+ b) = true.
Proof.
  induction a as [|c a IH]; intros d q Ha Hb.
  - cbn [well_nested] in Ha. apply andb_true_iff in Ha as [Hd Hq].
    apply Nat.eqb_eq in Hd. apply bool_decide_eq_true in Hq. now subst d q.
  - rewrite app_cons. cbn [well_nested] in *. destruct q as [qc|].
    + apply andb_true_iff in Ha as [-> Ha]. now apply IH.
    + destruct (is_quote c); [now apply IH|].
      destruct (is_open c); [now apply IH|].
      destruct (is_close c); [destruct d; [discriminate | now apply IH]|].
      apply andb_true_iff in Ha as [-> Ha]. now apply IH.
Qed.

Lemma space_neutral (c : ascii) :
  is_space c = true ->
  is_quote c = false /\ is_open c = false /\ is_close c = false /\ Ascii.eqb c "/" = false
  /\ Ascii.eqb c ";" = false.
Proof. destruct c as [[] [] [] [] [] [] [] []]; vm_compute; intuition congruence. Qed.

(** White space on one line. *)
Definition blank_char (c : ascii) : bool := is_space c && negb (Ascii.eqb c "010").

Lemma well_nested_blank (ws : string) :
  all_chars blank_char ws = true -> well_nested statement_sep 0 None ws = true.
Proof.
  induction ws as [|c ws IH]; intros H; [reflexivity|].
  cbn [all_chars] in H. apply andb_true_iff in H as [Hc H].
  unfold blank_char in Hc. apply andb_true_iff in Hc as [Hs Hn]. apply negb_true_iff in Hn.
  destruct (space_neutral c Hs) as (Hq & Ho & Hcl & Hsl & Hsc).
  cbn [well_nested]. rewrite Hq, Ho, Hcl. unfold statement_sep. rewrite Hsl, Hsc, Hn.
  now apply IH.
Qed.

Lemma rstrip_app_blank (a ws : string) :
  rstrip ws = EmptyString -> rstrip (a +:+ ws) = rstrip a.
Proof.
  intros Hr. induction a as [|x a IH]; [now rewrite app_nil|].
  rewrite app_cons. cbn [rstrip]. now rewrite IH.
Qed.

Lemma rstrip_blank (a ws : string) :
  trimmed a -> all_chars blank_char ws = true -> strip (a +:+ ws) = a.
Proof.
  intros Ha Hw. unfold strip. rewrite (trimmed_lstrip a ws Ha).
  assert (Hr : rstrip ws = EmptyString).
  { induction ws as [|c ws IH]; [reflexivity|].
    cbn [all_chars] in Hw. apply andb_true_iff in Hw as [Hc Hw].
    unfold blank_char in Hc. apply andb_true_iff in Hc as [Hs _].
    cbn [rstrip]. now rewrite (IH Hw), Hs. }
  rewrite (rstrip_app_blank a ws Hr). now apply trimmed_rstrip.
Qed.

(** The end of the line of a comment. *)
Lemma index_newline (p m rest : string) :
  contains_char "010" m = false ->
  String.index (len p) nl (p +:+ m +:+ nl +:+ rest) = Some (len p + len m)%nat.
Proof.
  intros Hm. induction p as [|x p IH].
  - rewrite app_nil. cbn [len String.length Nat.add]. induction m as [|y m IHm].
    + unfold nl. rewrite app_nil, app_cons, app_nil. cbn [String.index String.prefix].
      destruct (ascii_dec "010" "010"); [now destruct rest | congruence].
    + cbn [contains_char] in Hm. apply orb_false_iff in Hm as [Hy Hm].
      rewrite app_cons. unfold nl in *. cbn [String.index String.prefix].
      destruct (ascii_dec "010" y) as [<-|_]; [discriminate|].
      rewrite (IHm Hm). reflexivity.
  - rewrite app_cons. unfold len in *. cbn [String.length String.index Nat.add].
    now rewrite IH.
Qed.

Lemma split_loop_comment (n : nat) (text p m rest : string) (parts : list string)
    (cur : string) :
  text = p +:+ ("//" +:+ m) +:+ nl +:+ rest ->
  contains_char "010" m = false ->
  split_loop (S n) text (len p) parts cur 0 false None
  = split_loop n text (len (p +:+ ("//" +:+ m) +:+ nl)) (flush parts cur) EmptyString
      0 false None.
Proof.
  intros Ht Hm. cbn [split_loop].
  assert (Hg : get (len p) text = Some "/"%char) by (rewrite Ht; apply get_app_len).
  assert (Hg' : get (S (len p)) text = Some "/"%char).
  { rewrite Ht.
    change (p +:+ ("//" +:+ m) +:+ nl +:+ rest)
      with (p +:+ String "/" (String "/" (m +:+ nl +:+ rest))).
    rewrite <- (snoc_app p "/" (String "/" (m +:+ nl +:+ rest))), <- (len_snoc' p "/").
    apply get_app_len. }
  rewrite Hg, Hg'. cbn [is_quote is_open is_close Ascii.eqb Bool.eqb orb andb negb Z.eqb].
  rewrite bool_decide_eq_true_2 by reflexivity.
  assert (Hi : String.index (len p) (String "010" EmptyString) text
               = Some (len p + len ("//" +:+ m))%nat).
  { rewrite Ht. change (String "010" EmptyString) with nl. apply index_newline.
    change ("//" +:+ m) with (String "/" (String "/" m)). cbn [contains_char]. exact Hm. }
  rewrite Hi. f_equal. rewrite !len_app. unfold nl. cbn [len String.length]. lia.
Qed.

(** X30: a comment that starts with two slashes ends the statement
    before it and is dropped, with the white space before it, up to
    the end of its line. *)
Theorem split_statements_comment (a ws cm : string) (stmts : list string) :
  statement_text a -> all_chars blank_char ws = true ->
  contains_char "010" cm = false -> Forall statement_text stmts ->
  split_statements (a +:+ ws +:+ "//" +:+ cm +:+ nl +:+ join nl stmts) = Ok (a :: stmts).
Proof.
  intros [Ha Hw] Hws Hcm Hall.
  set (rest := join nl stmts). set (text := a +:+ ws +:+ "//" +:+ cm +:+ nl +:+ rest).
  unfold split_statements. unfold text at 1.
  rewrite (trimmed_strip_nonempty a _ Ha). cbn [negb].
  assert (Ht : text = EmptyString +:+ (a +:+ ws) +:+ ("//" +:+ cm +:+ nl +:+ rest)).
  { unfold text. now rewrite app_nil, !app_assoc_str. }
  assert (Hlen : S (len text)
                 = (len (a +:+ ws) + S (S (len ("//" +:+ cm +:+ nl +:+ rest) - 1)))%nat).
  { rewrite Ht, app_nil, len_app. change (len ("//" +:+ cm +:+ nl +:+ rest))
      with (S (len ("/" +:+ cm +:+ nl +:+ rest))). lia. }
  rewrite Hlen.
  rewrite (split_loop_statement (a +:+ ws) _ text EmptyString _ [] EmptyString Ht)
    by (apply well_nested_app; [exact Hw | now apply well_nested_blank]).
  rewrite app_nil. change (len EmptyString + len (a +:+ ws))%nat with (len (a +:+ ws)).
  rewrite (split_loop_comment _ text (a +:+ ws) cm rest [] (a +:+ ws));
    [|unfold text; now rewrite !app_assoc_str | exact Hcm].
  unfold flush. rewrite (rstrip_blank a ws Ha Hws). destruct Ha as [Hn Hs]. rewrite Hn.
  cbn [app].
  set (pre := (a +:+ ws) +:+ ("//" +:+ cm) +:+ nl).
  assert (Ht' : text = pre +:+ rest) by (unfold text, pre; now rewrite !app_assoc_str).
  destruct stmts as [|x tl].
  - cbn [split_loop]. rewrite Ht'. unfold rest. cbn [join]. now rewrite app_nil_r, get_len.
  - apply (split_loop_lines (x :: tl) _ text pre [a] Ht' Hall); [discriminate|].
    fold rest. rewrite !len_app. unfold nl. cbn [len String.length]. lia.
Qed.

Lemma split_statements_comment_witness :
  split_statements ("var x = 1" +:+ "  " +:+ "//" +:+ " one; two" +:+ nl
                    +:+ join nl ["print(x)"])
  = Ok ["var x = 1"; "print(x)"].
Proof.
  apply (split_statements_comment "var x = 1" "  " " one; two" ["print(x)"]);
    [split; [split|]; reflexivity | reflexivity | reflexivity |].
  repeat apply Forall_cons_2; try apply Forall_nil_2; repeat split; reflexivity.
Defined.
